(** * Score combination strategies of SGNMT ([cam/sgnmt/decoding/combination.py])

    A shallow embedding of the four [breakdown2score_*] functions and the
    proofs of their specified properties.

    Numbers.  Python floats are modelled as the extended reals with a
    not-a-number element: a finite float is a real number, so rounding is
    not modelled (exact arithmetic), while the special values that decide
    the control flow and the results of the module ([utils.NEG_INF],
    [np.log 0], [inf - inf]) are kept.

    Effects.  The caller's [score_breakdown] list is the only mutable object
    the functions touch.  Every function is a computation in a small
    state-and-exception monad whose state is that list and whose exceptions
    are the Python exceptions the code can raise. *)

From Stdlib Require Import Ascii String DecimalString DecimalNat ZArith.
From Stdlib Require Import Reals Lra Lia List Bool Arith.
Import ListNotations.

Local Open Scope R_scope.

(** ** Python floats, without rounding *)

Inductive pyfloat : Type :=
| NaN
| NegInf
| PosInf
| Fin (r : R).

(** [x + y] *)
Definition fadd (x y : pyfloat) : pyfloat :=
  match x, y with
  | NaN, _ | _, NaN => NaN
  | PosInf, NegInf | NegInf, PosInf => NaN
  | PosInf, _ | _, PosInf => PosInf
  | NegInf, _ | _, NegInf => NegInf
  | Fin a, Fin b => Fin (a + b)
  end.

(** [- x] *)
Definition fneg (x : pyfloat) : pyfloat :=
  match x with
  | NaN => NaN
  | NegInf => PosInf
  | PosInf => NegInf
  | Fin a => Fin (- a)
  end.

(** [x - y] *)
Definition fsub (x y : pyfloat) : pyfloat := fadd x (fneg y).

(** An infinity of sign [positive] times the finite [a]. *)
Definition inf_times (positive : bool) (a : R) : pyfloat :=
  if Rlt_dec 0 a then (if positive then PosInf else NegInf)
  else if Rlt_dec a 0 then (if positive then NegInf else PosInf)
  else NaN.

(** [x * y] *)
Definition fmul (x y : pyfloat) : pyfloat :=
  match x, y with
  | NaN, _ | _, NaN => NaN
  | Fin a, Fin b => Fin (a * b)
  | Fin a, PosInf | PosInf, Fin a => inf_times true a
  | Fin a, NegInf | NegInf, Fin a => inf_times false a
  | PosInf, PosInf | NegInf, NegInf => PosInf
  | PosInf, NegInf | NegInf, PosInf => NegInf
  end.

(** [x == y]: a NaN is equal to nothing. *)
Definition feqb (x y : pyfloat) : bool :=
  match x, y with
  | NegInf, NegInf | PosInf, PosInf => true
  | Fin a, Fin b => if Req_dec_T a b then true else false
  | _, _ => false
  end.

(** [np.log]: minus infinity at zero, NaN below. *)
Definition np_log (x : pyfloat) : pyfloat :=
  match x with
  | NaN | NegInf => NaN
  | PosInf => PosInf
  | Fin a => if Rlt_dec 0 a then Fin (ln a)
             else if Rlt_dec a 0 then NaN else NegInf
  end.

(** [np.exp] *)
Definition np_exp (x : pyfloat) : pyfloat :=
  match x with
  | NaN => NaN
  | NegInf => Fin 0
  | PosInf => PosInf
  | Fin a => Fin (exp a)
  end.

(** The larger of two floats; a NaN wins. *)
Definition fmax (x y : pyfloat) : pyfloat :=
  match x, y with
  | NaN, _ | _, NaN => NaN
  | PosInf, _ | _, PosInf => PosInf
  | NegInf, z | z, NegInf => z
  | Fin a, Fin b => if Rle_dec a b then Fin b else Fin a
  end.

(** Python's builtin [sum]: a left fold that starts from [0]. *)
Definition pysum (xs : list pyfloat) : pyfloat :=
  fold_left fadd xs (Fin 0).

(** Modelled from the spec: [utils.NEG_INF] is defined in
    [cam/sgnmt/utils.py], which is not part of the sources at hand.  The
    specification calls it the sentinel of an impossible hypothesis, negative
    infinity. *)
Definition NEG_INF : pyfloat := NegInf.

(** ** The data model *)

(** One predictor's [(log_prob, weight)] at one step. *)
Definition PredictorScore : Type := (pyfloat * pyfloat)%type.

(** The predictors' scores at one step. *)
Definition StepBreakdown : Type := list PredictorScore.

(** One step breakdown per generated step: the [score_breakdown] list. *)
Definition ScoreHistory : Type := list StepBreakdown.

(** ** Exceptions and the caller's list as state *)

Inductive exn : Type :=
| ZeroDivisionError
| IndexError.

Inductive outcome (A : Type) : Type :=
| Return (a : A)
| Raise (e : exn).

Arguments Return {A} a.
Arguments Raise {A} e.

(** A computation reads and writes the caller's list and returns or raises. *)
Definition M (A : Type) : Type := ScoreHistory -> outcome A * ScoreHistory.

Definition ret {A} (a : A) : M A := fun sb => (Return a, sb).

Definition bind {A B} (c : M A) (k : A -> M B) : M B :=
  fun sb =>
    match c sb with
    | (Return a, sb') => k a sb'
    | (Raise e, sb') => (Raise e, sb')
    end.

(** Reading the list. *)
Definition get_breakdown : M ScoreHistory := fun sb => (Return sb, sb).

(** A pure computation that may raise, run inside [M]. *)
Definition lift {A} (o : outcome A) : M A := fun sb => (o, sb).

(** [score_breakdown[-1] = v] *)
Definition set_last (v : StepBreakdown) : M unit :=
  fun sb =>
    match sb with
    | [] => (Raise IndexError, sb)
    | _ :: _ => (Return tt, removelast sb ++ [v])
    end.

Declare Scope pym_scope.
Delimit Scope pym_scope with pym.
Notation "x <- c ;; k" := (bind c (fun x => k))
  (at level 61, c at next level, right associativity) : pym_scope.
Notation "c ;;; k" := (bind c (fun _ => k))
  (at level 61, right associativity) : pym_scope.

(** Binding inside the pure exception layer. *)
Definition obind {A B} (o : outcome A) (k : A -> outcome B) : outcome B :=
  match o with
  | Return a => k a
  | Raise e => Raise e
  end.

Definition is_return {A} (o : outcome A) : bool :=
  match o with
  | Return _ => true
  | Raise _ => false
  end.

(** ** Lists indexed the Python way *)

(** [l[k]]; an index out of range raises. *)
Definition getitem {A} (l : list A) (k : nat) : outcome A :=
  match nth_error l k with
  | Some a => Return a
  | None => Raise IndexError
  end.

(** [l[k] = v] for an index in range. *)
Fixpoint list_set {A} (l : list A) (k : nat) (v : A) : list A :=
  match l, k with
  | [], _ => []
  | _ :: t, O => v :: t
  | h :: t, S k' => h :: list_set t k' v
  end.

(** [for x in xs: st = body(st, x)], stopping at the first exception. *)
Fixpoint for_each {St X} (body : St -> X -> outcome St) (xs : list X)
  (st : St) : outcome St :=
  match xs with
  | [] => Return st
  | x :: rest => obind (body st x) (for_each body rest)
  end.

(** [for k, x in enumerate(xs): st = body(st, k, x)], counting from [k]. *)
Fixpoint for_enumerate {St X} (body : St -> nat -> X -> outcome St)
  (k : nat) (xs : list X) (st : St) : outcome St :=
  match xs with
  | [] => Return st
  | x :: rest => obind (body st k x) (for_enumerate body (S k) rest)
  end.

(** [[f(k, x) for k, x in enumerate(xs)]], counting from [k]. *)
Fixpoint comprehension_enumerate {X B} (f : nat -> X -> outcome B)
  (k : nat) (xs : list X) : outcome (list B) :=
  match xs with
  | [] => Return []
  | x :: rest =>
      obind (f k x) (fun b =>
      obind (comprehension_enumerate f (S k) rest) (fun bs =>
      Return (b :: bs)))
  end.

(** [score / len(score_breakdown)]: Python raises on a zero divisor. *)
Definition py_div_len (score : pyfloat) (n : nat) : outcome pyfloat :=
  match n with
  | O => Raise ZeroDivisionError
  | S _ =>
      Return match score with
             | Fin a => Fin (a / INR n)
             | other => other
             end
  end.

(** ** Collaborators outside this module *)

(** Modelled from the spec: [utils.log_sum] is defined in [cam/sgnmt/utils.py],
    which is not part of the sources at hand.  The specification gives
    [logsumexp(xs) = max(xs) + log(sum(exp(xi - max(xs))))], has the empty
    input return negative infinity, has entries equal to negative infinity
    contribute [exp(-inf) = 0], and excludes NaN for inputs that are finite
    or negative infinity; so a list of negative infinities, whose entries
    all contribute zero, yields [log 0]. *)
Definition log_sum (xs : list pyfloat) : pyfloat :=
  match xs with
  | [] => NegInf
  | x :: rest =>
      match fold_left fmax rest x with
      | NegInf => NegInf
      | m => fadd m (np_log (pysum (map (fun xi => np_exp (fsub xi m)) xs)))
      end
  end.

(** Modelled from the spec: [Decoder.combi_arithmetic_unnormalized] is
    defined in [cam/sgnmt/decoding/core.py], which is not part of the sources
    at hand.  The specification has it compute, for one step, the unweighted
    sum of the predictors' raw log-probabilities, ignoring the weights. *)
Definition combi_arithmetic_unnormalized (s : StepBreakdown) : pyfloat :=
  pysum (map fst s).

(** ** The combination strategies *)

Local Open Scope pym_scope.

(** [breakdown2score_sum] *)
Definition breakdown2score_sum (working_score : pyfloat) (full : bool)
  : M pyfloat :=
  ret working_score.

(** [breakdown2score_length_norm] *)
Definition breakdown2score_length_norm (working_score : pyfloat) (full : bool)
  : M pyfloat :=
  score_breakdown <- get_breakdown ;;
  let score := pysum (map combi_arithmetic_unnormalized score_breakdown) in
  lift (py_div_len score (length score_breakdown)).

(** [alphas[k] += p], the body of the loop below. *)
Definition add_scores_body (alphas : list pyfloat) (k : nat)
  (pw : PredictorScore) : outcome (list pyfloat) :=
  let '(p, _) := pw in
  obind (getitem alphas k) (fun a =>
  Return (list_set alphas k (fadd a p))).

(** [for k, (p, w) in enumerate(pos): alphas[k] += p] *)
Definition add_scores (alphas : list pyfloat) (pos : StepBreakdown)
  : outcome (list pyfloat) :=
  for_enumerate add_scores_body 0 pos alphas.

(** [[alphas[k] - alpha_part + p for k, (p, w) in enumerate(pos)]] *)
Definition normalized_scores (alphas : list pyfloat) (alpha_part : pyfloat)
  (pos : StepBreakdown) : outcome (list pyfloat) :=
  comprehension_enumerate
    (fun k '(p, _) =>
       obind (getitem alphas k) (fun a =>
       Return (fadd (fsub a alpha_part) p)))
    0 pos.

(** [[(p, np.exp(alphas[k] - alpha_part)) for k, (p, w) in enumerate(pos)]] *)
Definition posterior_breakdown (alphas : list pyfloat) (alpha_part : pyfloat)
  (pos : StepBreakdown) : outcome StepBreakdown :=
  comprehension_enumerate
    (fun k '(p, _) =>
       obind (getitem alphas k) (fun a =>
       Return (p, np_exp (fsub a alpha_part))))
    0 pos.

(** The body of the loop over the positions in the full mode; the state is
    [(alphas, acc)]. *)
Definition bayesian_full_body (st : list pyfloat * list pyfloat)
  (pos : StepBreakdown) : outcome (list pyfloat * list pyfloat) :=
  let '(alphas, acc) := st in
  obind (add_scores alphas pos) (fun alphas =>
  let alpha_part := log_sum alphas in
  obind (normalized_scores alphas alpha_part pos) (fun scores =>
  Return (alphas, acc ++ [log_sum scores]))).

(** The branch [if full:] of [breakdown2score_bayesian]. *)
Definition bayesian_full (score_breakdown : ScoreHistory) : outcome pyfloat :=
  let alphas := map (fun '(_, w) => np_log w) (hd [] score_breakdown) in
  obind (for_each bayesian_full_body score_breakdown (alphas, []))
    (fun '(_, acc) => Return (pysum acc)).

(** The branch [else:] of [breakdown2score_bayesian]. *)
Definition bayesian_incremental (working_score : pyfloat)
  (score_breakdown : ScoreHistory) : M pyfloat :=
  if Nat.eqb (length score_breakdown) 1 then
    let scores :=
      map (fun '(p, w) => fadd (np_log w) p) (hd [] score_breakdown) in
    ret (log_sum scores)
  else
    let priors := map snd (hd [] score_breakdown) in
    let last_step := last score_breakdown [] in
    let last_score :=
      pysum (map (fun '(w, s) => fmul w (fst s)) (combine priors last_step)) in
    let working_score := fsub working_score last_score in
    let alphas := map np_log priors in
    alphas <- lift (for_each add_scores (removelast score_breakdown) alphas) ;;
    let alpha_part := log_sum alphas in
    scores <- lift (normalized_scores alphas alpha_part last_step) ;;
    updated_breakdown <-
      lift (posterior_breakdown alphas alpha_part last_step) ;;
    set_last updated_breakdown ;;;
    let working_score := fadd working_score (log_sum scores) in
    ret working_score.

(** [breakdown2score_bayesian] *)
Definition breakdown2score_bayesian (working_score : pyfloat) (full : bool)
  : M pyfloat :=
  score_breakdown <- get_breakdown ;;
  match score_breakdown with
  | [] => ret working_score
  | _ :: _ =>
      if feqb working_score NEG_INF then ret working_score
      else if full then lift (bayesian_full score_breakdown)
      else bayesian_incremental working_score score_breakdown
  end.

(** The body of the inner loop of [breakdown2score_bayesian_loglin]:
    [alpha = prev_alphas[k] + p], then the two appends; the state is
    [(alphas, sub_acc)]. *)
Definition loglin_inner_body (prev_alphas : list pyfloat)
  (st : list pyfloat * list pyfloat) (k : nat) (pw : PredictorScore)
  : outcome (list pyfloat * list pyfloat) :=
  let '(alphas, sub_acc) := st in
  let '(p, _) := pw in
  obind (getitem prev_alphas k) (fun a =>
  let alpha := fadd a p in
  Return (alphas ++ [alpha], sub_acc ++ [fadd p alpha])).

(** The inner loop, from empty [alphas] and [sub_acc]. *)
Definition loglin_inner (prev_alphas : list pyfloat) (pos : StepBreakdown)
  : outcome (list pyfloat * list pyfloat) :=
  for_enumerate (loglin_inner_body prev_alphas) 0 pos ([], []).

(** The body of its loop over the positions; the state is
    [(prev_alphas, acc)]. *)
Definition loglin_body (st : list pyfloat * list pyfloat)
  (pos : StepBreakdown) : outcome (list pyfloat * list pyfloat) :=
  let '(prev_alphas, acc) := st in
  obind (loglin_inner prev_alphas pos) (fun '(alphas, sub_acc) =>
  Return (alphas, acc ++ [fsub (log_sum sub_acc) (log_sum alphas)])).

(** [breakdown2score_bayesian_loglin] *)
Definition breakdown2score_bayesian_loglin (working_score : pyfloat)
  (full : bool) : M pyfloat :=
  score_breakdown <- get_breakdown ;;
  match score_breakdown with
  | [] => ret working_score
  | _ :: _ =>
      let prev_alphas := map (fun '(_, w) => np_log w) (hd [] score_breakdown) in
      lift (obind (for_each loglin_body score_breakdown (prev_alphas, []))
              (fun '(_, acc) => Return (pysum acc)))
  end.

Local Close Scope pym_scope.

(** ** Notions the properties are stated with *)

(** The mathematical sum of a list of floats, as a right fold. *)
Definition fsum (xs : list pyfloat) : pyfloat := fold_right fadd (Fin 0) xs.

(** The sum of a list of reals. *)
Definition rsum (xs : list R) : R := fold_right Rplus 0 xs.

(** The sum over all steps of the unweighted per-step sum of the raw
    log-probabilities. *)
Definition total_log_prob (sb : ScoreHistory) : pyfloat :=
  fsum (map (fun s => fsum (map fst s)) sb).

(** [x / n] for a positive count [n]. *)
Definition fdiv_count (x : pyfloat) (n : nat) : pyfloat :=
  match x with
  | Fin a => Fin (a / INR n)
  | other => other
  end.

(** [sum([s[i][0] for s in score_breakdown])]: the plain sum of predictor
    [i]'s raw log-probabilities. *)
Definition predictor_sum (i : nat) (sb : ScoreHistory) : pyfloat :=
  pysum (map (fun s => fst (nth i s (NaN, NaN))) sb).

(** The sum of the weight fields of one step. *)
Definition weight_sum (s : StepBreakdown) : pyfloat := pysum (map snd s).

(** The tolerance of the numerical comparisons. *)
Definition tolerance : R := / 1000000000.

(** [abs(x - y) <= tolerance], which no NaN and no infinity satisfies. *)
Definition within_tolerance (x y : pyfloat) : Prop :=
  match x, y with
  | Fin a, Fin b => Rabs (a - b) <= tolerance
  | _, _ => False
  end.

Definition is_finite (x : pyfloat) : Prop :=
  match x with
  | Fin _ => True
  | _ => False
  end.

Definition is_positive (x : pyfloat) : Prop :=
  match x with
  | Fin a => 0 < a
  | _ => False
  end.

(** Every log-probability of the step is finite. *)
Definition finite_scores (s : StepBreakdown) : Prop :=
  Forall (fun pw => is_finite (fst pw)) s.

(** Every weight of the step is a positive finite number. *)
Definition positive_weights (s : StepBreakdown) : Prop :=
  Forall (fun pw => is_positive (snd pw)) s.

(** A well-formed history over [K] predictors: the predictor count is [K] at
    every step, every log-probability is finite and the priors, which are
    the weights of step 0, are positive. *)
Definition well_formed (K : nat) (sb : ScoreHistory) : Prop :=
  Forall (fun s => length s = K) sb /\
  Forall finite_scores sb /\
  positive_weights (hd [] sb).

(** A step of one predictor with a finite log-probability. *)
Definition single_finite (s : StepBreakdown) : Prop :=
  match s with
  | [(Fin _, _)] => True
  | _ => False
  end.

(** All steps have the predictor count of step 0. *)
Definition same_predictor_count (sb : ScoreHistory) : bool :=
  forallb (fun s => Nat.eqb (length s) (length (hd [] sb))) sb.

(** No step has more predictors than [n]. *)
Definition counts_at_most (n : nat) (sb : ScoreHistory) : bool :=
  forallb (fun s => Nat.leb (length s) n) sb.

(** No step has more predictors than the step before it, [n] being the count
    before the first one. *)
Fixpoint counts_non_increasing (n : nat) (sb : ScoreHistory) : bool :=
  match sb with
  | [] => true
  | s :: rest => Nat.leb (length s) n && counts_non_increasing (length s) rest
  end.

(** The last step of the history differs from the last step of [sb'] in its
    weight fields at most, and all earlier steps are the same. *)
Definition only_last_weights_changed (sb sb' : ScoreHistory) : Prop :=
  length sb' = length sb /\
  removelast sb' = removelast sb /\
  map fst (last sb' []) = map fst (last sb []).

(** The caller's contribution for a newly appended step: the sum of the
    static priors times the step's log-probabilities. *)
Definition naive_contribution (priors : list pyfloat) (s : StepBreakdown)
  : pyfloat :=
  pysum (map (fun '(w, pw) => fmul w (fst pw)) (combine priors s)).

(** The incremental run over the prefixes of a history: each step in [todo]
    is appended to the breakdown, the caller adds its naive contribution to
    the working score, and the incremental mode is called on the result,
    whose score and breakdown are carried to the next step. *)
Fixpoint incremental_run (priors : list pyfloat) (todo : ScoreHistory)
  (working_score : pyfloat) (sb : ScoreHistory)
  : outcome pyfloat * ScoreHistory :=
  match todo with
  | [] => (Return working_score, sb)
  | s :: rest =>
      let w := fadd working_score (naive_contribution priors s) in
      match breakdown2score_bayesian w false (sb ++ [s]) with
      | (Return w', sb') => incremental_run priors rest w' sb'
      | (Raise e, sb') => (Raise e, sb')
      end
  end.

(** The run over all the prefixes [H[:1], ..., H[:T]] of [H], from the score
    [0] and the empty breakdown of a new hypothesis. *)
Definition prefix_run (H : ScoreHistory) : outcome pyfloat * ScoreHistory :=
  incremental_run (map snd (hd [] H)) H (Fin 0) [].

(** The outcome is a result exactly when [b] holds, and the exception [e]
    otherwise. *)
Definition returns_iff {A} (b : bool) (e : exn) (o : outcome A) : Prop :=
  match o with
  | Return _ => b = true
  | Raise e' => b = false /\ e' = e
  end.

(** ** Histories used as examples *)

(** One step, two predictors of prior [0.5] each, log-probabilities [0] and
    [-1]. *)
Definition history_one_step : ScoreHistory :=
  [[(Fin 0, Fin (1 / 2)); (Fin (-1), Fin (1 / 2))]].

(** One step, two predictors of weight [1.0] each. *)
Definition history_unit_weights : ScoreHistory :=
  [[(Fin (-1), Fin 1); (Fin (-2), Fin 1)]].

(** Two predictors at step 0, one at step 1. *)
Definition history_mismatched : ScoreHistory :=
  [[(Fin (-1), Fin (7 / 10)); (Fin (-2), Fin (3 / 10))];
   [(Fin (-1 / 2), Fin (7 / 10))]].

(** One predictor whose only log-probability is [utils.NEG_INF]. *)
Definition history_impossible : ScoreHistory :=
  [[(NEG_INF, Fin 1)]].

(** Two predictors with priors [0.7] and [0.3], three steps with the
    log-probabilities [[-1.0, -2.0], [-0.5, -0.5], [-1.5, -1.0]]. *)
Definition history_three_steps : ScoreHistory :=
  [[(Fin (-1), Fin (7 / 10)); (Fin (-2), Fin (3 / 10))];
   [(Fin (-1 / 2), Fin (7 / 10)); (Fin (-1 / 2), Fin (3 / 10))];
   [(Fin (-3 / 2), Fin (7 / 10)); (Fin (-1), Fin (3 / 10))]].

(** One predictor of prior [1.0], three steps. *)
Definition history_single_predictor : ScoreHistory :=
  [[(Fin (-1), Fin 1)]; [(Fin (-1 / 2), Fin 1)]; [(Fin (-3 / 2), Fin 1)]].

(** ** Notions of the further properties *)

(** The log-probabilities of a history, step by step, without the weights. *)
Definition log_probs (sb : ScoreHistory) : list (list pyfloat) :=
  map (map fst) sb.

(** The priors: the weights of step 0. *)
Definition priors_of (sb : ScoreHistory) : list pyfloat :=
  map snd (hd [] sb).

(** [sum_k weight_k * exp(log_prob_k)]: the probability the mixture of the
    predictors, under the weights of the step, gives to the step. *)
Definition mixture_probability (s : StepBreakdown) : pyfloat :=
  pysum (map (fun '(p, w) => fmul w (np_exp p)) s).

(** The three steps of [history_three_steps] with other weights after
    step 0. *)
Definition history_three_steps_rewritten : ScoreHistory :=
  [[(Fin (-1), Fin (7 / 10)); (Fin (-2), Fin (3 / 10))];
   [(Fin (-1 / 2), Fin (9 / 10)); (Fin (-1 / 2), Fin (1 / 10))];
   [(Fin (-3 / 2), NaN); (Fin (-1), Fin 0)]].

(** * Output handlers ([cam/sgnmt/output.py]) *)

(** ** The names of the predictors *)

(** ["%d" % n] for a count [n]. *)
Definition str_of_count (n : nat) : string :=
  NilEmpty.string_of_uint (Nat.to_uint n).

(** [name in name_count] and [name_count[name]] on the dict [name_count],
    kept as an association list. *)
Fixpoint dict_get (d : list (string * nat)) (k : string) : option nat :=
  match d with
  | [] => None
  | (k', v) :: rest => if String.eqb k' k then Some v else dict_get rest k
  end.

(** [name_count[name] = v] *)
Fixpoint dict_set (d : list (string * nat)) (k : string) (v : nat)
  : list (string * nat) :=
  match d with
  | [] => [(k, v)]
  | (k', v') :: rest =>
      if String.eqb k' k then (k', v) :: rest
      else (k', v') :: dict_set rest k v
  end.

(** [final_name.replace("_", "0")] *)
Fixpoint replace_underscore (s : string) : string :=
  match s with
  | EmptyString => EmptyString
  | String c rest =>
      String (if Ascii.eqb c "_" then "0"%char else c)
        (replace_underscore rest)
  end.

(** The body of the loop over [predictor_names] in the constructors of
    [NBestOutputHandler] and [TimeCSVOutputHandler]; [finish] is what is done
    to [final_name] before it is appended, and the state is
    [(name_count, self.predictor_names)]. *)
Definition name_loop_body (finish : string -> string)
  (st : list (string * nat) * list string) (name : string)
  : list (string * nat) * list string :=
  let '(name_count, predictor_names) := st in
  match dict_get name_count name with
  | None =>
      (dict_set name_count name 1, predictor_names ++ [finish name])
  | Some c =>
      let c' := (c + 1)%nat in
      (dict_set name_count name c',
       predictor_names ++ [finish (name ++ str_of_count c')%string])
  end.

(** [self.predictor_names] of a [NBestOutputHandler]. *)
Definition NBestOutputHandler_predictor_names (predictor_names : list string)
  : list string :=
  snd (fold_left (name_loop_body replace_underscore) predictor_names ([], [])).

(** [self.predictor_names] of a [TimeCSVOutputHandler]. *)
Definition TimeCSVOutputHandler_predictor_names
  (predictor_names : list string) : list string :=
  snd (fold_left (name_loop_body (fun n => n)) predictor_names ([], [])).

(** The name with the number of its occurrence: the name itself for the
    first one ([c = 0] earlier occurrences), the name followed by [c + 1]
    otherwise. *)
Definition numbered (name : string) (c : nat) : string :=
  match c with
  | O => name
  | S _ => (name ++ str_of_count (S c))%string
  end.

(** Every name with the number of its occurrence, [seen] being the names
    before. *)
Fixpoint numbered_names (seen names : list string) : list string :=
  match names with
  | [] => []
  | name :: rest =>
      numbered name (count_occ string_dec seen name)
      :: numbered_names (name :: seen) rest
  end.

Definition is_digit (c : ascii) : bool :=
  (Nat.leb 48 (nat_of_ascii c) && Nat.leb (nat_of_ascii c) 57)%bool.

(** The string consists of decimal digits. *)
Fixpoint all_digits (s : string) : bool :=
  match s with
  | EmptyString => true
  | String c rest => (is_digit c && all_digits rest)%bool
  end.

(** The last character of the string is a decimal digit. *)
Fixpoint ends_with_digit (s : string) : bool :=
  match s with
  | EmptyString => false
  | String c EmptyString => is_digit c
  | String _ rest => ends_with_digit rest
  end.

(** The string contains the character. *)
Fixpoint has_char (c : ascii) (s : string) : bool :=
  match s with
  | EmptyString => false
  | String c' rest => (Ascii.eqb c' c || has_char c rest)%bool
  end.
(** The dict holds, for every name, the number of its occurrences so far. *)
Definition counts_seen (d : list (string * nat)) (seen : list string) : Prop :=
  forall k,
    dict_get d k =
    match count_occ string_dec seen k with
    | O => None
    | S c => Some (S c)
    end.

(** ** Hypotheses and the n-gram posteriors of [NgramOutputHandler] *)

(** What the output handlers read of a hypothesis of the decoder. *)
Record hypothesis : Type := {
  trgt_sentence : list Z;
  total_score : pyfloat;
  score_breakdown : ScoreHistory
}.

(** [str(n)] for an integer [n]. *)
Definition str_of_int (n : Z) : string :=
  NilEmpty.string_of_int (Z.to_int n).

(** [x < y] on floats: false when one of them is NaN. *)
Definition fltb (x y : pyfloat) : bool :=
  match x, y with
  | NaN, _ | _, NaN => false
  | PosInf, _ | _, NegInf => false
  | NegInf, _ | _, PosInf => true
  | Fin a, Fin b => if Rlt_dec a b then true else false
  end.

(** Python's builtin [min(x, y)]: [y] when [y < x], and [x] otherwise. *)
Definition py_min (x y : pyfloat) : pyfloat := if fltb y x then y else x.

(** [xrange(lo, hi)] *)
Definition xrange (lo hi : Z) : list Z :=
  map (fun i => (lo + Z.of_nat i)%Z) (seq 0 (Z.to_nat (hi - lo))).

(** The slice [l[start:]] of a Python list, for any integer [start]. *)
Definition slice_from {A} (l : list A) (start : Z) : list A :=
  let n := Z.of_nat (length l) in
  let first :=
    if (start <? 0)%Z then Z.max (start + n) 0 else Z.min start n in
  skipn (Z.to_nat first) l.

(** [' '.join(map(str, tokens))] *)
Definition ngram_key (tokens : list Z) : string :=
  String.concat " " (map str_of_int tokens).

(** The token windows [hist[-order:]] that the loops over [pos] and [order]
    visit, in their order, for the sentence [sen_eos]. *)
Definition ngram_windows (min_order max_order : Z) (sen_eos : list Z)
  : list (list Z) :=
  flat_map
    (fun pos =>
       let hist := firstn pos sen_eos in
       map (fun order => slice_from hist (- order))
         (xrange min_order (max_order + 1)))
    (seq 1 (length sen_eos)).

(** [ngrams[ngram][hypo_idx] = True] on the [defaultdict(dict)]: a missing
    n-gram gets an empty dict first.  The dict is kept as an association
    list and each inner dict as the list of its keys, in the order of
    insertion. *)
Fixpoint ngrams_add (ngrams : list (string * list nat)) (ngram : string)
  (hypo_idx : nat) : list (string * list nat) :=
  match ngrams with
  | [] => [(ngram, [hypo_idx])]
  | (g, hypo_indices) :: rest =>
      if String.eqb g ngram then
        (g, if existsb (Nat.eqb hypo_idx) hypo_indices then hypo_indices
            else hypo_indices ++ [hypo_idx]) :: rest
      else (g, hypo_indices) :: ngrams_add rest ngram hypo_idx
  end.

(** The n-grams of one hypothesis are added under its index. *)
Definition collect_hypo (GO_ID EOS_ID min_order max_order : Z)
  (ngrams : list (string * list nat)) (hypo_idx : nat) (hypo : hypothesis)
  : list (string * list nat) :=
  let sen_eos := [GO_ID] ++ trgt_sentence hypo ++ [EOS_ID] in
  fold_left (fun ngrams window => ngrams_add ngrams (ngram_key window) hypo_idx)
    (ngram_windows min_order max_order sen_eos) ngrams.

(** The loop [for hypo_idx, hypo in enumerate(hypos)], counting from
    [hypo_idx]. *)
Fixpoint collect_from (GO_ID EOS_ID min_order max_order : Z)
  (hypo_idx : nat) (hypos : list hypothesis)
  (ngrams : list (string * list nat)) : list (string * list nat) :=
  match hypos with
  | [] => ngrams
  | hypo :: rest =>
      collect_from GO_ID EOS_ID min_order max_order (S hypo_idx) rest
        (collect_hypo GO_ID EOS_ID min_order max_order ngrams hypo_idx hypo)
  end.

(** [[hypo.total_score - total for hypo in hypos]] with
    [total = utils.log_sum([hypo.total_score for hypo in hypos])]. *)
Definition normed_scores (hypos : list hypothesis) : list pyfloat :=
  let total := log_sum (map total_score hypos) in
  map (fun hypo => fsub (total_score hypo) total) hypos.

(** [np.exp(utils.log_sum([normed_scores[hypo_idx]
                           for hypo_idx in hypo_indices]))] *)
Definition ngram_score (normed : list pyfloat) (hypo_indices : list nat)
  : outcome pyfloat :=
  obind (comprehension_enumerate (fun _ i => getitem normed i) 0 hypo_indices)
    (fun xs => Return (np_exp (log_sum xs))).

(** The loop that writes the file of one sentence: for every n-gram of the
    dict, the pair of the n-gram and of [min(1.0, ngram_score)], which the
    line ["%s : %f\n"] is printed from. *)
Definition ngram_lines (normed : list pyfloat)
  (ngrams : list (string * list nat)) : outcome (list (string * pyfloat)) :=
  comprehension_enumerate
    (fun _ '(ngram, hypo_indices) =>
       obind (ngram_score normed hypo_indices) (fun score =>
       Return (ngram, py_min (Fin 1) score)))
    0 ngrams.

(** The body of the loop over the sentences in
    [NgramOutputHandler.write_hypos], up to the file it writes to. *)
Definition NgramOutputHandler_sentence (GO_ID EOS_ID min_order max_order : Z)
  (hypos : list hypothesis) : outcome (list (string * pyfloat)) :=
  ngram_lines (normed_scores hypos)
    (collect_from GO_ID EOS_ID min_order max_order 0 hypos []).

(** The float is a probability: a number between zero and one. *)
Definition is_probability (x : pyfloat) : Prop :=
  match x with
  | Fin r => 0 <= r <= 1
  | _ => False
  end.

(** The total scores are finite. *)
Definition finite_totals (hypos : list hypothesis) : Prop :=
  Forall (fun hypo => is_finite (total_score hypo)) hypos.

(** The n-gram keys of a hypothesis. *)
Definition hypo_keys (GO_ID EOS_ID min_order max_order : Z)
  (hypo : hypothesis) : list string :=
  map ngram_key
    (ngram_windows min_order max_order
       ([GO_ID] ++ trgt_sentence hypo ++ [EOS_ID])).

(** The hypothesis has the n-gram. *)
Definition has_key (keys : list string) (ngram : string) : bool :=
  existsb (String.eqb ngram) keys.

(** [exp] of the total score, zero when the score is not a number. *)
Definition likelihood (hypo : hypothesis) : R :=
  match total_score hypo with
  | Fin r => exp r
  | _ => 0
  end.

(** Two hypotheses of the sentences [5 6] and [5 7]. *)
Definition two_hypos : list hypothesis :=
  [ {| trgt_sentence := [5; 6]%Z; total_score := Fin (-1);
       score_breakdown := [] |};
    {| trgt_sentence := [5; 7]%Z; total_score := Fin (-2);
       score_breakdown := [] |} ].
(** [ngrams[ngram].keys()], empty for an n-gram the dict does not have. *)
Fixpoint ngrams_get (ngrams : list (string * list nat)) (ngram : string)
  : list nat :=
  match ngrams with
  | [] => []
  | (g, hypo_indices) :: rest =>
      if String.eqb g ngram then hypo_indices else ngrams_get rest ngram
  end.

(** The indices of the hypotheses that have the n-gram, [keys] being the
    keys of every hypothesis. *)
Definition holders (keys : list (list string)) (ngram : string) : list nat :=
  filter (fun i => has_key (nth i keys []) ngram) (seq 0 (length keys)).

(** The dict after the hypotheses with the given keys: the n-grams are
    pairwise distinct, and each one is held with the indices of the
    hypotheses that have it, of which there is one at least. *)
Definition ngrams_of (keys : list (list string))
  (ngrams : list (string * list nat)) : Prop :=
  NoDup (map fst ngrams) /\
  (forall g, ngrams_get ngrams g = holders keys g) /\
  (forall g, In g (map fst ngrams) -> holders keys g <> []).

(** The share of the n-gram in the probability mass of the hypotheses. *)
Definition ngram_share (GO_ID EOS_ID min_order max_order : Z)
  (hypos : list hypothesis) (ngram : string) : R :=
  rsum (map likelihood
          (filter (fun hypo =>
                     has_key (hypo_keys GO_ID EOS_ID min_order max_order hypo)
                       ngram) hypos))
  / rsum (map likelihood hypos).
(** The total score as a real number, zero when it is not a number. *)
Definition real_score (hypo : hypothesis) : R :=
  match total_score hypo with
  | Fin r => r
  | _ => 0
  end.

(** ** The lattices of [FSTOutputHandler] and [StandardFSTOutputHandler] *)

(** A line written to the FST compiler: an arc
    ["%d\t%d\t%d\t%d\n"], with a weight after a further tab when there is
    one, or the line of a final state.  The weight is kept as the value that
    is formatted. *)
Inductive fst_line (W : Type) : Type :=
| Arc (src dst ilabel olabel : Z) (weight : option W)
| FinalState (state : Z).

Arguments Arc {W} src dst ilabel olabel weight.
Arguments FinalState {W} state.

(** The state of the loops: the lines written so far and [next_free_id]. *)
Definition compiler (W : Type) : Type := (list (fst_line W) * Z)%type.

(** The loop over the symbols in [StandardFSTOutputHandler.write_hypos]. *)
Definition standard_symbol (st : compiler pyfloat) (sym : Z)
  : compiler pyfloat :=
  let '(c, next_free_id) := st in
  (c ++ [Arc (next_free_id - 1) next_free_id sym sym None],
   (next_free_id + 1)%Z).

(** The body of its loop over the hypotheses. *)
Definition standard_hypo (GO_ID EOS_ID : Z) (st : compiler pyfloat)
  (hypo : hypothesis) : compiler pyfloat :=
  let '(c, next_free_id) := st in
  let c :=
    c ++ [Arc 0 next_free_id GO_ID GO_ID (Some (fneg (total_score hypo)))] in
  let next_free_id := (next_free_id + 1)%Z in
  let '(c, next_free_id) :=
    fold_left standard_symbol (trgt_sentence hypo) (c, next_free_id) in
  (c ++ [Arc (next_free_id - 1) 1 EOS_ID EOS_ID None], next_free_id).

(** The lines [StandardFSTOutputHandler.write_hypos] writes to the compiler
    for the hypotheses of one sentence. *)
Definition StandardFSTOutputHandler_sentence (GO_ID EOS_ID : Z)
  (hypos : list hypothesis) : list (fst_line pyfloat) :=
  fst (fold_left (standard_hypo GO_ID EOS_ID) hypos ([], 2%Z))
  ++ [FinalState 1].

(** An element of the list [els] of [write_weight]: a string, or a float
    that [str] is applied to. *)
Inductive weight_el : Type :=
| StrEl (s : string)
| FloatEl (x : pyfloat).

(** [FSTOutputHandler.write_weight], up to the join of [els] with commas. *)
Definition write_weight (score_breakdown : StepBreakdown) : list weight_el :=
  snd (fold_left
         (fun '(idx, els) (score : PredictorScore) =>
            (S idx,
             els ++ [StrEl (str_of_int (Z.of_nat idx + 1));
                     FloatEl (fneg (fst score))]))
         score_breakdown (O, [StrEl "0"])).

(** The body of the loop over [pos] in [FSTOutputHandler.write_hypos]. *)
Definition sparse_position (hypo : hypothesis)
  (st : compiler (list weight_el)) (pos : nat)
  : outcome (compiler (list weight_el)) :=
  let '(c, next_free_id) := st in
  obind (getitem (trgt_sentence hypo) pos) (fun sym =>
  obind (getitem (score_breakdown hypo) pos) (fun step =>
  Return (c ++ [Arc (next_free_id - 1) next_free_id sym sym
                  (Some (write_weight step))],
          (next_free_id + 1)%Z))).

(** [l[-1]] *)
Definition getitem_last {A} (l : list A) : outcome A :=
  match l with
  | [] => Raise IndexError
  | x :: rest => Return (last rest x)
  end.

(** The body of its loop over the hypotheses. *)
Definition sparse_hypo (GO_ID EOS_ID : Z) (st : compiler (list weight_el))
  (hypo : hypothesis) : outcome (compiler (list weight_el)) :=
  let '(c, next_free_id) := st in
  let c := c ++ [Arc 0 next_free_id GO_ID GO_ID None] in
  let next_free_id := (next_free_id + 1)%Z in
  obind (for_each (sparse_position hypo)
           (seq 0 (length (score_breakdown hypo) - 1)) (c, next_free_id))
    (fun '(c, next_free_id) =>
  obind (getitem_last (score_breakdown hypo)) (fun step =>
  Return (c ++ [Arc (next_free_id - 1) 1 EOS_ID EOS_ID
                  (Some (write_weight step))],
          next_free_id))).

(** The lines [FSTOutputHandler.write_hypos] writes to the compiler for the
    hypotheses of one sentence. *)
Definition FSTOutputHandler_sentence (GO_ID EOS_ID : Z)
  (hypos : list hypothesis) : outcome (list (fst_line (list weight_el))) :=
  obind (for_each (sparse_hypo GO_ID EOS_ID) hypos ([], 2%Z))
    (fun '(c, _) => Return (c ++ [FinalState 1])).

(** A path of the lattice from a state to a state, with the label and the
    weight of every arc it takes. *)
Inductive fst_path {W} (lines : list (fst_line W))
  : Z -> list (Z * option W) -> Z -> Prop :=
| fst_path_nil (s : Z) : fst_path lines s [] s
| fst_path_cons (s t u l : Z) (w : option W) (rest : list (Z * option W)) :
    In (Arc s t l l w) lines ->
    fst_path lines t rest u ->
    fst_path lines s ((l, w) :: rest) u.

(** The lattice accepts the path: it leads from the start state 0 to a final
    state. *)
Definition fst_accepts {W} (lines : list (fst_line W))
  (steps : list (Z * option W)) : Prop :=
  exists f, In (FinalState f) lines /\ fst_path lines 0 steps f.

(** The arcs of a path from [src] to the state 1 through the fresh states
    [next], [next + 1], ... *)
Fixpoint chain_from {W} (src next : Z) (steps : list (Z * option W))
  : list (fst_line W) :=
  match steps with
  | [] => []
  | (l, w) :: rest =>
      match rest with
      | [] => [Arc src 1 l l w]
      | _ :: _ => Arc src next l l w :: chain_from next (next + 1) rest
      end
  end.

(** One path from the state 0 for every list of steps. *)
Fixpoint chains {W} (next : Z) (paths : list (list (Z * option W)))
  : list (fst_line W) :=
  match paths with
  | [] => []
  | steps :: rest =>
      chain_from 0 next steps
      ++ chains (next + Z.of_nat (length steps) - 1) rest
  end.

(** The labels and weights along the path of a hypothesis in the lattice
    with standard arcs. *)
Definition standard_steps (GO_ID EOS_ID : Z) (hypo : hypothesis)
  : list (Z * option pyfloat) :=
  (GO_ID, Some (fneg (total_score hypo)))
  :: map (fun sym => (sym, None)) (trgt_sentence hypo)
  ++ [(EOS_ID, None)].

(** The labels and weights along the path of a hypothesis in the lattice
    with sparse tuple arcs: a symbol for every step of the breakdown but the
    last one, which is the step of the end symbol. *)
Definition sparse_steps (GO_ID EOS_ID : Z) (hypo : hypothesis)
  : list (Z * option (list weight_el)) :=
  (GO_ID, None)
  :: map (fun '(sym, step) => (sym, Some (write_weight step)))
       (combine (trgt_sentence hypo) (removelast (score_breakdown hypo)))
  ++ [(EOS_ID, Some (write_weight (last (score_breakdown hypo) [])))].

(** The hypothesis can be written by [FSTOutputHandler]: its breakdown has a
    step and its sentence a symbol for every step but the last. *)
Definition sparse_writable (hypo : hypothesis) : bool :=
  (negb (Nat.eqb (length (score_breakdown hypo)) 0)
   && Nat.leb (length (score_breakdown hypo) - 1)
        (length (trgt_sentence hypo)))%bool.

(** Two hypotheses with their breakdowns: one step per symbol and one for
    the end symbol. *)
Definition two_scored_hypos : list hypothesis :=
  [ {| trgt_sentence := [5; 6]%Z; total_score := Fin (-1);
       score_breakdown :=
         [[(Fin (-1), Fin 1)]; [(Fin (-2), Fin 1)]; [(Fin (-3), Fin 1)]] |};
    {| trgt_sentence := [7]%Z; total_score := Fin (-2);
       score_breakdown := [[(Fin (-1), Fin 1)]; [(Fin (-4), Fin 1)]] |} ].
(** Writing the arcs of the inner steps of a path one after the other: the
    loop over the symbols, for any labels and weights. *)
Definition write_step {W} (st : compiler W) (step : Z * option W)
  : compiler W :=
  let '(c, next_free_id) := st in
  let '(l, w) := step in
  (c ++ [Arc (next_free_id - 1) next_free_id l l w], (next_free_id + 1)%Z).

(** ** The n-best list of [NBestOutputHandler] *)

(** [sum([s[i][0] for s in steps])] *)
Definition column_sum (i : nat) (steps : ScoreHistory) : outcome pyfloat :=
  obind (comprehension_enumerate
           (fun _ (s : StepBreakdown) =>
              obind (getitem s i) (fun score => Return (fst score)))
           0 steps)
    (fun column => Return (pysum column)).

(** An entry of the n-best list: the values the line
    ["%d ||| %s ||| %s ||| %f"] is printed from.  The sentence is the one
    handed to [utils.apply_trg_wmap]; a feature is a predictor name with the
    value printed after it. *)
Record nbest_entry : Type := {
  entry_idx : Z;
  entry_sentence : list Z;
  entry_features : list (string * pyfloat);
  entry_total : pyfloat
}.

(** The generator of the features of a hypothesis, over
    [xrange(n_predictors)]. *)
Definition nbest_features (predictor_names : list string) (hypo : hypothesis)
  : outcome (list (string * pyfloat)) :=
  let n_predictors := length predictor_names in
  comprehension_enumerate
    (fun _ i =>
       obind (getitem predictor_names i) (fun name =>
       obind (column_sum i (score_breakdown hypo)) (fun x =>
       Return (name, x))))
    0 (seq 0 n_predictors).

(** The body of the loop over the hypotheses of a sentence in
    [NBestOutputHandler.write_hypos]; [f] is what has been written. *)
Definition nbest_hypo (predictor_names : list string) (idx : Z)
  (f : list nbest_entry) (hypo : hypothesis) : outcome (list nbest_entry) :=
  obind (nbest_features predictor_names hypo) (fun features =>
  Return (f ++ [{| entry_idx := idx;
                   entry_sentence := trgt_sentence hypo;
                   entry_features := features;
                   entry_total := total_score hypo |}])).

(** The body of its loop over the sentences. *)
Definition nbest_sentence (predictor_names : list string)
  (st : list nbest_entry * Z) (hypos : list hypothesis)
  : outcome (list nbest_entry * Z) :=
  let '(f, idx) := st in
  obind (for_each (nbest_hypo predictor_names idx) hypos f) (fun f =>
  Return (f, (idx + 1)%Z)).

(** [NBestOutputHandler.write_hypos]: the entries written to the file. *)
Definition NBestOutputHandler_write_hypos (predictor_names : list string)
  (start_sen_id : Z) (all_hypos : list (list hypothesis))
  : outcome (list nbest_entry) :=
  obind (for_each (nbest_sentence predictor_names) all_hypos
           ([], start_sen_id))
    (fun '(f, _) => Return f).

(** Every step has a score for each of [n] predictors. *)
Definition wide_enough (n : nat) (steps : ScoreHistory) : bool :=
  forallb (fun s : StepBreakdown => Nat.leb n (length s)) steps.

(** Every hypothesis of every sentence has a score for each of the [n]
    predictors at every step. *)
Definition nbest_writable (n : nat) (all_hypos : list (list hypothesis))
  : bool :=
  forallb (forallb (fun hypo => wide_enough n (score_breakdown hypo)))
    all_hypos.

(** The entry of a hypothesis of the sentence [idx]: for every predictor
    name, the sum of the log-probabilities of that predictor. *)
Definition nbest_entry_of (predictor_names : list string) (idx : Z)
  (hypo : hypothesis) : nbest_entry :=
  {| entry_idx := idx;
     entry_sentence := trgt_sentence hypo;
     entry_features :=
       map (fun '(i, name) => (name, predictor_sum i (score_breakdown hypo)))
         (combine (seq 0 (length predictor_names)) predictor_names);
     entry_total := total_score hypo |}.

(** The entries of the sentences, numbered from [idx]. *)
Fixpoint nbest_entries (predictor_names : list string) (idx : Z)
  (all_hypos : list (list hypothesis)) : list nbest_entry :=
  match all_hypos with
  | [] => []
  | hypos :: rest =>
      map (nbest_entry_of predictor_names idx) hypos
      ++ nbest_entries predictor_names (idx + 1) rest
  end.

(** ** The tables of [TimeCSVOutputHandler] *)

(** A cell of the table: a text, or a float printed with ["%f"].  All cells
    of a row but the first are written after a tab. *)
Inductive csv_cell : Type :=
| TextCell (s : string)
| FloatCell (x : pyfloat).

(** The header: ["Time"], then for every hypothesis the names of the
    accumulated scores and those of the weights. *)
Definition csv_header (predictor_names : list string) (hypo_count : nat)
  : list csv_cell :=
  fold_left
    (fun row i =>
       (row
        ++ map (fun n => TextCell (n ++ "-" ++ str_of_count (i + 1))%string)
             predictor_names)
       ++ map (fun n =>
                 TextCell (n ++ "-" ++ str_of_count (i + 1) ++ "_weight")%string)
            predictor_names)
    (seq 0 hypo_count) [TextCell "Time"].

(** The body of the first loop over [pred_idx]: the accumulated score. *)
Definition csv_acc_cell (score_breakdown : ScoreHistory) (pos : nat)
  (row : list csv_cell) (pred_idx : nat) : outcome (list csv_cell) :=
  obind (column_sum pred_idx (firstn (pos + 1) score_breakdown))
    (fun acc_pred_score => Return (row ++ [FloatCell acc_pred_score])).

(** The body of the second loop over [pred_idx]: the weight. *)
Definition csv_weight_cell (score_breakdown : ScoreHistory) (pos : nat)
  (row : list csv_cell) (pred_idx : nat) : outcome (list csv_cell) :=
  obind (getitem score_breakdown pos) (fun s =>
  obind (getitem s pred_idx) (fun score =>
  Return (row ++ [FloatCell (snd score)]))).

(** The body of the loop over the hypotheses in a row. *)
Definition csv_hypo (n_predictors pos : nat) (row : list csv_cell)
  (hypo : hypothesis) : outcome (list csv_cell) :=
  if Nat.leb (length (score_breakdown hypo)) pos
  then Return (row ++ repeat (TextCell "-") (n_predictors * 2))
  else
    obind (for_each (csv_acc_cell (score_breakdown hypo) pos)
             (seq 0 n_predictors) row)
      (for_each (csv_weight_cell (score_breakdown hypo) pos)
         (seq 0 n_predictors)).

(** The body of the loop over [pos]: one row of the table. *)
Definition csv_row (n_predictors : nat) (hypos : list hypothesis)
  (f : list (list csv_cell)) (pos : nat) : outcome (list (list csv_cell)) :=
  obind (for_each (csv_hypo n_predictors pos) hypos
           [TextCell (str_of_count pos)])
    (fun row => Return (f ++ [row])).

(** [max(xs)], which raises a [ValueError] on an empty list. *)
Definition py_max (xs : list nat) : option nat :=
  match xs with
  | [] => None
  | x :: rest => Some (fold_left Nat.max rest x)
  end.

(** The exceptions of the loop over the sentences: the [ValueError] of
    [max], or one of the exceptions of indexing. *)
Inductive csv_exn : Type :=
| ValueError
| Indexing (e : exn).

(** The body of the loop over the sentences in
    [TimeCSVOutputHandler.write_hypos]: the rows written to the file of the
    sentence. *)
Definition TimeCSVOutputHandler_sentence (predictor_names : list string)
  (hypos : list hypothesis) : csv_exn + list (list csv_cell) :=
  let n_predictors := length predictor_names in
  let hypo_count := length hypos in
  let f := [csv_header predictor_names hypo_count] in
  match py_max (map (fun hypo => length (trgt_sentence hypo)) hypos) with
  | None => inl ValueError
  | Some max_len =>
      match for_each (csv_row n_predictors hypos) (seq 0 (max_len + 1)) f with
      | Return f => inr f
      | Raise e => inl (Indexing e)
      end
  end.

(** The length of the longest target sentence. *)
Definition max_len_of (hypos : list hypothesis) : nat :=
  fold_right Nat.max 0%nat (map (fun hypo => length (trgt_sentence hypo)) hypos).

(** The sentence has a hypothesis, and each of them a score for each of the
    [n] predictors at every step among the first [max_len + 1]. *)
Definition csv_writable (n : nat) (hypos : list hypothesis) : bool :=
  (negb (Nat.eqb (length hypos) 0)
   && forallb
        (fun hypo =>
           wide_enough n
             (firstn (max_len_of hypos + 1) (score_breakdown hypo)))
        hypos)%bool.

(** The cells of a hypothesis in the row of [pos]. *)
Definition csv_cells_of (n pos : nat) (hypo : hypothesis) : list csv_cell :=
  if Nat.leb (length (score_breakdown hypo)) pos
  then repeat (TextCell "-") (n * 2)
  else
    map (fun i =>
           FloatCell (predictor_sum i (firstn (pos + 1) (score_breakdown hypo))))
      (seq 0 n)
    ++ map (fun i =>
              FloatCell (snd (nth i (nth pos (score_breakdown hypo) [])
                                (NaN, NaN))))
         (seq 0 n).

(** The row of [pos]. *)
Definition csv_row_of (n : nat) (hypos : list hypothesis) (pos : nat)
  : list csv_cell :=
  TextCell (str_of_count pos) :: flat_map (csv_cells_of n pos) hypos.

(** The cells of the hypothesis in the row of [pos] can be written. *)
Definition csv_hypo_ok (n pos : nat) (hypo : hypothesis) : bool :=
  (Nat.leb (length (score_breakdown hypo)) pos
   || wide_enough n (firstn (pos + 1) (score_breakdown hypo)))%bool.

(** A hypothesis of three steps of two predictors, with the weights 0.7
    and 0.3. *)
Definition two_predictor_hypo : hypothesis :=
  {| trgt_sentence := [5; 6]%Z; total_score := Fin (-6);
     score_breakdown := history_three_steps |}.

(** The real number of a finite float. *)
Definition real_of (x : pyfloat) : R :=
  match x with
  | Fin r => r
  | _ => 0
  end.

(** * Proofs *)

(** Entering [breakdown2score_bayesian]: the list is read and examined. *)
Ltac enter_bayesian :=
  unfold breakdown2score_bayesian, bind, get_breakdown.

(** Inverting a [Forall] over a non-empty list into head and tail. *)
Ltac split_forall H Hhead Htail :=
  inversion H as [|? ? Hhead Htail]; subst.

(** ** Float arithmetic *)

Lemma fadd_comm (x y : pyfloat) : fadd x y = fadd y x.
Proof.
  destruct x, y; simpl; try reflexivity.
  f_equal; apply Rplus_comm.
Qed.

Lemma fadd_assoc (x y z : pyfloat) : fadd x (fadd y z) = fadd (fadd x y) z.
Proof.
  destruct x, y, z; simpl; try reflexivity.
  f_equal; symmetry; apply Rplus_assoc.
Qed.

Lemma fadd_0_l (x : pyfloat) : fadd (Fin 0) x = x.
Proof.
  destruct x; simpl; try reflexivity.
  f_equal; apply Rplus_0_l.
Qed.

Lemma fadd_0_r (x : pyfloat) : fadd x (Fin 0) = x.
Proof. rewrite fadd_comm; apply fadd_0_l. Qed.

Lemma fold_left_fadd (xs : list pyfloat) (a : pyfloat) :
  fold_left fadd xs a = fadd a (fsum xs).
Proof.
  revert a; induction xs as [|x xs IH]; intros a; simpl.
  - symmetry; apply fadd_0_r.
  - rewrite IH; symmetry; apply fadd_assoc.
Qed.

(** Python's left-to-right [sum] is the mathematical sum. *)
Lemma pysum_fsum (xs : list pyfloat) : pysum xs = fsum xs.
Proof. unfold pysum; rewrite fold_left_fadd; apply fadd_0_l. Qed.

Lemma fsum_Fin (rs : list R) : fsum (map Fin rs) = Fin (rsum rs).
Proof.
  induction rs as [|r rs IH]; simpl; [reflexivity|].
  rewrite IH; reflexivity.
Qed.

Lemma pysum_Fin (rs : list R) : pysum (map Fin rs) = Fin (rsum rs).
Proof. rewrite pysum_fsum; apply fsum_Fin. Qed.

Lemma np_log_pos (a : R) : 0 < a -> np_log (Fin a) = Fin (ln a).
Proof.
  intros Ha; simpl.
  destruct (Rlt_dec 0 a) as [_|n]; [reflexivity | contradiction].
Qed.

Lemma feqb_NEG_INF (x : pyfloat) : feqb x NEG_INF = true <-> x = NEG_INF.
Proof.
  destruct x; simpl; split; intros H;
    reflexivity || discriminate.
Qed.

Lemma fold_fmax_Fin (rs : list R) (r : R) :
  exists m, fold_left fmax (map Fin rs) (Fin r) = Fin m.
Proof.
  revert r; induction rs as [|x rs IH]; intros r; simpl.
  - exists r; reflexivity.
  - destruct (Rle_dec r x); apply IH.
Qed.

(** ** Sums of exponentials *)

Lemma rsum_exp_pos (r : R) (rs : list R) : 0 < rsum (map exp (r :: rs)).
Proof.
  revert r; induction rs as [|x rs IH]; intros r; simpl.
  - pose proof (exp_pos r); lra.
  - pose proof (exp_pos r); specialize (IH x); simpl in IH; lra.
Qed.

Lemma rsum_exp_shift (m : R) (rs : list R) :
  rsum (map (fun x => exp (x - m)) rs) = exp (- m) * rsum (map exp rs).
Proof.
  induction rs as [|x rs IH]; simpl; [ring|].
  rewrite IH.
  replace (x - m) with (- m + x) by ring.
  rewrite exp_plus; ring.
Qed.

(** On finite entries the stable log-sum-exp is the logarithm of the sum of
    the exponentials. *)
Lemma log_sum_Fin (r : R) (rs : list R) :
  log_sum (map Fin (r :: rs)) = Fin (ln (rsum (map exp (r :: rs)))).
Proof.
  unfold log_sum.
  change (map Fin (r :: rs)) with (Fin r :: map Fin rs).
  destruct (fold_fmax_Fin rs r) as [m ->].
  change (Fin r :: map Fin rs) with (map Fin (r :: rs)).
  rewrite map_map.
  rewrite (map_ext _ (fun x => Fin (exp (x - m)))) by reflexivity.
  rewrite <- (map_map (fun x => exp (x - m)) Fin).
  rewrite pysum_Fin, rsum_exp_shift.
  pose proof (rsum_exp_pos r rs) as Hpos.
  pose proof (exp_pos (- m)) as Hm.
  rewrite np_log_pos by (apply Rmult_lt_0_compat; assumption).
  unfold fadd; f_equal.
  rewrite ln_mult by assumption.
  rewrite ln_exp; ring.
Qed.

Lemma log_sum_single (a : R) : log_sum [Fin a] = Fin a.
Proof.
  change [Fin a] with (map Fin [a]).
  rewrite log_sum_Fin; simpl.
  rewrite Rplus_0_r, ln_exp; reflexivity.
Qed.

Lemma log_sum_pair (a b : R) :
  log_sum [Fin a; Fin b] = Fin (ln (exp a + exp b)).
Proof.
  change [Fin a; Fin b] with (map Fin [a; b]).
  rewrite log_sum_Fin; simpl.
  rewrite Rplus_0_r; reflexivity.
Qed.

(** The modelled log-sum-exp meets the properties the specification lists
    for it: the empty input, an impossible entry, two halves. *)
Example log_sum_empty : log_sum [] = NEG_INF.
Proof. reflexivity. Qed.

Example log_sum_impossible : log_sum [NEG_INF; NEG_INF] = NEG_INF.
Proof. reflexivity. Qed.

Lemma log_sum_with_impossible (x : R) : log_sum [Fin x; NEG_INF] = Fin x.
Proof.
  unfold log_sum, NEG_INF; cbn [fold_left fmax map fsub fneg fadd np_exp].
  unfold pysum; cbn [fold_left fadd].
  replace (0 + exp (x + - x) + 0) with 1
    by (rewrite Rplus_opp_r, exp_0; ring).
  rewrite np_log_pos, ln_1 by lra.
  cbn [fadd]; f_equal; ring.
Qed.

Example log_sum_halves :
  log_sum [np_log (Fin (1 / 2)); np_log (Fin (1 / 2))] = Fin 0.
Proof.
  rewrite np_log_pos, log_sum_pair by lra.
  rewrite exp_ln by lra.
  replace (1 / 2 + 1 / 2) with 1 by lra.
  rewrite ln_1; reflexivity.
Qed.

(** ** The loops over the predictors, by structure

    The loops index [alphas] by position; the equations below describe them
    by recursion on the two lists side by side. *)

Lemma add_scores_shift (a : pyfloat) (pos : StepBreakdown) :
  forall (k : nat) (alphas : list pyfloat),
    for_enumerate add_scores_body (S k) pos (a :: alphas) =
    obind (for_enumerate add_scores_body k pos alphas)
      (fun r => Return (a :: r)).
Proof.
  induction pos as [|[p w] pos IH]; intros k alphas; simpl; [reflexivity|].
  unfold getitem; simpl.
  destruct (nth_error alphas k) as [v|]; simpl; [|reflexivity].
  apply IH.
Qed.

Lemma add_scores_nil (alphas : list pyfloat) :
  add_scores alphas [] = Return alphas.
Proof. reflexivity. Qed.

Lemma add_scores_cons (a p w : pyfloat) (alphas : list pyfloat)
  (pos : StepBreakdown) :
  add_scores (a :: alphas) ((p, w) :: pos) =
  obind (add_scores alphas pos) (fun r => Return (fadd a p :: r)).
Proof.
  unfold add_scores; simpl.
  apply (add_scores_shift (fadd a p) pos 0 alphas).
Qed.

Lemma add_scores_empty (x : PredictorScore) (pos : StepBreakdown) :
  add_scores [] (x :: pos) = Raise IndexError.
Proof. destruct x; reflexivity. Qed.

Example add_scores_in_place :
  add_scores [Fin 1; Fin 2] [(Fin 3, Fin 0)] = Return [Fin (1 + 3); Fin 2].
Proof. reflexivity. Qed.

Example add_scores_too_many :
  add_scores [Fin 1] [(Fin 3, Fin 0); (Fin 4, Fin 0)] = Raise IndexError.
Proof. reflexivity. Qed.

Example set_last_replaces :
  set_last [(Fin 1, Fin 2)] [[]; [(Fin 1, Fin 0)]] =
  (Return tt, [[]; [(Fin 1, Fin 2)]]).
Proof. reflexivity. Qed.

Lemma comprehension_shift {B}
  (f : outcome pyfloat -> PredictorScore -> outcome B) (a : pyfloat) (alphas : list pyfloat) (pos : StepBreakdown) :
  forall k : nat,
    comprehension_enumerate (fun k x => f (getitem (a :: alphas) k) x)
      (S k) pos =
    comprehension_enumerate (fun k x => f (getitem alphas k) x) k pos.
Proof.
  induction pos as [|x pos IH]; intros k; simpl; [reflexivity|].
  rewrite IH; reflexivity.
Qed.

Lemma normalized_scores_cons (a ap p w : pyfloat) (alphas : list pyfloat)
  (pos : StepBreakdown) :
  normalized_scores (a :: alphas) ap ((p, w) :: pos) =
  obind (normalized_scores alphas ap pos)
    (fun r => Return (fadd (fsub a ap) p :: r)).
Proof.
  unfold normalized_scores; simpl.
  pose proof (comprehension_shift
                (fun o '(p, _) =>
                   obind o (fun v => Return (fadd (fsub v ap) p)))
                a alphas pos 0) as E.
  exact (f_equal
           (fun o => obind o (fun r => Return (fadd (fsub a ap) p :: r))) E).
Qed.

Lemma normalized_scores_empty (ap : pyfloat) (x : PredictorScore)
  (pos : StepBreakdown) :
  normalized_scores [] ap (x :: pos) = Raise IndexError.
Proof. destruct x; reflexivity. Qed.

Lemma posterior_breakdown_cons (a ap p w : pyfloat) (alphas : list pyfloat)
  (pos : StepBreakdown) :
  posterior_breakdown (a :: alphas) ap ((p, w) :: pos) =
  obind (posterior_breakdown alphas ap pos)
    (fun r => Return ((p, np_exp (fsub a ap)) :: r)).
Proof.
  unfold posterior_breakdown; simpl.
  pose proof (comprehension_shift
                (fun o '(p, _) =>
                   obind o (fun v => Return (p, np_exp (fsub v ap))))
                a alphas pos 0) as E.
  exact (f_equal
           (fun o => obind o (fun r => Return ((p, np_exp (fsub a ap)) :: r)))
           E).
Qed.

Lemma loglin_loop_shift (a : pyfloat) (prev : list pyfloat)
  (pos : StepBreakdown) :
  forall (k : nat) (st : list pyfloat * list pyfloat),
    for_enumerate (loglin_inner_body (a :: prev)) (S k) pos st =
    for_enumerate (loglin_inner_body prev) k pos st.
Proof.
  induction pos as [|[p w] pos IH]; intros k [xs ys]; simpl; [reflexivity|].
  unfold getitem; simpl.
  destruct (nth_error prev k) as [v|]; simpl; [|reflexivity].
  apply IH.
Qed.

Lemma loglin_loop_app (prev : list pyfloat) (pos : StepBreakdown) :
  forall (k : nat) (xs ys xs' ys' : list pyfloat),
    for_enumerate (loglin_inner_body prev) k pos (xs ++ xs', ys ++ ys') =
    obind (for_enumerate (loglin_inner_body prev) k pos (xs', ys'))
      (fun '(u, v) => Return (xs ++ u, ys ++ v)).
Proof.
  induction pos as [|[p w] pos IH]; intros k xs ys xs' ys'; simpl;
    [reflexivity|].
  destruct (getitem prev k) as [v|e]; simpl; [|reflexivity].
  rewrite <- !app_assoc.
  apply IH.
Qed.

Lemma loglin_inner_nil (prev : list pyfloat) :
  loglin_inner prev [] = Return ([], []).
Proof. reflexivity. Qed.

Lemma loglin_inner_empty (x : PredictorScore) (pos : StepBreakdown) :
  loglin_inner [] (x :: pos) = Raise IndexError.
Proof. destruct x; reflexivity. Qed.

Lemma loglin_inner_cons (a p w : pyfloat) (prev : list pyfloat)
  (pos : StepBreakdown) :
  loglin_inner (a :: prev) ((p, w) :: pos) =
  obind (loglin_inner prev pos)
    (fun '(u, v) => Return (fadd a p :: u, fadd p (fadd a p) :: v)).
Proof.
  unfold loglin_inner; simpl.
  pose proof (loglin_loop_shift a prev pos 0
                ([fadd a p], [fadd p (fadd a p)])) as E1.
  pose proof (loglin_loop_app prev pos 0
                [fadd a p] [fadd p (fadd a p)] [] []) as E2.
  exact (eq_trans E1 E2).
Qed.

(** ** When the loops over the predictors raise *)

Lemma add_scores_in_range (pos : StepBreakdown) :
  forall alphas : list pyfloat,
    (length pos <= length alphas)%nat ->
    exists r, add_scores alphas pos = Return r /\ length r = length alphas.
Proof.
  induction pos as [|[p w] pos IH]; intros alphas Hlen.
  - exists alphas; split; reflexivity.
  - destruct alphas as [|a alphas]; simpl in Hlen; [lia|].
    destruct (IH alphas) as (r & Hr & Hl); [lia|].
    exists (fadd a p :: r).
    rewrite add_scores_cons, Hr; simpl; auto.
Qed.

Lemma add_scores_out_of_range (pos : StepBreakdown) :
  forall alphas : list pyfloat,
    (length alphas < length pos)%nat ->
    add_scores alphas pos = Raise IndexError.
Proof.
  induction pos as [|[p w] pos IH]; intros alphas Hlen; simpl in Hlen; [lia|].
  destruct alphas as [|a alphas]; [reflexivity|].
  rewrite add_scores_cons, IH; [reflexivity | simpl in Hlen; lia].
Qed.

Lemma add_scores_length (pos : StepBreakdown) (alphas r : list pyfloat) :
  add_scores alphas pos = Return r -> length r = length alphas.
Proof.
  intros H.
  destruct (le_lt_dec (length pos) (length alphas)) as [Hle|Hlt].
  - destruct (add_scores_in_range pos alphas Hle) as (r' & Hr & Hl).
    congruence.
  - rewrite add_scores_out_of_range in H by assumption; discriminate.
Qed.

Lemma normalized_scores_in_range (ap : pyfloat) (pos : StepBreakdown) :
  forall alphas : list pyfloat,
    (length pos <= length alphas)%nat ->
    exists r, normalized_scores alphas ap pos = Return r.
Proof.
  induction pos as [|[p w] pos IH]; intros alphas Hlen.
  - exists []; reflexivity.
  - destruct alphas as [|a alphas]; simpl in Hlen; [lia|].
    destruct (IH alphas) as (r & Hr); [lia|].
    exists (fadd (fsub a ap) p :: r).
    rewrite normalized_scores_cons, Hr; reflexivity.
Qed.

Lemma normalized_scores_out_of_range (ap : pyfloat) (pos : StepBreakdown) :
  forall alphas : list pyfloat,
    (length alphas < length pos)%nat ->
    normalized_scores alphas ap pos = Raise IndexError.
Proof.
  induction pos as [|[p w] pos IH]; intros alphas Hlen; simpl in Hlen; [lia|].
  destruct alphas as [|a alphas]; [reflexivity|].
  rewrite normalized_scores_cons, IH; [reflexivity | simpl in Hlen; lia].
Qed.

Lemma posterior_breakdown_in_range (ap : pyfloat) (pos : StepBreakdown) :
  forall alphas : list pyfloat,
    (length pos <= length alphas)%nat ->
    exists r, posterior_breakdown alphas ap pos = Return r.
Proof.
  induction pos as [|[p w] pos IH]; intros alphas Hlen.
  - exists []; reflexivity.
  - destruct alphas as [|a alphas]; simpl in Hlen; [lia|].
    destruct (IH alphas) as (r & Hr); [lia|].
    exists ((p, np_exp (fsub a ap)) :: r).
    rewrite posterior_breakdown_cons, Hr; reflexivity.
Qed.

(** The rewritten step keeps the log-probabilities of the step it replaces. *)
Lemma posterior_breakdown_log_probs (ap : pyfloat) (pos : StepBreakdown) :
  forall (alphas : list pyfloat) (r : StepBreakdown),
    posterior_breakdown alphas ap pos = Return r ->
    map fst r = map fst pos.
Proof.
  induction pos as [|[p w] pos IH]; intros alphas r H.
  - injection H as <-; reflexivity.
  - destruct alphas as [|a alphas]; [discriminate|].
    rewrite posterior_breakdown_cons in H.
    destruct (posterior_breakdown alphas ap pos) as [r'|e] eqn:E;
      [|discriminate].
    injection H as <-; simpl.
    f_equal; apply (IH alphas); assumption.
Qed.

Lemma loglin_inner_in_range (pos : StepBreakdown) :
  forall prev : list pyfloat,
    (length pos <= length prev)%nat ->
    exists u v, loglin_inner prev pos = Return (u, v) /\
                length u = length pos.
Proof.
  induction pos as [|[p w] pos IH]; intros prev Hlen.
  - exists [], []; split; reflexivity.
  - destruct prev as [|a prev]; simpl in Hlen; [lia|].
    destruct (IH prev) as (u & v & Hr & Hl); [lia|].
    exists (fadd a p :: u), (fadd p (fadd a p) :: v).
    rewrite loglin_inner_cons, Hr; simpl; auto.
Qed.

Lemma loglin_inner_out_of_range (pos : StepBreakdown) :
  forall prev : list pyfloat,
    (length prev < length pos)%nat ->
    loglin_inner prev pos = Raise IndexError.
Proof.
  induction pos as [|[p w] pos IH]; intros prev Hlen; simpl in Hlen; [lia|].
  destruct prev as [|a prev]; [reflexivity|].
  rewrite loglin_inner_cons, IH; [reflexivity | simpl in Hlen; lia].
Qed.

(** ** When the loops over the positions raise *)

Lemma add_loop_returns (sb : ScoreHistory) :
  forall alphas : list pyfloat,
    match for_each add_scores sb alphas with
    | Return r =>
        length r = length alphas /\ counts_at_most (length alphas) sb = true
    | Raise e =>
        e = IndexError /\ counts_at_most (length alphas) sb = false
    end.
Proof.
  induction sb as [|s sb IH]; intros alphas; simpl; [auto|].
  destruct (Nat.leb (length s) (length alphas)) eqn:Hs.
  - apply Nat.leb_le in Hs.
    destruct (add_scores_in_range s alphas Hs) as (r & -> & Hl); simpl.
    specialize (IH r); rewrite Hl in IH; exact IH.
  - apply Nat.leb_gt in Hs.
    rewrite add_scores_out_of_range by assumption; simpl; auto.
Qed.

Lemma full_loop_returns (sb : ScoreHistory) :
  forall alphas acc : list pyfloat,
    returns_iff (counts_at_most (length alphas) sb) IndexError
      (for_each bayesian_full_body sb (alphas, acc)).
Proof.
  induction sb as [|s sb IH]; intros alphas acc; simpl; [reflexivity|].
  destruct (Nat.leb (length s) (length alphas)) eqn:Hs.
  - apply Nat.leb_le in Hs.
    destruct (add_scores_in_range s alphas Hs) as (r & -> & Hl); simpl.
    destruct (normalized_scores_in_range (log_sum r) s r) as (sc & ->);
      [lia|]; simpl.
    specialize (IH r (acc ++ [log_sum sc])); rewrite Hl in IH; exact IH.
  - apply Nat.leb_gt in Hs.
    rewrite add_scores_out_of_range by assumption; simpl; auto.
Qed.

Lemma loglin_loop_returns (sb : ScoreHistory) :
  forall prev acc : list pyfloat,
    returns_iff (counts_non_increasing (length prev) sb) IndexError
      (for_each loglin_body sb (prev, acc)).
Proof.
  induction sb as [|s sb IH]; intros prev acc; simpl; [reflexivity|].
  destruct (Nat.leb (length s) (length prev)) eqn:Hs.
  - apply Nat.leb_le in Hs.
    destruct (loglin_inner_in_range s prev Hs) as (u & v & -> & Hl); simpl.
    specialize (IH u (acc ++ [fsub (log_sum v) (log_sum u)])).
    rewrite Hl in IH; exact IH.
  - apply Nat.leb_gt in Hs.
    rewrite loglin_inner_out_of_range by assumption; simpl; auto.
Qed.

Lemma counts_at_most_split (n : nat) (s : StepBreakdown) (sb : ScoreHistory) :
  counts_at_most n (s :: sb) =
  counts_at_most n (removelast (s :: sb)) &&
  Nat.leb (length (last (s :: sb) [])) n.
Proof.
  rewrite (app_removelast_last [] (l := s :: sb)) at 1 by discriminate.
  unfold counts_at_most; rewrite forallb_app; simpl.
  rewrite andb_true_r; reflexivity.
Qed.

(** ** The outcome of each strategy *)

Lemma length_norm_returns (w : pyfloat) (full : bool) (sb : ScoreHistory) :
  returns_iff (negb (Nat.eqb (length sb) 0)) ZeroDivisionError
    (fst (breakdown2score_length_norm w full sb)).
Proof. destruct sb; simpl; auto. Qed.

Lemma bayesian_full_returns (s : StepBreakdown) (sb : ScoreHistory) :
  returns_iff (counts_at_most (length s) (s :: sb)) IndexError
    (bayesian_full (s :: sb)).
Proof.
  unfold bayesian_full.
  pose proof (full_loop_returns (s :: sb)
                (map (fun '(_, w) => np_log w) s) []) as H.
  rewrite length_map in H.
  change (hd [] (s :: sb)) with s.
  destruct (for_each bayesian_full_body (s :: sb) _) as [[al acc]|e];
    exact H.
Qed.

(** What the incremental mode does on a history of two steps or more: it
    either raises and leaves the list alone, or replaces the last step. *)
Lemma bayesian_incremental_long (w : pyfloat) (s s' : StepBreakdown)
  (sb : ScoreHistory) :
  let sb0 := s :: s' :: sb in
  let K := length s in
  match bayesian_incremental w sb0 sb0 with
  | (Return _, sb') =>
      counts_at_most K sb0 = true /\
      exists alphas updated,
        for_each add_scores (removelast sb0) (map np_log (map snd s)) =
          Return alphas /\
        length alphas = K /\
        posterior_breakdown alphas (log_sum alphas) (last sb0 []) =
          Return updated /\
        sb' = removelast sb0 ++ [updated]
  | (Raise e, sb') =>
      counts_at_most K sb0 = false /\ e = IndexError /\ sb' = sb0
  end.
Proof.
  intros sb0 K; subst sb0 K.
  unfold bayesian_incremental.
  change (Nat.eqb (length (s :: s' :: sb)) 1) with false; cbv iota.
  change (hd [] (s :: s' :: sb)) with s.
  rewrite counts_at_most_split.
  set (earlier := removelast (s :: s' :: sb)).
  pose proof (add_loop_returns earlier (map np_log (map snd s))) as Hloop.
  assert (HK : length (map np_log (map snd s)) = length s)
    by (rewrite !length_map; reflexivity).
  rewrite HK in Hloop.
  unfold bind at 1, lift at 1.
  destruct (for_each add_scores earlier _) as [alphas|e].
  2:{ destruct Hloop as [-> ->]; auto. }
  destruct Hloop as [Hlen ->]; rewrite andb_true_l.
  unfold bind at 1, lift at 1.
  destruct (Nat.leb (length (last (s :: s' :: sb) [])) (length s)) eqn:Hlast.
  - apply Nat.leb_le in Hlast; rewrite <- Hlen in Hlast.
    destruct (normalized_scores_in_range (log_sum alphas) _ _ Hlast)
      as (sc & ->).
    unfold bind at 1, lift at 1.
    destruct (posterior_breakdown_in_range (log_sum alphas) _ _ Hlast)
      as (upd & Hupd).
    rewrite Hupd.
    unfold bind, set_last, ret.
    split; [reflexivity|].
    exists alphas, upd; auto.
  - apply Nat.leb_gt in Hlast; rewrite <- Hlen in Hlast.
    rewrite normalized_scores_out_of_range by assumption; auto.
Qed.

Lemma bayesian_returns (w : pyfloat) (full : bool) (sb : ScoreHistory) :
  returns_iff
    (match sb with
     | [] => true
     | s :: _ => feqb w NEG_INF || counts_at_most (length s) sb
     end)
    IndexError
    (fst (breakdown2score_bayesian w full sb)).
Proof.
  destruct sb as [|s sb]; [reflexivity|].
  enter_bayesian.
  destruct (feqb w NEG_INF); [reflexivity|].
  rewrite orb_false_l.
  destruct full.
  - apply bayesian_full_returns.
  - destruct sb as [|s' sb].
    + simpl; rewrite Nat.leb_refl; reflexivity.
    + pose proof (bayesian_incremental_long w s s' sb) as H; cbv zeta in H.
      destruct (bayesian_incremental w (s :: s' :: sb) (s :: s' :: sb))
        as [[v|e] sb'].
      * destruct H as [H _]; exact H.
      * destruct H as (H & -> & _); split; [exact H | reflexivity].
Qed.

Lemma bayesian_loglin_returns (w : pyfloat) (full : bool) (sb : ScoreHistory) :
  returns_iff (counts_non_increasing (length (hd [] sb)) sb) IndexError
    (fst (breakdown2score_bayesian_loglin w full sb)).
Proof.
  destruct sb as [|s sb]; [reflexivity|].
  unfold breakdown2score_bayesian_loglin, bind, get_breakdown, lift.
  change (hd [] (s :: sb)) with s.
  pose proof (loglin_loop_returns (s :: sb)
                (map (fun '(_, w) => np_log w) s) []) as H.
  rewrite length_map in H.
  unfold fst.
  destruct (for_each loglin_body (s :: sb) _) as [[al acc]|e]; exact H.
Qed.

(** An exception of the Bayesian strategy leaves the list as it was. *)
Lemma bayesian_raise_frame (w : pyfloat) (full : bool) (sb : ScoreHistory) :
  match breakdown2score_bayesian w full sb with
  | (Raise _, sb') => sb' = sb
  | (Return _, _) => True
  end.
Proof.
  destruct sb as [|s sb]; [exact I|].
  enter_bayesian.
  destruct (feqb w NEG_INF); [exact I|].
  destruct full.
  - unfold lift; destruct (bayesian_full (s :: sb)); auto.
  - destruct sb as [|s' sb]; [exact I|].
    pose proof (bayesian_incremental_long w s s' sb) as H; cbv zeta in H.
    destruct (bayesian_incremental w (s :: s' :: sb) (s :: s' :: sb))
      as [[v|e] sb']; [exact I|].
    destruct H as (_ & _ & H); exact H.
Qed.

(** ** Finite scores keep the alphas finite *)

Lemma positive_weights_logs (s : StepBreakdown) :
  positive_weights s ->
  exists cs, map np_log (map snd s) = map Fin cs /\ length cs = length s.
Proof.
  induction 1 as [|[p w] s Hw _ (cs & Hcs & Hl)].
  - exists []; split; reflexivity.
  - destruct w as [| | |r]; simpl in Hw; try contradiction.
    exists (ln r :: cs); cbn [map snd].
    rewrite np_log_pos, Hcs by assumption.
    simpl; auto.
Qed.

Lemma add_scores_finite (s : StepBreakdown) :
  forall cs : list R,
    finite_scores s -> (length s <= length cs)%nat ->
    exists cs', add_scores (map Fin cs) s = Return (map Fin cs') /\
                length cs' = length cs.
Proof.
  induction s as [|[p w] s IH]; intros cs Hfin Hlen.
  - exists cs; split; reflexivity.
  - destruct cs as [|c cs]; simpl in Hlen; [lia|].
    inversion Hfin as [|? ? Hp Hs]; subst.
    destruct p as [| | |r]; simpl in Hp; try contradiction.
    destruct (IH cs Hs) as (cs' & Hcs' & Hl); [lia|].
    exists (c + r :: cs').
    cbn [map]; rewrite add_scores_cons, Hcs'; simpl; auto.
Qed.

Section ConstantCount.

(** The predictor count of the history. *)
Variable K : nat.

Lemma add_loop_finite (sb : ScoreHistory) :
  forall cs : list R,
    Forall (fun s => length s = K) sb -> Forall finite_scores sb ->
    length cs = K ->
    exists cs', for_each add_scores sb (map Fin cs) = Return (map Fin cs') /\
                length cs' = K.
Proof.
  induction sb as [|s sb IH]; intros cs Hcount Hfin Hlen.
  - exists cs; split; [reflexivity | assumption].
  - split_forall Hcount Hs Hsb.
    split_forall Hfin Hfs Hfsb.
    destruct (add_scores_finite s cs Hfs) as (cs1 & H1 & Hl1); [lia|].
    destruct (IH cs1 Hsb Hfsb) as (cs' & H' & Hl'); [lia|].
    exists cs'; simpl; rewrite H1; simpl; auto.
Qed.

Lemma constant_count_at_most (sb : ScoreHistory) :
  Forall (fun s => length s = K) sb -> counts_at_most K sb = true.
Proof.
  induction 1 as [|s sb Hs _ IH]; simpl; [reflexivity|].
  rewrite IH, andb_true_r; apply Nat.leb_le; lia.
Qed.

End ConstantCount.

Lemma posterior_breakdown_finite (L : R) (s : StepBreakdown) :
  forall cs : list R,
    length s = length cs ->
    exists upd, posterior_breakdown (map Fin cs) (Fin L) s = Return upd /\
                map snd upd = map (fun c => Fin (exp (c - L))) cs.
Proof.
  induction s as [|[p w] s IH]; intros cs Hlen;
    destruct cs as [|c cs]; simpl in Hlen; try lia.
  - exists []; split; reflexivity.
  - destruct (IH cs) as (upd & Hupd & Hw); [lia|].
    exists ((p, Fin (exp (c - L))) :: upd).
    cbn [map]; rewrite posterior_breakdown_cons, Hupd; simpl.
    rewrite Hw; auto.
Qed.

(** The exponentials of the normalized alphas sum to one. *)
Lemma rsum_posterior (c : R) (cs : list R) :
  rsum (map (fun a => exp (a - ln (rsum (map exp (c :: cs))))) (c :: cs)) = 1.
Proof.
  pose proof (rsum_exp_pos c cs) as Hpos.
  rewrite rsum_exp_shift, exp_Ropp, exp_ln by assumption.
  apply Rinv_l; lra.
Qed.

Lemma Forall_removelast {A} (P : A -> Prop) (l : list A) :
  Forall P l -> Forall P (removelast l).
Proof.
  induction 1 as [|x l Hx Hl IH]; simpl; [constructor|].
  destruct l; [constructor|].
  constructor; assumption.
Qed.

Lemma Forall_last {A} (P : A -> Prop) (x : A) (l : list A) (d : A) :
  Forall P (x :: l) -> P (last (x :: l) d).
Proof.
  revert x; induction l as [|y l IH]; intros x H.
  - inversion H; assumption.
  - inversion H; subst; apply (IH y); assumption.
Qed.

(** ** Sum *)

(** C7: [breakdown2score_sum] returns [working_score] unchanged, for every
    working score, every breakdown and both values of [full], and it leaves
    the breakdown as it was. *)
Theorem breakdown2score_sum_identity :
  forall (w : pyfloat) (full : bool) (sb : ScoreHistory),
    breakdown2score_sum w full sb = (Return w, sb).
Proof. reflexivity. Qed.

(** ** Length normalization *)

(** C2: on the empty breakdown [breakdown2score_length_norm] does not return
    [0.0]: the division by [len(score_breakdown)] raises
    [ZeroDivisionError], for every working score and both values of
    [full]. *)
Theorem length_norm_empty_raises :
  forall (w : pyfloat) (full : bool),
    breakdown2score_length_norm w full [] = (Raise ZeroDivisionError, []).
Proof. reflexivity. Qed.

(** C6: on a non-empty breakdown of length [T],
    [breakdown2score_length_norm] returns the sum over all steps of the
    unweighted per-step sum of the raw log-probabilities, divided by [T],
    whatever the working score, the weights and [full] are. *)
Theorem length_norm_nonempty :
  forall (w : pyfloat) (full : bool) (s : StepBreakdown) (sb : ScoreHistory),
    breakdown2score_length_norm w full (s :: sb) =
    (Return (fdiv_count (total_log_prob (s :: sb)) (length (s :: sb))),
     s :: sb).
Proof.
  intros w full s sb.
  unfold breakdown2score_length_norm, bind, get_breakdown, lift.
  rewrite pysum_fsum.
  rewrite (map_ext combi_arithmetic_unnormalized (fun s => fsum (map fst s)))
    by (intros a; apply pysum_fsum).
  reflexivity.
Qed.

(** ** Bayesian log-linear combination *)

(** C10: [breakdown2score_bayesian_loglin] returns [working_score] unchanged
    on the empty breakdown, for every working score and both values of
    [full], while on a non-empty breakdown neither the working score nor
    [full] has any influence on what it does. *)
Theorem bayesian_loglin_working_score :
  (forall (w : pyfloat) (full : bool),
      breakdown2score_bayesian_loglin w full [] = (Return w, [])) /\
  (forall (w1 w2 : pyfloat) (full1 full2 : bool) (s : StepBreakdown)
          (sb : ScoreHistory),
      breakdown2score_bayesian_loglin w1 full1 (s :: sb) =
      breakdown2score_bayesian_loglin w2 full2 (s :: sb)).
Proof. split; reflexivity. Qed.

(** ** What the strategies do to the caller's breakdown *)

Lemma only_last_weights_changed_refl (sb : ScoreHistory) :
  only_last_weights_changed sb sb.
Proof. repeat split. Qed.

Lemma bayesian_full_frame (w : pyfloat) (sb : ScoreHistory) :
  snd (breakdown2score_bayesian w true sb) = sb.
Proof.
  destruct sb as [|s sb]; [reflexivity|].
  enter_bayesian.
  destruct (feqb w NEG_INF); reflexivity.
Qed.

Lemma bayesian_incremental_frame (w : pyfloat) (sb : ScoreHistory) :
  only_last_weights_changed sb (snd (breakdown2score_bayesian w false sb)).
Proof.
  destruct sb as [|s sb]; [apply only_last_weights_changed_refl|].
  enter_bayesian.
  destruct (feqb w NEG_INF); [apply only_last_weights_changed_refl|].
  destruct sb as [|s' sb]; [apply only_last_weights_changed_refl|].
  pose proof (bayesian_incremental_long w s s' sb) as H; cbv zeta in H.
  destruct (bayesian_incremental w (s :: s' :: sb) (s :: s' :: sb))
    as [[v|e] sb'].
  - destruct H as (_ & alphas & upd & _ & _ & Hupd & ->).
    unfold only_last_weights_changed, snd.
    rewrite removelast_last, last_last.
    repeat split.
    + rewrite (app_removelast_last [] (l := s :: s' :: sb)) at 2
        by discriminate.
      rewrite !length_app; reflexivity.
    + apply (posterior_breakdown_log_probs _ _ _ _ Hupd).
  - destruct H as (_ & _ & ->); apply only_last_weights_changed_refl.
Qed.

(** C5: [breakdown2score_sum], [breakdown2score_length_norm],
    [breakdown2score_bayesian_loglin] and [breakdown2score_bayesian] with
    [full=True] leave the caller's breakdown unchanged on every input;
    [breakdown2score_bayesian] with [full=False] changes at most the weight
    fields of the last step: the number of steps, every earlier step and
    every log-probability of the last step stay as they were. *)
Theorem breakdown_frame :
  forall (w : pyfloat) (full : bool) (sb : ScoreHistory),
    snd (breakdown2score_sum w full sb) = sb /\
    snd (breakdown2score_length_norm w full sb) = sb /\
    snd (breakdown2score_bayesian_loglin w full sb) = sb /\
    snd (breakdown2score_bayesian w true sb) = sb /\
    only_last_weights_changed sb (snd (breakdown2score_bayesian w false sb)).
Proof.
  intros w full sb.
  split; [reflexivity|].
  split; [reflexivity|].
  split; [destruct sb; reflexivity|].
  split; [apply bayesian_full_frame | apply bayesian_incremental_frame].
Qed.

(** ** Predictor counts that differ between the steps *)

Lemma returns_iff_true {A} (e : exn) (o : outcome A) :
  returns_iff true e o -> is_return o = true.
Proof. destruct o; simpl; [reflexivity | intros [H _]; discriminate]. Qed.

(** C3, refuted as stated: on a history with two predictors at step 0 and
    one at step 1 no strategy raises; each of the four returns a score. *)
Lemma mismatched_counts_not_rejected :
  same_predictor_count history_mismatched = false /\
  is_return (fst (breakdown2score_sum (Fin 0) true history_mismatched))
    = true /\
  is_return (fst (breakdown2score_length_norm (Fin 0) true history_mismatched))
    = true /\
  is_return (fst (breakdown2score_bayesian (Fin 0) true history_mismatched))
    = true /\
  is_return (fst (breakdown2score_bayesian (Fin 0) false history_mismatched))
    = true /\
  is_return
    (fst (breakdown2score_bayesian_loglin (Fin 0) true history_mismatched))
    = true.
Proof.
  split; [reflexivity|].
  split; [reflexivity|].
  split; [reflexivity|].
  split; [exact (returns_iff_true _ _
                   (bayesian_returns (Fin 0) true history_mismatched))|].
  split; [exact (returns_iff_true _ _
                   (bayesian_returns (Fin 0) false history_mismatched))|].
  exact (returns_iff_true _ _
           (bayesian_loglin_returns (Fin 0) true history_mismatched)).
Qed.

(** C3, amended: no strategy validates the predictor counts, and a history
    whose steps differ in their predictor count is rejected by none of them.
    On such a history, with finite log-probabilities and positive priors at
    step 0, [breakdown2score_sum] returns the working score and
    [breakdown2score_length_norm] returns a score; [breakdown2score_bayesian]
    raises, with the [IndexError] of the lookup [alphas[k]] in the middle of
    the computation, exactly when the working score is not the sentinel and
    some step has more predictors than step 0;
    [breakdown2score_bayesian_loglin] raises the same error exactly when
    some step has more predictors than the step before it.  Every other
    such history is scored from the misaligned indices, and the
    [IndexError] of [breakdown2score_bayesian] is raised before the
    breakdown is written to. *)
Theorem predictor_counts_not_validated :
  forall (w : pyfloat) (full : bool) (sb : ScoreHistory),
    same_predictor_count sb = false ->
    Forall finite_scores sb ->
    positive_weights (hd [] sb) ->
    fst (breakdown2score_sum w full sb) = Return w /\
    is_return (fst (breakdown2score_length_norm w full sb)) = true /\
    returns_iff (feqb w NEG_INF || counts_at_most (length (hd [] sb)) sb)
      IndexError
      (fst (breakdown2score_bayesian w full sb)) /\
    returns_iff (counts_non_increasing (length (hd [] sb)) sb) IndexError
      (fst (breakdown2score_bayesian_loglin w full sb)) /\
    match breakdown2score_bayesian w full sb with
    | (Raise _, sb') => sb' = sb
    | (Return _, _) => True
    end.
Proof.
  intros w full sb Hcounts _ _.
  destruct sb as [|s sb]; [discriminate|].
  split; [reflexivity|].
  split; [reflexivity|].
  split; [exact (bayesian_returns w full (s :: sb))|].
  split; [apply bayesian_loglin_returns | apply bayesian_raise_frame].
Qed.

(** C3, amended, on the history with two predictors at step 0 and one at
    step 1. *)
Lemma predictor_counts_not_validated_witness :
  fst (breakdown2score_sum (Fin 0) false history_mismatched) =
    Return (Fin 0) /\
  is_return
    (fst (breakdown2score_length_norm (Fin 0) false history_mismatched)) =
    true /\
  returns_iff
    (feqb (Fin 0) NEG_INF
     || counts_at_most (length (hd [] history_mismatched))
          history_mismatched)
    IndexError
    (fst (breakdown2score_bayesian (Fin 0) false history_mismatched)) /\
  returns_iff
    (counts_non_increasing (length (hd [] history_mismatched))
       history_mismatched)
    IndexError
    (fst (breakdown2score_bayesian_loglin (Fin 0) false
            history_mismatched)) /\
  match breakdown2score_bayesian (Fin 0) false history_mismatched with
  | (Raise _, sb') => sb' = history_mismatched
  | (Return _, _) => True
  end.
Proof.
  apply (predictor_counts_not_validated (Fin 0) false history_mismatched).
  - reflexivity.
  - repeat constructor.
  - repeat constructor; simpl; lra.
Defined.

(** ** The weights the incremental mode writes *)

(** C4, refuted as stated: on a history of one step the incremental mode
    returns before it rewrites anything, so the weights of the last step are
    still the priors; with two predictors of weight [1.0] they sum to [2]. *)
Lemma first_step_weights_not_rewritten :
  snd (breakdown2score_bayesian (Fin (-3)) false history_unit_weights) =
    history_unit_weights /\
  weight_sum
    (last (snd (breakdown2score_bayesian (Fin (-3)) false
                  history_unit_weights)) []) = Fin 2 /\
  ~ within_tolerance
      (weight_sum
         (last (snd (breakdown2score_bayesian (Fin (-3)) false
                       history_unit_weights)) []))
      (Fin 1).
Proof.
  assert (E : snd (breakdown2score_bayesian (Fin (-3)) false
                     history_unit_weights) = history_unit_weights)
    by reflexivity.
  rewrite E.
  assert (S2 : weight_sum (last history_unit_weights []) = Fin 2)
    by (unfold weight_sum, pysum; simpl; f_equal; lra).
  rewrite S2.
  repeat split.
  unfold within_tolerance, tolerance.
  replace (2 - 1) with 1 by lra.
  rewrite Rabs_R1; lra.
Qed.

(** C4, amended: after a call of [breakdown2score_bayesian] with
    [full=False] on a well-formed history of two steps or more (the same
    count of at least one predictor at every step, finite log-probabilities,
    positive priors) and with a working score other than the sentinel, the
    weight fields of the last step are [exp(alphas[k] - alpha_part)], for the
    alphas accumulated over all the steps but the last, and they sum to
    one. *)
Theorem posterior_weights_sum_to_one :
  forall (K : nat) (w : pyfloat) (sb : ScoreHistory),
    well_formed K sb -> (1 <= K)%nat -> (2 <= length sb)%nat ->
    feqb w NEG_INF = false ->
    exists alphas,
      for_each add_scores (removelast sb)
        (map np_log (map snd (hd [] sb))) = Return alphas /\
      map snd (last (snd (breakdown2score_bayesian w false sb)) []) =
        map (fun a => np_exp (fsub a (log_sum alphas))) alphas /\
      weight_sum (last (snd (breakdown2score_bayesian w false sb)) []) = Fin 1.
Proof.
  intros K w sb (Hcount & Hfin & Hprior) HK HT Hw.
  destruct sb as [|s [|s' sb]]; simpl in HT; try lia.
  change (hd [] (s :: s' :: sb)) with s in *.
  assert (HKs : length s = K) by (inversion Hcount; assumption).
  (* the alphas over all the steps but the last are finite *)
  destruct (positive_weights_logs s Hprior) as (cs0 & Hcs0 & Hl0).
  destruct (add_loop_finite K (removelast (s :: s' :: sb)) cs0)
    as (cs & Hcs & Hl);
    [apply Forall_removelast; assumption
    |apply Forall_removelast; assumption
    |lia|].
  destruct cs as [|c cs]; [simpl in Hl; lia|].
  assert (Hlast : length (last (s :: s' :: sb) []) = length (c :: cs)).
  { rewrite Hl.
    apply (Forall_last (fun s => length s = K) s (s' :: sb) [] Hcount). }
  destruct (posterior_breakdown_finite
              (ln (rsum (map exp (c :: cs)))) _ _ Hlast)
    as (upd & Hupd & Hweights).
  (* the call *)
  enter_bayesian; rewrite Hw.
  pose proof (bayesian_incremental_long w s s' sb) as H; cbv zeta in H.
  destruct (bayesian_incremental w (s :: s' :: sb) (s :: s' :: sb))
    as [[v|e] sb'].
  2:{ destruct H as (H & _).
      rewrite HKs, (constant_count_at_most K _ Hcount) in H; discriminate. }
  destruct H as (_ & alphas & upd' & Hloop & _ & Hupd' & ->).
  rewrite Hcs0, Hcs in Hloop.
  assert (Halphas : alphas = map Fin (c :: cs)) by congruence.
  subst alphas.
  rewrite log_sum_Fin, Hupd in Hupd'; injection Hupd' as <-.
  exists (map Fin (c :: cs)).
  cbn [snd]; rewrite last_last.
  split; [rewrite Hcs0; exact Hcs|].
  split.
  - rewrite Hweights, log_sum_Fin, map_map; reflexivity.
  - unfold weight_sum; rewrite Hweights.
    rewrite <- (map_map (fun a => exp (a - _)) Fin), pysum_Fin.
    rewrite rsum_posterior; reflexivity.
Qed.

(** The amended C4 on the history of the end-to-end scenario: priors [0.7]
    and [0.3], three steps. *)
Lemma posterior_weights_sum_to_one_witness :
  exists alphas,
    for_each add_scores (removelast history_three_steps)
      (map np_log (map snd (hd [] history_three_steps))) = Return alphas /\
    map snd (last (snd (breakdown2score_bayesian (Fin 0) false
                          history_three_steps)) []) =
      map (fun a => np_exp (fsub a (log_sum alphas))) alphas /\
    weight_sum (last (snd (breakdown2score_bayesian (Fin 0) false
                             history_three_steps)) []) = Fin 1.
Proof.
  apply (posterior_weights_sum_to_one 2 (Fin 0) history_three_steps).
  - repeat split; repeat constructor; simpl; lra.
  - lia.
  - simpl; lia.
  - reflexivity.
Defined.

(** ** A single predictor in the log-linear strategy *)

Lemma loglin_single_loop (sb : ScoreHistory) :
  forall (a : R) (acc : list pyfloat),
    Forall single_finite sb ->
    exists a',
      for_each loglin_body sb ([Fin a], acc) =
      Return ([Fin a'], acc ++ map (fun s => fst (nth 0 s (NaN, NaN))) sb).
Proof.
  induction sb as [|s sb IH]; intros a acc Hsb.
  - exists a; simpl; rewrite app_nil_r; reflexivity.
  - inversion Hsb as [|? ? Hs Hrest]; subst.
    destruct s as [|[[| | |p] w] [|]]; simpl in Hs; try contradiction.
    cbn [for_each loglin_body].
    rewrite loglin_inner_cons, loglin_inner_nil.
    cbn [obind fadd].
    rewrite !log_sum_single.
    cbn [fsub fneg fadd].
    destruct (IH (a + p) (acc ++ [Fin (p + (a + p) + - (a + p))]) Hrest)
      as (a' & Ha').
    exists a'; rewrite Ha', <- app_assoc.
    cbn [map nth fst app].
    replace (p + (a + p) + - (a + p)) with p by ring.
    reflexivity.
Qed.

(** C8, refuted as stated: with one predictor whose log-probability is
    [utils.NEG_INF], both log-sum-exps of the step are negative infinity and
    their difference is NaN, while the plain sum of the log-probabilities is
    negative infinity. *)
Lemma single_predictor_impossible_score :
  Forall (fun s => length s = 1%nat) history_impossible /\
  fst (breakdown2score_bayesian_loglin (Fin 0) true history_impossible) =
    Return NaN /\
  predictor_sum 0 history_impossible = NEG_INF /\
  fst (breakdown2score_bayesian_loglin (Fin 0) true history_impossible) <>
    Return (predictor_sum 0 history_impossible).
Proof.
  assert (E : fst (breakdown2score_bayesian_loglin (Fin 0) true
                     history_impossible) = Return NaN).
  { unfold breakdown2score_bayesian_loglin, history_impossible, bind,
      get_breakdown, lift.
    cbn [hd map]; rewrite np_log_pos by lra.
    reflexivity. }
  split; [repeat constructor|].
  split; [exact E|].
  split; [reflexivity|].
  rewrite E; discriminate.
Qed.

(** C8, amended: on a non-empty history in which every step holds exactly
    one predictor with a finite log-probability, and whose prior at step 0
    is a positive finite weight, [breakdown2score_bayesian_loglin] returns
    the plain sum of that predictor's raw log-probabilities over all the
    steps. *)
Theorem bayesian_loglin_single_predictor :
  forall (w : pyfloat) (full : bool) (sb : ScoreHistory),
    sb <> [] -> Forall single_finite sb -> positive_weights (hd [] sb) ->
    breakdown2score_bayesian_loglin w full sb =
    (Return (predictor_sum 0 sb), sb).
Proof.
  intros w full sb Hne Hsb Hprior.
  destruct sb as [|s sb]; [contradiction|].
  unfold breakdown2score_bayesian_loglin, bind, get_breakdown, lift.
  change (hd [] (s :: sb)) with s in *.
  assert (Hs : single_finite s) by (inversion Hsb; assumption).
  destruct s as [|[p [| | |c]] [|]]; simpl in Hs;
    try contradiction; try (destruct p; contradiction).
  - inversion Hprior as [|? ? Hc _]; contradiction.
  - inversion Hprior as [|? ? Hc _]; contradiction.
  - inversion Hprior as [|? ? Hc _]; contradiction.
  - inversion Hprior as [|? ? Hc _]; subst; simpl in Hc.
    cbn [map]; rewrite np_log_pos by assumption.
    destruct (loglin_single_loop _ (ln c) [] Hsb) as (a' & ->).
    reflexivity.
Qed.

(** The amended C8 on a history of three steps of one predictor. *)
Lemma bayesian_loglin_single_predictor_witness :
  breakdown2score_bayesian_loglin (Fin 0) true history_single_predictor =
  (Return (predictor_sum 0 history_single_predictor),
   history_single_predictor).
Proof.
  apply (bayesian_loglin_single_predictor (Fin 0) true
           history_single_predictor).
  - discriminate.
  - repeat constructor.
  - repeat constructor; simpl; lra.
Defined.

(** ** The two modes of the Bayesian strategy on one step *)

Lemma exp_neg1_bounds : 0 < exp (-1) < / 2.
Proof.
  split; [apply exp_pos|].
  replace (-1) with (- (1)) by lra.
  rewrite exp_Ropp.
  pose proof (exp_ineq1 1 R1_neq_R0) as H.
  apply Rinv_lt_contravar; [|lra].
  pose proof (exp_pos 1); nra.
Qed.

Lemma ln_above_tenth (r : R) : 10 / 9 <= r -> / 10 < ln r.
Proof.
  intros Hr.
  assert (Hneg : 1 + - / 10 < exp (- / 10)) by (apply exp_ineq1; lra).
  assert (Hinv : exp (/ 10) * exp (- / 10) = 1).
  { rewrite <- exp_plus, Rplus_opp_r; apply exp_0. }
  pose proof (exp_pos (/ 10)) as Hpos.
  assert (Hup : exp (/ 10) < 10 / 9) by nra.
  rewrite <- (ln_exp (/ 10)).
  apply ln_increasing; lra.
Qed.

Lemma exp_gap (A B x y : R) :
  exp x = A -> exp y = B -> 10 / 9 * B <= A -> / 10 < x - y.
Proof.
  intros HA HB Hle.
  pose proof (exp_pos y) as Hy; rewrite HB in Hy.
  rewrite <- (ln_exp (x - y)).
  apply ln_above_tenth.
  unfold Rminus; rewrite exp_plus, exp_Ropp, HA, HB.
  apply (Rmult_le_reg_r B); [assumption|].
  rewrite Rmult_assoc, Rinv_l by lra; lra.
Qed.

(** The incremental mode on a history of one step. *)
Lemma bayesian_first_step (w : pyfloat) (s : StepBreakdown) :
  feqb w NEG_INF = false ->
  breakdown2score_bayesian w false [s] =
  (Return (log_sum (map (fun '(p, w) => fadd (np_log w) p) s)), [s]).
Proof.
  intros Hw.
  enter_bayesian; rewrite Hw.
  reflexivity.
Qed.

Lemma prefix_run_one_step :
  exists y, fst (prefix_run history_one_step) = Return (Fin y) /\
            exp y = (1 + exp (-1)) / 2.
Proof.
  unfold prefix_run, history_one_step.
  cbn [incremental_run hd map snd app].
  rewrite bayesian_first_step by reflexivity.
  cbn [map fst incremental_run].
  rewrite np_log_pos by lra.
  cbn [fadd]; rewrite log_sum_pair.
  eexists; split; [reflexivity|].
  pose proof (exp_pos (-1)).
  rewrite exp_ln; rewrite !exp_plus, exp_ln, exp_0; lra.
Qed.

Lemma bayesian_full_one_step :
  exists x,
    fst (breakdown2score_bayesian (Fin 0) true history_one_step) =
      Return (Fin x) /\
    exp x = (1 + exp (-1) * exp (-1)) / (1 + exp (-1)).
Proof.
  unfold history_one_step, breakdown2score_bayesian, bind, get_breakdown,
    lift, bayesian_full.
  cbn [feqb NEG_INF hd map for_each bayesian_full_body obind fst snd].
  rewrite np_log_pos by lra.
  rewrite !add_scores_cons, add_scores_nil.
  cbn [obind fadd].
  rewrite log_sum_pair.
  rewrite !normalized_scores_cons.
  change (normalized_scores [] ?a []) with (@Return (list pyfloat) []).
  cbn [obind fadd fsub fneg app].
  rewrite log_sum_pair.
  cbn [pysum fold_left fadd].
  eexists; split; [reflexivity|].
  pose proof (exp_pos (-1)) as He.
  assert (Hhalf : exp (ln (1 / 2)) = 1 / 2) by (apply exp_ln; lra).
  assert (HE : exp (ln (1 / 2) + 0) + exp (ln (1 / 2) + -1) =
               (1 + exp (-1)) / 2).
  { rewrite !exp_plus, Hhalf, exp_0; lra. }
  rewrite HE.
  rewrite Rplus_0_l, exp_ln.
  - rewrite !exp_plus, exp_Ropp, Hhalf, exp_ln, exp_0 by lra.
    field; lra.
  - rewrite !exp_plus, exp_Ropp, Hhalf, exp_ln, exp_0 by lra.
    assert (0 < / ((1 + exp (-1)) / 2)) by (apply Rinv_0_lt_compat; lra).
    nra.
Qed.

(** C1: the prefix-consistency of the Bayesian strategy fails on the code.
    On one step with priors [0.5] and [0.5] and log-probabilities [0] and
    [-1], the full mode and the incremental run over the prefixes both
    return finite scores, and the full score exceeds the incremental one by
    more than [0.1], so the two are not within the tolerance [1e-9]. *)
Theorem bayesian_prefix_consistency_fails :
  exists x y : R,
    fst (breakdown2score_bayesian (Fin 0) true history_one_step) =
      Return (Fin x) /\
    fst (prefix_run history_one_step) = Return (Fin y) /\
    / 10 < x - y /\
    ~ within_tolerance (Fin x) (Fin y).
Proof.
  destruct bayesian_full_one_step as (x & Hx & Ex).
  destruct prefix_run_one_step as (y & Hy & Ey).
  exists x, y.
  assert (Hgap : / 10 < x - y).
  { apply (exp_gap _ _ x y Ex Ey).
    pose proof exp_neg1_bounds as [H0 H1].
    apply (Rmult_le_reg_r (1 + exp (-1))); [lra|].
    replace ((1 + exp (-1) * exp (-1)) / (1 + exp (-1)) * (1 + exp (-1)))
      with (1 + exp (-1) * exp (-1)) by (field; lra).
    nra. }
  repeat split; try assumption.
  unfold within_tolerance, tolerance; intros H.
  rewrite Rabs_pos_eq in H; lra.
Qed.

(** ** The short circuit of the Bayesian strategy *)

(** C9: [breakdown2score_bayesian] returns [working_score] unchanged and
    leaves the breakdown as it was whenever the breakdown is empty or the
    working score is the sentinel [utils.NEG_INF], in both modes; so the
    result of the full mode is not a function of the history alone: on the
    same history it differs between two working scores. *)
Theorem bayesian_short_circuit :
  (forall (w : pyfloat) (full : bool),
      breakdown2score_bayesian w full [] = (Return w, [])) /\
  (forall (full : bool) (sb : ScoreHistory),
      breakdown2score_bayesian NEG_INF full sb = (Return NEG_INF, sb)) /\
  fst (breakdown2score_bayesian NEG_INF true history_one_step) <>
  fst (breakdown2score_bayesian (Fin 0) true history_one_step).
Proof.
  split; [reflexivity|].
  split; [intros full [|s sb]; reflexivity|].
  destruct bayesian_full_one_step as (x & -> & _).
  discriminate.
Qed.

(** ** Which weights the Bayesian strategies read *)

Lemma pairs_eq {A B} (l l' : list (A * B)) :
  map fst l = map fst l' -> map snd l = map snd l' -> l = l'.
Proof.
  revert l'; induction l as [|[a b] l IH]; intros [|[a' b'] l'] Hf Hs;
    simpl in *; try discriminate; [reflexivity|].
  injection Hf as -> Hf; injection Hs as -> Hs.
  f_equal; apply IH; assumption.
Qed.

Lemma add_scores_log_probs (s s' : StepBreakdown) :
  map fst s = map fst s' ->
  forall alphas, add_scores alphas s = add_scores alphas s'.
Proof.
  revert s'; induction s as [|[p w] s IH]; intros [|[p' w'] s'] H alphas;
    simpl in H; try discriminate; [reflexivity|].
  injection H as -> H.
  destruct alphas as [|a alphas]; [reflexivity|].
  rewrite !add_scores_cons, (IH s' H); reflexivity.
Qed.

Lemma normalized_scores_log_probs (ap : pyfloat) (s s' : StepBreakdown) :
  map fst s = map fst s' ->
  forall alphas,
    normalized_scores alphas ap s = normalized_scores alphas ap s'.
Proof.
  revert s'; induction s as [|[p w] s IH]; intros [|[p' w'] s'] H alphas;
    simpl in H; try discriminate; [reflexivity|].
  injection H as -> H.
  destruct alphas as [|a alphas]; [reflexivity|].
  rewrite !normalized_scores_cons, (IH s' H); reflexivity.
Qed.

Lemma posterior_breakdown_log_probs_only (ap : pyfloat) (s s' : StepBreakdown) :
  map fst s = map fst s' ->
  forall alphas,
    posterior_breakdown alphas ap s = posterior_breakdown alphas ap s'.
Proof.
  revert s'; induction s as [|[p w] s IH]; intros [|[p' w'] s'] H alphas;
    simpl in H; try discriminate; [reflexivity|].
  injection H as -> H.
  destruct alphas as [|a alphas]; [reflexivity|].
  rewrite !posterior_breakdown_cons, (IH s' H); reflexivity.
Qed.

Lemma loglin_inner_log_probs (s s' : StepBreakdown) :
  map fst s = map fst s' ->
  forall prev, loglin_inner prev s = loglin_inner prev s'.
Proof.
  revert s'; induction s as [|[p w] s IH]; intros [|[p' w'] s'] H prev;
    simpl in H; try discriminate; [reflexivity|].
  injection H as -> H.
  destruct prev as [|a prev]; [reflexivity|].
  rewrite !loglin_inner_cons, (IH s' H); reflexivity.
Qed.

Lemma for_each_log_probs {St} (body : St -> StepBreakdown -> outcome St) :
  (forall s s', map fst s = map fst s' -> forall st, body st s = body st s') ->
  forall sb sb',
    log_probs sb = log_probs sb' ->
    forall st, for_each body sb st = for_each body sb' st.
Proof.
  intros Hbody sb; induction sb as [|s sb IH]; intros [|s' sb'] H st;
    simpl in H; try discriminate; [reflexivity|].
  injection H as Hs H.
  simpl; rewrite (Hbody s s' Hs st).
  destruct (body st s') as [st'|e]; simpl; [apply IH; assumption|reflexivity].
Qed.

Lemma bayesian_full_body_log_probs (s s' : StepBreakdown) :
  map fst s = map fst s' ->
  forall st, bayesian_full_body st s = bayesian_full_body st s'.
Proof.
  intros H [alphas acc]; unfold bayesian_full_body.
  rewrite (add_scores_log_probs s s' H).
  destruct (add_scores alphas s') as [al|e]; simpl; [|reflexivity].
  rewrite (normalized_scores_log_probs _ s s' H); reflexivity.
Qed.

Lemma loglin_body_log_probs (s s' : StepBreakdown) :
  map fst s = map fst s' ->
  forall st, loglin_body st s = loglin_body st s'.
Proof.
  intros H [prev acc]; unfold loglin_body.
  rewrite (loglin_inner_log_probs s s' H); reflexivity.
Qed.

Lemma log_probs_removelast (sb : ScoreHistory) :
  log_probs (removelast sb) = removelast (log_probs sb).
Proof.
  induction sb as [|s [|s' sb] IH]; try reflexivity.
  change (log_probs (s :: removelast (s' :: sb)) =
          map fst s :: removelast (log_probs (s' :: sb))).
  rewrite <- IH; reflexivity.
Qed.

Lemma log_probs_last (sb : ScoreHistory) :
  map fst (last sb []) = last (log_probs sb) [].
Proof.
  induction sb as [|s [|s' sb] IH]; try reflexivity.
  exact IH.
Qed.

Lemma naive_log_probs (priors : list pyfloat) (s s' : StepBreakdown) :
  map fst s = map fst s' ->
  naive_contribution priors s = naive_contribution priors s'.
Proof.
  intros H; unfold naive_contribution; f_equal.
  revert s s' H; induction priors as [|w priors IH];
    intros [|[p v] s] [|[p' v'] s'] H; simpl in H; try discriminate;
    try reflexivity.
  injection H as -> H; simpl; f_equal; apply IH; assumption.
Qed.

Lemma step_weights_map (s : StepBreakdown) :
  map (fun '(_, w) => np_log w) s = map np_log (map snd s).
Proof. rewrite map_map; apply map_ext; intros [p w]; reflexivity. Qed.

(** X1: the scores of [breakdown2score_bayesian] (both modes) and of
    [breakdown2score_bayesian_loglin] depend on the weights of step 0 only:
    two histories with the same log-probabilities and the same weights at
    step 0 get the same result, whatever the weights of the later steps
    are.  The weights the incremental mode writes are never read back. *)
Theorem strategies_read_priors_only (w : pyfloat) (full : bool)
  (sb sb' : ScoreHistory) :
  log_probs sb = log_probs sb' -> priors_of sb = priors_of sb' ->
  fst (breakdown2score_bayesian w full sb) =
    fst (breakdown2score_bayesian w full sb') /\
  fst (breakdown2score_bayesian_loglin w full sb) =
    fst (breakdown2score_bayesian_loglin w full sb').
Proof.
  intros Hlp Hpr.
  destruct sb as [|s sb], sb' as [|s' sb']; simpl in Hlp; try discriminate;
    [split; reflexivity|].
  injection Hlp as Hs Hrest.
  unfold priors_of in Hpr; simpl in Hpr.
  assert (s' = s) by (symmetry; apply pairs_eq; assumption); subst s'.
  assert (Hall : log_probs (s :: sb) = log_probs (s :: sb'))
    by (simpl; f_equal; assumption).
  split.
  - unfold breakdown2score_bayesian, bind, get_breakdown.
    destruct (feqb w NEG_INF); [reflexivity|].
    destruct full.
    + unfold lift, bayesian_full; cbn [fst hd].
      rewrite (for_each_log_probs _ bayesian_full_body_log_probs _ _ Hall).
      reflexivity.
    + destruct sb as [|s1 sb], sb' as [|s1' sb']; simpl in Hrest;
        try discriminate; [reflexivity|].
      unfold bayesian_incremental.
      change (Nat.eqb (length (s :: s1 :: sb)) 1) with false.
      change (Nat.eqb (length (s :: s1' :: sb')) 1) with false.
      cbv iota; cbn [hd].
      assert (Hlast : map fst (last (s :: s1 :: sb) []) =
                      map fst (last (s :: s1' :: sb') [])).
      { rewrite !log_probs_last; f_equal; exact Hall. }
      assert (Hinit : log_probs (removelast (s :: s1 :: sb)) =
                      log_probs (removelast (s :: s1' :: sb'))).
      { rewrite !log_probs_removelast; f_equal; exact Hall. }
      unfold bind, lift.
      rewrite (for_each_log_probs add_scores
                 (fun s s' H st => add_scores_log_probs s s' H st) _ _ Hinit).
      destruct (for_each add_scores (removelast (s :: s1' :: sb')) _)
        as [al|e]; [|reflexivity].
      rewrite (normalized_scores_log_probs _ _ _ Hlast).
      destruct (normalized_scores al (log_sum al) (last (s :: s1' :: sb') []))
        as [sc|e]; [|reflexivity].
      rewrite (posterior_breakdown_log_probs_only _ _ _ Hlast).
      destruct (posterior_breakdown al (log_sum al)
                  (last (s :: s1' :: sb') [])) as [upd|e]; [|reflexivity].
      unfold set_last, ret; cbn [fst].
      pose proof (naive_log_probs (map snd s) _ _ Hlast) as Hnaive.
      unfold naive_contribution in Hnaive.
      rewrite Hnaive; reflexivity.
  - unfold breakdown2score_bayesian_loglin, bind, get_breakdown, lift.
    cbn [fst hd].
    rewrite (for_each_log_probs _ loglin_body_log_probs _ _ Hall).
    reflexivity.
Qed.

(** X1 on the three-step history and the same history with other weights
    at steps 1 and 2. *)
Lemma strategies_read_priors_only_witness :
  fst (breakdown2score_bayesian (Fin 0) false history_three_steps) =
    fst (breakdown2score_bayesian (Fin 0) false
           history_three_steps_rewritten) /\
  fst (breakdown2score_bayesian_loglin (Fin 0) false history_three_steps) =
    fst (breakdown2score_bayesian_loglin (Fin 0) false
           history_three_steps_rewritten).
Proof.
  apply (strategies_read_priors_only (Fin 0) false history_three_steps
           history_three_steps_rewritten); reflexivity.
Defined.

(** ** The full mode and the log-linear strategy compute the same score *)

Lemma full_loglin_predictors (s : StepBreakdown) :
  forall cs : list R,
    finite_scores s -> length s = length cs ->
    exists cs' qs,
      length cs' = length cs /\ length qs = length cs /\
      add_scores (map Fin cs) s = Return (map Fin cs') /\
      loglin_inner (map Fin cs) s = Return (map Fin cs', map Fin qs) /\
      forall L,
        normalized_scores (map Fin cs') (Fin L) s =
        Return (map Fin (map (fun q => q - L) qs)).
Proof.
  induction s as [|[p w] s IH]; intros cs Hfin Hlen;
    destruct cs as [|c cs]; simpl in Hlen; try lia.
  - exists [], []; repeat split; reflexivity.
  - split_forall Hfin Hp Hs.
    destruct p as [| | |p]; simpl in Hp; try contradiction.
    destruct (IH cs Hs) as (cs' & qs & Hl1 & Hl2 & Hadd & Hin & Hnorm); [lia|].
    exists (c + p :: cs'), (p + (c + p) :: qs).
    cbn [map length]; rewrite add_scores_cons, loglin_inner_cons, Hadd, Hin.
    repeat split; try (simpl; congruence).
    intros L; rewrite normalized_scores_cons, Hnorm.
    cbn [obind fsub fneg fadd].
    do 3 f_equal; ring.
Qed.

Lemma full_loglin_body (s : StepBreakdown) (cs : list R)
  (acc : list pyfloat) :
  finite_scores s -> length s = length cs -> (1 <= length cs)%nat ->
  exists cs' v,
    length cs' = length cs /\
    bayesian_full_body (map Fin cs, acc) s = Return (map Fin cs', acc ++ [Fin v]) /\
    loglin_body (map Fin cs, acc) s = Return (map Fin cs', acc ++ [Fin v]).
Proof.
  intros Hfin Hlen HK.
  destruct (full_loglin_predictors s cs Hfin Hlen)
    as (cs' & qs & Hl1 & Hl2 & Hadd & Hin & Hnorm).
  destruct cs' as [|c' cs']; [simpl in Hl1; lia|].
  destruct qs as [|q qs]; [simpl in Hl2; lia|].
  exists (c' :: cs'), (ln (rsum (map exp (q :: qs))) - ln (rsum (map exp (c' :: cs')))).
  split; [assumption|].
  unfold bayesian_full_body, loglin_body.
  rewrite Hadd, Hin; cbn [obind].
  rewrite !log_sum_Fin, Hnorm; cbn [obind fsub fneg fadd].
  split; [|reflexivity].
  assert (E : forall L,
             ln (rsum (map exp (map (fun q0 => q0 - L) (q :: qs)))) =
             ln (rsum (map exp (q :: qs))) - L).
  { intros L; rewrite map_map, rsum_exp_shift.
    pose proof (rsum_exp_pos q qs).
    rewrite ln_mult, ln_exp by (assumption || apply exp_pos).
    ring. }
  change (map (fun q0 => q0 - ln (rsum (map exp (c' :: cs')))) (q :: qs))
    with ((q - ln (rsum (map exp (c' :: cs')))) ::
          map (fun q0 => q0 - ln (rsum (map exp (c' :: cs')))) qs).
  rewrite log_sum_Fin.
  exact (f_equal (fun v => Return (map Fin (c' :: cs'), acc ++ [Fin v]))
           (E (ln (rsum (map exp (c' :: cs')))))).
Qed.

Lemma full_loglin_loop (K : nat) (sb : ScoreHistory) :
  forall (cs : list R) (acc : list pyfloat),
    Forall (fun s => length s = K) sb -> Forall finite_scores sb ->
    length cs = K -> (1 <= K)%nat ->
    exists cs' acc',
      for_each bayesian_full_body sb (map Fin cs, acc) =
        Return (map Fin cs', acc') /\
      for_each loglin_body sb (map Fin cs, acc) = Return (map Fin cs', acc').
Proof.
  induction sb as [|s sb IH]; intros cs acc Hcount Hfin Hlen HK.
  - exists cs, acc; split; reflexivity.
  - split_forall Hcount Hs Hsb.
    split_forall Hfin Hfs Hfsb.
    destruct (full_loglin_body s cs acc Hfs) as (cs1 & v & Hl1 & Hb & Hl);
      [lia|lia|].
    destruct (IH cs1 (acc ++ [Fin v]) Hsb Hfsb) as (cs' & acc' & H1 & H2);
      [lia|lia|].
    exists cs', acc'.
    cbn [for_each]; rewrite Hb, Hl; cbn [obind]; auto.
Qed.

(** X2: on a non-empty well-formed history (the same count of at least one
    predictor at every step, finite log-probabilities, positive priors) and
    with a working score other than the sentinel,
    [breakdown2score_bayesian] with [full=True] returns the very score of
    [breakdown2score_bayesian_loglin]: both accumulate the same unnormalized
    alphas, and [logsumexp(alphas - alpha_part + p)] is
    [logsumexp(p + alphas) - logsumexp(alphas)]. *)
Theorem bayesian_full_is_loglin (K : nat) (w w' : pyfloat) (full' : bool)
  (sb : ScoreHistory) :
  well_formed K sb -> (1 <= K)%nat -> sb <> [] -> feqb w NEG_INF = false ->
  fst (breakdown2score_bayesian w true sb) =
  fst (breakdown2score_bayesian_loglin w' full' sb).
Proof.
  intros (Hcount & Hfin & Hprior) HK Hne Hw.
  destruct sb as [|s sb]; [contradiction|].
  change (hd [] (s :: sb)) with s in Hprior.
  destruct (positive_weights_logs s Hprior) as (cs0 & Hcs0 & Hl0).
  assert (HKs : length s = K) by (inversion Hcount; assumption).
  destruct (full_loglin_loop K (s :: sb) cs0 [] Hcount Hfin)
    as (cs' & acc' & H1 & H2); [lia|lia|].
  enter_bayesian; rewrite Hw.
  unfold breakdown2score_bayesian_loglin, bind, get_breakdown, lift,
    bayesian_full.
  cbn [fst hd].
  rewrite step_weights_map, Hcs0, H1, H2; reflexivity.
Qed.

(** X2 on the three-step history of two predictors. *)
Lemma bayesian_full_is_loglin_witness :
  fst (breakdown2score_bayesian (Fin 0) true history_three_steps) =
  fst (breakdown2score_bayesian_loglin (Fin 1) false history_three_steps).
Proof.
  apply (bayesian_full_is_loglin 2 (Fin 0) (Fin 1) false
           history_three_steps).
  - repeat split; repeat constructor; simpl; lra.
  - lia.
  - discriminate.
  - reflexivity.
Defined.

Lemma single_finite_well_formed (sb : ScoreHistory) :
  Forall single_finite sb ->
  Forall (fun s => length s = 1%nat) sb /\ Forall finite_scores sb.
Proof.
  induction 1 as [|s sb Hs _ [IH1 IH2]]; [split; constructor|].
  destruct s as [|[[| | |p] w] [|]]; simpl in Hs; try contradiction.
  split; constructor; try assumption; [reflexivity|].
  repeat constructor.
Qed.

(** X3: with a single predictor of finite log-probabilities and a positive
    prior, on a history that is not empty and with a working score other
    than the sentinel, [breakdown2score_bayesian] with [full=True] returns
    the plain sum of the predictor's log-probabilities and leaves the
    breakdown alone: the prior has no influence on the score of the full
    mode. *)
Theorem bayesian_full_single (w : pyfloat) (sb : ScoreHistory) :
  sb <> [] -> Forall single_finite sb -> positive_weights (hd [] sb) ->
  feqb w NEG_INF = false ->
  breakdown2score_bayesian w true sb = (Return (predictor_sum 0 sb), sb).
Proof.
  intros Hne Hsb Hprior Hw.
  destruct sb as [|s sb]; [contradiction|].
  change (hd [] (s :: sb)) with s in Hprior.
  destruct (single_finite_well_formed _ Hsb) as [Hcount Hfin].
  destruct (positive_weights_logs s Hprior) as (cs0 & Hcs0 & Hl0).
  assert (Hs1 : length s = 1%nat) by (inversion Hcount; assumption).
  destruct cs0 as [|c [|]]; simpl in Hl0; try lia.
  destruct (full_loglin_loop 1 (s :: sb) [c] [] Hcount Hfin)
    as (cs' & acc' & H1 & H2); [reflexivity|lia|].
  destruct (loglin_single_loop (s :: sb) c [] Hsb) as (a' & Ha').
  cbn [map] in H1, H2.
  rewrite Ha' in H2; injection H2 as _ Hacc.
  enter_bayesian; rewrite Hw.
  unfold lift, bayesian_full; cbn [hd].
  rewrite step_weights_map, Hcs0; cbn [map].
  rewrite H1; cbn [obind].
  rewrite <- Hacc; reflexivity.
Qed.

(** X3 on three steps of one predictor. *)
Lemma bayesian_full_single_witness :
  breakdown2score_bayesian (Fin 0) true history_single_predictor =
  (Return (predictor_sum 0 history_single_predictor),
   history_single_predictor).
Proof.
  apply (bayesian_full_single (Fin 0) history_single_predictor).
  - discriminate.
  - repeat constructor.
  - repeat constructor; simpl; lra.
  - reflexivity.
Defined.

(** ** The score the incremental mode returns *)

Lemma bayesian_incremental_value (w : pyfloat) (s s' : StepBreakdown)
  (sb : ScoreHistory) (alphas scores : list pyfloat) (upd : StepBreakdown) :
  for_each add_scores (removelast (s :: s' :: sb)) (map np_log (map snd s)) =
    Return alphas ->
  normalized_scores alphas (log_sum alphas) (last (s :: s' :: sb) []) =
    Return scores ->
  posterior_breakdown alphas (log_sum alphas) (last (s :: s' :: sb) []) =
    Return upd ->
  bayesian_incremental w (s :: s' :: sb) (s :: s' :: sb) =
  (Return (fadd (fsub w (naive_contribution (map snd s)
                           (last (s :: s' :: sb) [])))
             (log_sum scores)),
   removelast (s :: s' :: sb) ++ [upd]).
Proof.
  intros Hloop Hsc Hupd.
  unfold bayesian_incremental.
  change (Nat.eqb (length (s :: s' :: sb)) 1) with false; cbv iota.
  change (hd [] (s :: s' :: sb)) with s.
  unfold bind at 1, lift at 1; rewrite Hloop.
  unfold bind at 1, lift at 1; rewrite Hsc.
  unfold bind at 1, lift at 1; rewrite Hupd.
  reflexivity.
Qed.

Lemma incremental_last_step (L : R) (s : StepBreakdown) :
  forall cs : list R,
    finite_scores s -> length s = length cs ->
    exists ns upd,
      length ns = length cs /\
      normalized_scores (map Fin cs) (Fin L) s = Return (map Fin ns) /\
      posterior_breakdown (map Fin cs) (Fin L) s = Return upd /\
      map (fun '(p, w) => fmul w (np_exp p)) upd = map Fin (map exp ns).
Proof.
  induction s as [|[p w] s IH]; intros cs Hfin Hlen;
    destruct cs as [|c cs]; simpl in Hlen; try lia.
  - exists [], []; repeat split; reflexivity.
  - split_forall Hfin Hp Hs.
    destruct p as [| | |p]; simpl in Hp; try contradiction.
    destruct (IH cs Hs) as (ns & upd & Hl & Hn & Hu & Hm); [lia|].
    exists (c + - L + p :: ns), ((Fin p, Fin (exp (c + - L))) :: upd).
    cbn [map length].
    rewrite normalized_scores_cons, posterior_breakdown_cons, Hn, Hu, Hm.
    repeat split; try (simpl; congruence).
    cbn [fmul np_exp]; rewrite (exp_plus (c + - L) p); reflexivity.
Qed.

(** X4: on a well-formed history of two steps or more, with a working
    score other than the sentinel, [breakdown2score_bayesian] with
    [full=False] returns the working score minus the naive contribution
    [sum_k priors[k] * p_k] of the last step plus the logarithm of
    [sum_k weight_k * exp(p_k)], the probability of the last step under the
    weights the call has just written into it. *)
Theorem bayesian_incremental_mixture (K : nat) (w : pyfloat)
  (sb : ScoreHistory) :
  well_formed K sb -> (1 <= K)%nat -> (2 <= length sb)%nat ->
  feqb w NEG_INF = false ->
  fst (breakdown2score_bayesian w false sb) =
  Return
    (fadd (fsub w (naive_contribution (priors_of sb) (last sb [])))
       (np_log
          (mixture_probability
             (last (snd (breakdown2score_bayesian w false sb)) [])))).
Proof.
  intros (Hcount & Hfin & Hprior) HK HT Hw.
  destruct sb as [|s [|s' sb]]; simpl in HT; try lia.
  unfold priors_of; change (hd [] (s :: s' :: sb)) with s in *.
  assert (HKs : length s = K) by (inversion Hcount; assumption).
  destruct (positive_weights_logs s Hprior) as (cs0 & Hcs0 & Hl0).
  destruct (add_loop_finite K (removelast (s :: s' :: sb)) cs0)
    as (cs & Hcs & Hl);
    [apply Forall_removelast; assumption
    |apply Forall_removelast; assumption
    |lia|].
  rewrite <- Hcs0 in Hcs.
  destruct cs as [|c cs]; [simpl in Hl; lia|].
  assert (Hlast : length (last (s :: s' :: sb) []) = length (c :: cs)).
  { rewrite Hl.
    apply (Forall_last (fun s => length s = K) s (s' :: sb) [] Hcount). }
  assert (Hflast : finite_scores (last (s :: s' :: sb) []))
    by (apply (Forall_last finite_scores s (s' :: sb) [] Hfin)).
  destruct (incremental_last_step (ln (rsum (map exp (c :: cs)))) _ _
              Hflast Hlast) as (ns & upd & Hln & Hn & Hu & Hm).
  rewrite <- (log_sum_Fin c cs) in Hn, Hu.
  enter_bayesian; rewrite Hw.
  rewrite (bayesian_incremental_value w s s' sb _ _ _ Hcs Hn Hu).
  cbn [fst snd]; rewrite last_last.
  unfold mixture_probability; rewrite Hm, pysum_Fin.
  destruct ns as [|n ns]; [simpl in Hln; lia|].
  rewrite log_sum_Fin, np_log_pos by apply rsum_exp_pos.
  reflexivity.
Qed.

(** X4 on the three-step history of two predictors. *)
Lemma bayesian_incremental_mixture_witness :
  fst (breakdown2score_bayesian (Fin 0) false history_three_steps) =
  Return
    (fadd (fsub (Fin 0)
             (naive_contribution (priors_of history_three_steps)
                (last history_three_steps [])))
       (np_log
          (mixture_probability
             (last (snd (breakdown2score_bayesian (Fin 0) false
                           history_three_steps)) [])))).
Proof.
  apply (bayesian_incremental_mixture 2 (Fin 0) history_three_steps).
  - repeat split; repeat constructor; simpl; lra.
  - lia.
  - simpl; lia.
  - reflexivity.
Defined.

Lemma first_step_scores (s : StepBreakdown) :
  finite_scores s -> positive_weights s ->
  exists ms,
    length ms = length s /\
    map (fun '(p, w) => fadd (np_log w) p) s = map Fin ms /\
    map (fun '(p, w) => fmul w (np_exp p)) s = map Fin (map exp ms).
Proof.
  induction s as [|[p w] s IH]; intros Hfin Hpos.
  - exists []; repeat split; reflexivity.
  - split_forall Hfin Hp Hs.
    split_forall Hpos Hw Hws.
    destruct p as [| | |p]; simpl in Hp; try contradiction.
    destruct w as [| | |w]; simpl in Hw; try contradiction.
    destruct (IH Hs Hws) as (ms & Hl & H1 & H2).
    exists (ln w + p :: ms).
    cbn [map length]; rewrite H1, H2, np_log_pos by assumption.
    repeat split; [congruence|].
    cbn [fmul np_exp fadd].
    rewrite exp_plus, exp_ln by assumption; reflexivity.
Qed.

(** X5: on a history of one step with finite log-probabilities and
    positive priors, [breakdown2score_bayesian] with [full=False] returns
    the logarithm of [sum_k priors[k] * exp(p_k)], the probability of the
    step under the priors as they are (not normalized), whatever the
    working score it is given, and leaves the breakdown alone. *)
Theorem bayesian_incremental_first_mixture (w : pyfloat) (s : StepBreakdown) :
  finite_scores s -> positive_weights s -> s <> [] ->
  feqb w NEG_INF = false ->
  breakdown2score_bayesian w false [s] =
  (Return (np_log (mixture_probability s)), [s]).
Proof.
  intros Hfin Hpos Hne Hw.
  rewrite bayesian_first_step by assumption.
  destruct (first_step_scores s Hfin Hpos) as (ms & Hl & H1 & H2).
  unfold mixture_probability; rewrite H1, H2, pysum_Fin.
  destruct ms as [|m ms]; [destruct s; [contradiction|discriminate]|].
  rewrite log_sum_Fin, np_log_pos by apply rsum_exp_pos.
  reflexivity.
Qed.

(** X5 on one step of two predictors of prior [0.5]. *)
Lemma bayesian_incremental_first_mixture_witness :
  breakdown2score_bayesian (Fin 7) false history_one_step =
  (Return (np_log (mixture_probability (hd [] history_one_step))),
   history_one_step).
Proof.
  apply (bayesian_incremental_first_mixture (Fin 7)
           [(Fin 0, Fin (1 / 2)); (Fin (-1), Fin (1 / 2))]).
  - repeat constructor.
  - repeat constructor; simpl; lra.
  - discriminate.
  - reflexivity.
Defined.

(** * Output handlers *)

(** ** The names of the predictors *)

Example predictor_names_repeated :
  TimeCSVOutputHandler_predictor_names
    ["nmt"; "fst"; "nmt"; "nmt"]%string =
  ["nmt"; "fst"; "nmt2"; "nmt3"]%string.
Proof. reflexivity. Qed.

Example predictor_names_underscore :
  NBestOutputHandler_predictor_names ["length_ratio"; "nmt"; "nmt"]%string =
  ["length0ratio"; "nmt"; "nmt2"]%string.
Proof. reflexivity. Qed.

Lemma dict_get_set_same (d : list (string * nat)) (k : string) (v : nat) :
  dict_get (dict_set d k v) k = Some v.
Proof.
  induction d as [|[k' v'] d IH]; simpl.
  - rewrite String.eqb_refl; reflexivity.
  - destruct (String.eqb k' k) eqn:E; simpl; rewrite E; auto.
Qed.

Lemma dict_get_set_other (d : list (string * nat)) (k k' : string) (v : nat) :
  k <> k' -> dict_get (dict_set d k v) k' = dict_get d k'.
Proof.
  intros Hne; induction d as [|[k0 v0] d IH]; simpl.
  - destruct (String.eqb k k') eqn:E; [|reflexivity].
    apply String.eqb_eq in E; contradiction.
  - destruct (String.eqb k0 k) eqn:E; simpl.
    + apply String.eqb_eq in E; subst k0.
      destruct (String.eqb k k') eqn:E'; [|reflexivity].
      apply String.eqb_eq in E'; contradiction.
    + destruct (String.eqb k0 k'); auto.
Qed.

Lemma counts_seen_step (d : list (string * nat)) (seen : list string)
  (name : string) :
  counts_seen d seen ->
  counts_seen (dict_set d name (S (count_occ string_dec seen name)))
    (name :: seen).
Proof.
  intros H k; simpl.
  destruct (string_dec name k) as [->|Hne].
  - rewrite dict_get_set_same; reflexivity.
  - rewrite dict_get_set_other by assumption; apply H.
Qed.

Lemma name_loop_numbered (finish : string -> string) (names : list string) :
  forall (d : list (string * nat)) (seen acc : list string),
    counts_seen d seen ->
    snd (fold_left (name_loop_body finish) names (d, acc)) =
    acc ++ map finish (numbered_names seen names).
Proof.
  induction names as [|name names IH]; intros d seen acc Hd; simpl.
  - rewrite app_nil_r; reflexivity.
  - pose proof (Hd name) as Hname.
    destruct (count_occ string_dec seen name) as [|c] eqn:Hc;
      rewrite Hname.
    + rewrite (IH _ (name :: seen)).
      * rewrite <- app_assoc; reflexivity.
      * rewrite <- Hc; apply counts_seen_step; assumption.
    + cbv zeta; rewrite Nat.add_1_r.
      rewrite (IH _ (name :: seen)).
      * rewrite <- app_assoc; reflexivity.
      * rewrite <- Hc; apply counts_seen_step; assumption.
Qed.

Lemma counts_seen_empty : counts_seen [] [].
Proof. intros k; reflexivity. Qed.

(** X6: the [TimeCSVOutputHandler] keeps the first occurrence of a
    predictor name and appends its number [j] to the [j]-th occurrence, for
    [j >= 2]. *)
Theorem TimeCSV_names_numbered :
  forall names : list string,
    TimeCSVOutputHandler_predictor_names names = numbered_names [] names.
Proof.
  intros names; unfold TimeCSVOutputHandler_predictor_names.
  rewrite (name_loop_numbered _ names [] [] [] counts_seen_empty).
  simpl; apply map_id.
Qed.

Lemma replace_underscore_clean (s : string) :
  has_char "_" (replace_underscore s) = false.
Proof.
  induction s as [|c s IH]; simpl; [reflexivity|].
  rewrite IH, orb_false_r.
  destruct (Ascii.eqb c "_") eqn:E; [reflexivity | exact E].
Qed.

(** X7: the names of a [NBestOutputHandler] are the names of a
    [TimeCSVOutputHandler] for the same predictors with every underscore
    replaced by the digit zero, so that none of them contains an
    underscore. *)
Theorem NBest_names_no_underscore :
  forall names : list string,
    NBestOutputHandler_predictor_names names =
      map replace_underscore (TimeCSVOutputHandler_predictor_names names) /\
    forallb (fun n => negb (has_char "_" n))
      (NBestOutputHandler_predictor_names names) = true.
Proof.
  intros names.
  assert (E : NBestOutputHandler_predictor_names names =
              map replace_underscore
                (TimeCSVOutputHandler_predictor_names names)).
  { unfold NBestOutputHandler_predictor_names,
      TimeCSVOutputHandler_predictor_names.
    rewrite !(name_loop_numbered _ names [] [] [] counts_seen_empty).
    simpl; rewrite map_id; reflexivity. }
  split; [exact E|].
  rewrite E; apply forallb_forall.
  intros n Hn; apply in_map_iff in Hn; destruct Hn as (m & <- & _).
  rewrite replace_underscore_clean; reflexivity.
Qed.

Lemma numbered_names_fresh (names : list string) :
  forall seen : list string,
    NoDup names -> (forall n, In n names -> ~ In n seen) ->
    numbered_names seen names = names.
Proof.
  induction names as [|name names IH]; intros seen Hnd Hfresh; simpl;
    [reflexivity|].
  inversion Hnd as [|? ? Hnotin Hnd']; subst.
  rewrite (proj1 (count_occ_not_In string_dec seen name))
    by (apply Hfresh; left; reflexivity).
  simpl; f_equal; apply IH; [assumption|].
  intros n Hn [<-|Hs]; [contradiction|].
  apply (Hfresh n); [right; assumption | assumption].
Qed.

(** X8: predictor names that are pairwise distinct are kept as they are by
    the [TimeCSVOutputHandler]. *)
Theorem TimeCSV_names_distinct :
  forall names : list string,
    NoDup names -> TimeCSVOutputHandler_predictor_names names = names.
Proof.
  intros names Hnd.
  unfold TimeCSVOutputHandler_predictor_names.
  rewrite (name_loop_numbered _ names [] [] [] counts_seen_empty).
  simpl; rewrite map_id.
  apply numbered_names_fresh; [assumption | intros n _ []].
Qed.

(** X8 on three distinct names. *)
Lemma TimeCSV_names_distinct_witness :
  TimeCSVOutputHandler_predictor_names ["nmt"; "fst"; "wc"]%string =
  ["nmt"; "fst"; "wc"]%string.
Proof.
  apply (TimeCSV_names_distinct ["nmt"; "fst"; "wc"]%string).
  repeat constructor; simpl; intuition discriminate.
Defined.

(** *** When the numbered names are pairwise distinct *)

Lemma all_digits_string_of_uint (d : Decimal.uint) :
  all_digits (NilEmpty.string_of_uint d) = true.
Proof. induction d; simpl; auto. Qed.

Lemma str_of_count_inj (n m : nat) :
  str_of_count n = str_of_count m -> n = m.
Proof.
  unfold str_of_count; intros H.
  apply (f_equal NilEmpty.uint_of_string) in H.
  rewrite !NilEmpty.usu in H; injection H as H.
  apply (f_equal Nat.of_uint) in H.
  rewrite !Unsigned.of_to in H; exact H.
Qed.

Lemma str_of_count_nonempty (n : nat) : str_of_count n <> EmptyString.
Proof.
  intros H.
  assert (E : str_of_count n = NilEmpty.string_of_uint Decimal.Nil)
    by exact H.
  unfold str_of_count in E.
  apply (f_equal NilEmpty.uint_of_string) in E.
  rewrite !NilEmpty.usu in E; injection E as E.
  apply (f_equal Nat.of_uint) in E.
  rewrite Unsigned.of_to in E; simpl in E; subst n.
  discriminate H.
Qed.

Lemma all_digits_app (s t : string) :
  all_digits (s ++ t) = (all_digits s && all_digits t)%bool.
Proof.
  induction s as [|c s IH]; simpl; [reflexivity|].
  rewrite IH, andb_assoc; reflexivity.
Qed.

Lemma all_digits_ends (s : string) :
  all_digits s = true -> s <> EmptyString -> ends_with_digit s = true.
Proof.
  induction s as [|c s IH]; intros Hd Hne; [contradiction|].
  simpl in Hd; apply andb_true_iff in Hd; destruct Hd as [Hc Hs].
  destruct s as [|c' s]; [exact Hc|].
  apply IH; [assumption | discriminate].
Qed.

Lemma ends_with_digit_tail (c : ascii) (s : string) :
  ends_with_digit (String c s) = false -> ends_with_digit s = false.
Proof. destruct s; [reflexivity | intros H; exact H]. Qed.

(** A name that does not end in a digit, followed by digits, splits in one
    way only. *)
Lemma digit_suffix_unique (a : string) :
  forall b d e : string,
    ends_with_digit a = false -> ends_with_digit b = false ->
    all_digits d = true -> all_digits e = true ->
    (a ++ d)%string = (b ++ e)%string -> a = b /\ d = e.
Proof.
  induction a as [|c a IH]; intros b d e Ha Hb Hd He Heq.
  - destruct b as [|c' b]; [split; [reflexivity | exact Heq]|].
    exfalso.
    simpl in Heq; rewrite Heq in Hd.
    change (String c' (b ++ e)) with (String c' b ++ e)%string in Hd.
    rewrite all_digits_app in Hd; apply andb_true_iff in Hd.
    destruct Hd as [Hd _].
    rewrite (all_digits_ends _ Hd) in Hb; discriminate.
  - destruct b as [|c' b].
    + exfalso.
      simpl in Heq; rewrite <- Heq in He.
      change (String c (a ++ d)) with (String c a ++ d)%string in He.
      rewrite all_digits_app in He; apply andb_true_iff in He.
      destruct He as [He _].
      rewrite (all_digits_ends _ He) in Ha; discriminate.
    + simpl in Heq; injection Heq as -> Heq.
      destruct (IH b d e) as [-> ->];
        eauto using ends_with_digit_tail.
Qed.

Lemma numbered_split (name : string) (c : nat) :
  exists sfx,
    numbered name c = (name ++ sfx)%string /\ all_digits sfx = true /\
    (sfx = EmptyString <-> c = O).
Proof.
  destruct c as [|c]; simpl.
  - exists EmptyString; repeat split; auto.
    induction name as [|a name IH]; simpl; congruence.
  - exists (str_of_count (S (S c))); repeat split;
      try apply all_digits_string_of_uint; try discriminate.
    intros H; destruct (str_of_count_nonempty _ H).
Qed.

Lemma numbered_inj (n m : string) (c c' : nat) :
  ends_with_digit n = false -> ends_with_digit m = false ->
  numbered n c = numbered m c' -> n = m /\ c = c'.
Proof.
  intros Hn Hm H.
  destruct (numbered_split n c) as (s & Es & Ds & Zs).
  destruct (numbered_split m c') as (s' & Es' & Ds' & Zs').
  rewrite Es, Es' in H.
  destruct (digit_suffix_unique n m s s' Hn Hm Ds Ds' H) as [-> Hs].
  split; [reflexivity|].
  destruct c as [|c], c' as [|c']; try reflexivity.
  - destruct Zs as [_ Zs]; rewrite Zs in Hs by reflexivity.
    symmetry in Hs; apply Zs' in Hs; discriminate.
  - destruct Zs' as [_ Zs']; rewrite Zs' in Hs by reflexivity.
    apply Zs in Hs; discriminate.
  - simpl in Es, Es'.
    assert (E : str_of_count (S (S c)) = str_of_count (S (S c'))).
    { assert (E1 : (m ++ str_of_count (S (S c)))%string = (m ++ s)%string)
        by exact Es.
      assert (E2 : (m ++ str_of_count (S (S c')))%string = (m ++ s')%string)
        by exact Es'.
      rewrite Hs in E1; rewrite <- E2 in E1.
      clear - E1; induction m as [|a m IH]; simpl in E1;
        [exact E1 | injection E1 as E1; auto]. }
    apply str_of_count_inj in E; congruence.
Qed.

Lemma numbered_names_in (names : list string) :
  forall (seen : list string) (x : string),
    In x (numbered_names seen names) ->
    exists m c,
      x = numbered m c /\ In m names /\
      (count_occ string_dec seen m <= c)%nat.
Proof.
  induction names as [|name names IH]; intros seen x Hx; simpl in Hx;
    [contradiction|].
  destruct Hx as [<-|Hx].
  - exists name, (count_occ string_dec seen name).
    repeat split; [left; reflexivity | lia].
  - destruct (IH _ _ Hx) as (m & c & -> & Hm & Hc).
    exists m, c; repeat split; [right; assumption|].
    simpl in Hc; destruct (string_dec name m); lia.
Qed.

Lemma numbered_names_NoDup (names : list string) :
  forall seen : list string,
    Forall (fun n => ends_with_digit n = false) names ->
    NoDup (numbered_names seen names).
Proof.
  induction names as [|name names IH]; intros seen Hnames; simpl;
    [constructor|].
  inversion Hnames as [|? ? Hname Hrest]; subst.
  constructor; [|apply IH; assumption].
  intros Hin.
  destruct (numbered_names_in _ _ _ Hin) as (m & c & E & Hm & Hc).
  assert (Hmd : ends_with_digit m = false)
    by (rewrite Forall_forall in Hrest; apply Hrest; assumption).
  destruct (numbered_inj _ _ _ _ Hname Hmd E) as [<- <-].
  simpl in Hc; destruct (string_dec name name); [lia | congruence].
Qed.

(** X9: when no predictor name ends in a decimal digit, the names of a
    [TimeCSVOutputHandler] are pairwise distinct, however often a name is
    repeated. *)
Theorem TimeCSV_names_unique :
  forall names : list string,
    Forall (fun n => ends_with_digit n = false) names ->
    NoDup (TimeCSVOutputHandler_predictor_names names).
Proof.
  intros names Hnames.
  unfold TimeCSVOutputHandler_predictor_names.
  rewrite (name_loop_numbered _ names [] [] [] counts_seen_empty).
  simpl; rewrite map_id.
  apply numbered_names_NoDup; assumption.
Qed.

(** X9 on a list with a name given three times. *)
Lemma TimeCSV_names_unique_witness :
  NoDup (TimeCSVOutputHandler_predictor_names
           ["nmt"; "fst"; "nmt"; "nmt"]%string).
Proof.
  apply (TimeCSV_names_unique ["nmt"; "fst"; "nmt"; "nmt"]%string).
  repeat constructor.
Defined.

(** ** The n-gram posteriors *)

Example ngram_windows_bigrams :
  ngram_windows 1 2 [1; 5; 2]%Z =
  [[1]; [1]; [5]; [1; 5]; [2]; [5; 2]]%Z.
Proof. reflexivity. Qed.

Example ngram_key_example : ngram_key [1; 5; -2]%Z = "1 5 -2"%string.
Proof. reflexivity. Qed.

Example slice_from_examples :
  slice_from [1; 2; 3]%Z (-2) = [2; 3]%Z /\
  slice_from [1; 2; 3]%Z (-5) = [1; 2; 3]%Z /\
  slice_from [1; 2; 3]%Z 0 = [1; 2; 3]%Z /\
  slice_from [1; 2; 3]%Z 1 = [2; 3]%Z /\
  slice_from [1; 2; 3]%Z 7 = @nil Z.
Proof. repeat split. Qed.

Example collect_two_hypos :
  collect_from 1 2 1 1 0 two_hypos [] =
  [("1", [0; 1]); ("5", [0; 1]); ("6", [0]); ("2", [0; 1]);
   ("7", [1])]%string%nat.
Proof. reflexivity. Qed.

(** *** The clamp *)

Lemma clamped_probability (x : pyfloat) :
  is_probability (py_min (Fin 1) (np_exp x)).
Proof.
  destruct x as [| | |r]; unfold py_min; simpl; try lra.
  - destruct (Rlt_dec 0 1); simpl; lra.
  - pose proof (exp_pos r).
    destruct (Rlt_dec (exp r) 1); simpl; lra.
Qed.

(** *** The dict of the n-grams *)

Lemma ngrams_get_add_same (D : list (string * list nat)) (g : string)
  (i : nat) :
  ngrams_get (ngrams_add D g i) g =
  if existsb (Nat.eqb i) (ngrams_get D g) then ngrams_get D g
  else ngrams_get D g ++ [i].
Proof.
  induction D as [|[g' idxs] D IH]; simpl.
  - rewrite String.eqb_refl; reflexivity.
  - destruct (String.eqb g' g) eqn:E; simpl; rewrite E; auto.
Qed.

Lemma ngrams_get_add_other (D : list (string * list nat)) (g g' : string)
  (i : nat) :
  g <> g' -> ngrams_get (ngrams_add D g i) g' = ngrams_get D g'.
Proof.
  intros Hne; induction D as [|[g0 idxs] D IH]; simpl.
  - destruct (String.eqb g g') eqn:E; [|reflexivity].
    apply String.eqb_eq in E; contradiction.
  - destruct (String.eqb g0 g) eqn:E; simpl.
    + apply String.eqb_eq in E; subst g0.
      destruct (String.eqb g g') eqn:E'; [|reflexivity].
      apply String.eqb_eq in E'; contradiction.
    + destruct (String.eqb g0 g'); auto.
Qed.

Lemma ngrams_add_keys (D : list (string * list nat)) (g : string) (i : nat) :
  map fst (ngrams_add D g i) =
  if existsb (String.eqb g) (map fst D) then map fst D
  else map fst D ++ [g].
Proof.
  induction D as [|[g' idxs] D IH]; simpl; [reflexivity|].
  rewrite (String.eqb_sym g g').
  destruct (String.eqb g' g) eqn:E; simpl; [reflexivity|].
  rewrite IH; destruct (existsb (String.eqb g) (map fst D)); reflexivity.
Qed.

Lemma existsb_string_In (g : string) (l : list string) :
  existsb (String.eqb g) l = true <-> In g l.
Proof.
  rewrite existsb_exists; split.
  - intros (x & Hx & E); apply String.eqb_eq in E; subst; assumption.
  - intros H; exists g; split; [assumption | apply String.eqb_refl].
Qed.

Lemma existsb_nat_In (i : nat) (l : list nat) :
  existsb (Nat.eqb i) l = true <-> In i l.
Proof.
  rewrite existsb_exists; split.
  - intros (x & Hx & E); apply Nat.eqb_eq in E; subst; assumption.
  - intros H; exists i; split; [assumption | apply Nat.eqb_refl].
Qed.

Lemma ngrams_get_missing (D : list (string * list nat)) (g : string) :
  ~ In g (map fst D) -> ngrams_get D g = [].
Proof.
  induction D as [|[g' idxs] D IH]; simpl; intros H; [reflexivity|].
  destruct (String.eqb g' g) eqn:E.
  - apply String.eqb_eq in E; subst; exfalso; apply H; left; reflexivity.
  - apply IH; intros Hin; apply H; right; assumption.
Qed.

Lemma ngrams_get_entry (D : list (string * list nat)) (g : string)
  (idxs : list nat) :
  NoDup (map fst D) -> In (g, idxs) D -> ngrams_get D g = idxs.
Proof.
  induction D as [|[g' idxs'] D IH]; simpl; intros Hnd Hin; [contradiction|].
  inversion Hnd as [|? ? Hnotin Hnd']; subst.
  destruct Hin as [E|Hin].
  - injection E as -> ->; rewrite String.eqb_refl; reflexivity.
  - destruct (String.eqb g' g) eqn:E; [|apply IH; assumption].
    apply String.eqb_eq in E; subst g'.
    exfalso; apply Hnotin; apply in_map_iff.
    exists (g, idxs); split; [reflexivity | assumption].
Qed.

Lemma has_key_app (seen : list string) (g0 g : string) :
  has_key (seen ++ [g0]) g = (has_key seen g || String.eqb g g0)%bool.
Proof.
  unfold has_key; rewrite existsb_app; simpl.
  rewrite orb_false_r; reflexivity.
Qed.

(** Adding the keys of the hypothesis [k] one after the other: [seen] are
    the keys added so far and [base] is the dict before the hypothesis. *)
Lemma add_keys_state (k : nat) (base : string -> list nat) :
  (forall g, ~ In k (base g)) ->
  forall (ks seen : list string) (D : list (string * list nat)),
    NoDup (map fst D) ->
    (forall g, In g (map fst D) -> ngrams_get D g <> []) ->
    (forall g,
        ngrams_get D g = base g ++ (if has_key seen g then [k] else [])) ->
    let D' := fold_left (fun D g => ngrams_add D g k) ks D in
    NoDup (map fst D') /\
    (forall g, In g (map fst D') -> ngrams_get D' g <> []) /\
    (forall g,
        ngrams_get D' g =
        base g ++ (if has_key (seen ++ ks) g then [k] else [])).
Proof.
  intros Hbase ks; induction ks as [|g0 ks IH]; intros seen D Hnd Hne Hget.
  - simpl; rewrite app_nil_r; auto.
  - simpl.
    replace (seen ++ g0 :: ks) with ((seen ++ [g0]) ++ ks)
      by (rewrite <- app_assoc; reflexivity).
    assert (Hsame : ngrams_get (ngrams_add D g0 k) g0 = base g0 ++ [k]).
    { rewrite ngrams_get_add_same, (Hget g0).
      destruct (has_key seen g0).
      - replace (existsb (Nat.eqb k) (base g0 ++ [k])) with true;
          [reflexivity|].
        symmetry; apply existsb_nat_In, in_or_app; right; left; reflexivity.
      - rewrite app_nil_r.
        replace (existsb (Nat.eqb k) (base g0)) with false; [reflexivity|].
        symmetry; apply not_true_is_false; intros H.
        apply existsb_nat_In in H; exact (Hbase g0 H). }
    apply IH.
    + rewrite ngrams_add_keys.
      destruct (existsb (String.eqb g0) (map fst D)) eqn:E; [assumption|].
      apply NoDup_app; [assumption | repeat constructor; intros [] |].
      intros g Hg [<-|[]].
      apply existsb_string_In in Hg; congruence.
    + intros g Hg.
      destruct (string_dec g0 g) as [<-|Hneq].
      * rewrite Hsame; intros H; destruct (base g0); discriminate.
      * rewrite ngrams_get_add_other by assumption.
        apply Hne.
        rewrite ngrams_add_keys in Hg.
        destruct (existsb (String.eqb g0) (map fst D)); [assumption|].
        apply in_app_or in Hg; destruct Hg as [Hg|[Hg|[]]];
          [assumption | contradiction].
    + intros g; rewrite has_key_app.
      destruct (string_dec g0 g) as [<-|Hneq].
      * rewrite Hsame, String.eqb_refl, orb_true_r; reflexivity.
      * rewrite ngrams_get_add_other, (Hget g) by assumption.
        replace (String.eqb g g0) with false; [rewrite orb_false_r; auto|].
        symmetry; apply String.eqb_neq; congruence.
Qed.

Lemma holders_below (keys : list (list string)) (g : string) (i : nat) :
  In i (holders keys g) -> (i < length keys)%nat.
Proof.
  unfold holders; intros H; apply filter_In in H; destruct H as [H _].
  apply in_seq in H; lia.
Qed.

Lemma holders_app (keys : list (list string)) (ks : list string)
  (g : string) :
  holders (keys ++ [ks]) g =
  holders keys g ++ (if has_key ks g then [length keys] else []).
Proof.
  unfold holders.
  rewrite length_app, Nat.add_1_r, seq_S, filter_app; simpl.
  rewrite nth_middle.
  f_equal.
  apply filter_ext_in; intros i Hi; apply in_seq in Hi.
  rewrite app_nth1 by lia; reflexivity.
Qed.

Lemma ngrams_of_add (keys : list (list string)) (ks : list string)
  (D : list (string * list nat)) :
  ngrams_of keys D ->
  ngrams_of (keys ++ [ks])
    (fold_left (fun D g => ngrams_add D g (length keys)) ks D).
Proof.
  intros (Hnd & Hget & Hne).
  destruct (add_keys_state (length keys) (holders keys)) with
    (ks := ks) (seen := @nil string) (D := D) as (H1 & H2 & H3).
  - intros g H; apply holders_below in H; lia.
  - assumption.
  - intros g Hg; rewrite Hget; apply Hne; assumption.
  - intros g; simpl; rewrite app_nil_r; apply Hget.
  - cbn [app] in H3.
    repeat split; [assumption | |].
    + intros g; rewrite holders_app; apply H3.
    + intros g Hg; rewrite holders_app.
      rewrite <- (H3 g); apply H2; assumption.
Qed.

Lemma fold_left_keys (k : nat) (windows : list (list Z))
  (D : list (string * list nat)) :
  fold_left (fun D w => ngrams_add D (ngram_key w) k) windows D =
  fold_left (fun D g => ngrams_add D g k) (map ngram_key windows) D.
Proof.
  revert D; induction windows as [|w ws IH]; intros D; simpl; auto.
Qed.

Lemma collect_from_ngrams (GO_ID EOS_ID min_order max_order : Z)
  (hypos : list hypothesis) :
  forall (keys : list (list string)) (D : list (string * list nat)),
    ngrams_of keys D ->
    ngrams_of
      (keys ++ map (hypo_keys GO_ID EOS_ID min_order max_order) hypos)
      (collect_from GO_ID EOS_ID min_order max_order (length keys) hypos D).
Proof.
  induction hypos as [|hypo hypos IH]; intros keys D HD; simpl.
  - rewrite app_nil_r; assumption.
  - replace (keys ++ hypo_keys GO_ID EOS_ID min_order max_order hypo
               :: map (hypo_keys GO_ID EOS_ID min_order max_order) hypos)
      with ((keys ++ [hypo_keys GO_ID EOS_ID min_order max_order hypo])
              ++ map (hypo_keys GO_ID EOS_ID min_order max_order) hypos)
      by (rewrite <- app_assoc; reflexivity).
    replace (S (length keys))
      with (length (keys ++ [hypo_keys GO_ID EOS_ID min_order max_order hypo]))
      by (rewrite length_app; simpl; lia).
    apply IH.
    unfold collect_hypo; rewrite fold_left_keys.
    apply ngrams_of_add; assumption.
Qed.

Lemma ngrams_of_empty : ngrams_of [] [].
Proof. repeat split; [constructor | intros g []]. Qed.

(** *** The scores that are written *)

Lemma comprehension_getitem (normed : list pyfloat) (idxs : list nat) :
  Forall (fun i => (i < length normed)%nat) idxs ->
  forall k,
    comprehension_enumerate (fun _ i => getitem normed i) k idxs =
    Return (map (fun i => nth i normed NaN) idxs).
Proof.
  induction 1 as [|i idxs Hi _ IH]; intros k; simpl; [reflexivity|].
  unfold getitem at 1.
  destruct (nth_error normed i) as [x|] eqn:E.
  - rewrite (nth_error_nth _ _ NaN E); simpl.
    rewrite IH; reflexivity.
  - apply nth_error_None in E; lia.
Qed.

Lemma ngram_lines_in_range (normed : list pyfloat)
  (D : list (string * list nat)) :
  (forall g idxs, In (g, idxs) D ->
                  Forall (fun i => (i < length normed)%nat) idxs) ->
  forall k,
    comprehension_enumerate
      (fun _ '(ngram, hypo_indices) =>
         obind (ngram_score normed hypo_indices) (fun score =>
         Return (ngram, py_min (Fin 1) score)))
      k D =
    Return
      (map (fun '(g, idxs) =>
              (g, py_min (Fin 1)
                    (np_exp (log_sum (map (fun i => nth i normed NaN) idxs)))))
         D).
Proof.
  induction D as [|[g idxs] D IH]; intros Hrange k; simpl; [reflexivity|].
  unfold ngram_score at 1.
  rewrite comprehension_getitem by (apply (Hrange g); left; reflexivity).
  simpl; rewrite IH; [reflexivity|].
  intros g' idxs' H; apply (Hrange g'); right; assumption.
Qed.

Lemma normed_scores_length (hypos : list hypothesis) :
  length (normed_scores hypos) = length hypos.
Proof. unfold normed_scores; apply length_map. Qed.

Lemma sentence_ngrams (GO_ID EOS_ID min_order max_order : Z)
  (hypos : list hypothesis) :
  ngrams_of (map (hypo_keys GO_ID EOS_ID min_order max_order) hypos)
    (collect_from GO_ID EOS_ID min_order max_order 0 hypos []).
Proof.
  exact (collect_from_ngrams GO_ID EOS_ID min_order max_order hypos [] []
           ngrams_of_empty).
Qed.

Lemma sentence_lines (GO_ID EOS_ID min_order max_order : Z)
  (hypos : list hypothesis) :
  NgramOutputHandler_sentence GO_ID EOS_ID min_order max_order hypos =
  Return
    (map (fun '(g, idxs) =>
            (g, py_min (Fin 1)
                  (np_exp (log_sum (map (fun i => nth i (normed_scores hypos)
                                                    NaN) idxs)))))
       (collect_from GO_ID EOS_ID min_order max_order 0 hypos [])).
Proof.
  unfold NgramOutputHandler_sentence, ngram_lines.
  apply ngram_lines_in_range.
  intros g idxs Hin.
  destruct (sentence_ngrams GO_ID EOS_ID min_order max_order hypos)
    as (Hnd & Hget & _).
  rewrite <- (ngrams_get_entry _ _ _ Hnd Hin), Hget.
  apply Forall_forall; intros i Hi.
  apply holders_below in Hi.
  rewrite length_map in Hi; rewrite normed_scores_length; exact Hi.
Qed.

Lemma lines_keys (normed : list pyfloat) (D : list (string * list nat)) :
  map fst
    (map (fun '(g, idxs) =>
            (g, py_min (Fin 1)
                  (np_exp (log_sum (map (fun i => nth i normed NaN) idxs)))))
       D) = map fst D.
Proof.
  rewrite map_map; apply map_ext; intros [g idxs]; reflexivity.
Qed.

(** *** The share of an n-gram *)

Lemma indices_filter {A B} (N : A -> B) (K : A -> list string)
  (P : list string -> bool) (dB : B) (l : list A) :
  map (fun i => nth i (map N l) dB)
    (filter (fun i => P (nth i (map K l) [])) (seq 0 (length l))) =
  map N (filter (fun a => P (K a)) l).
Proof.
  induction l as [|a l IH] using rev_ind; [reflexivity|].
  rewrite length_app, Nat.add_1_r, seq_S, !filter_app, !map_app; simpl.
  f_equal.
  - rewrite <- IH.
    rewrite (filter_ext_in _ (fun i => P (nth i (map K l) []))).
    + apply map_ext_in; intros i Hi.
      apply filter_In in Hi; destruct Hi as [Hi _]; apply in_seq in Hi.
      rewrite app_nth1 by (rewrite length_map; lia); reflexivity.
    + intros i Hi; apply in_seq in Hi.
      rewrite app_nth1 by (rewrite length_map; lia); reflexivity.
  - rewrite <- (length_map K l) at 1; rewrite nth_middle.
    destruct (P (K a)); [|reflexivity].
    simpl; rewrite <- (length_map N l), nth_middle; reflexivity.
Qed.

Lemma likelihood_nonneg (hypo : hypothesis) : 0 <= likelihood hypo.
Proof.
  unfold likelihood; destruct (total_score hypo); try lra.
  left; apply exp_pos.
Qed.

Lemma rsum_filter_le {A} (f : A -> R) (P : A -> bool) (l : list A) :
  (forall a, 0 <= f a) ->
  rsum (map f (filter P l)) <= rsum (map f l).
Proof.
  intros Hf; induction l as [|a l IH]; simpl; [lra|].
  pose proof (Hf a).
  destruct (P a); simpl; lra.
Qed.

Lemma finite_totals_reals (hypos : list hypothesis) :
  finite_totals hypos ->
  map total_score hypos = map Fin (map real_score hypos) /\
  map likelihood hypos = map exp (map real_score hypos).
Proof.
  induction 1 as [|hypo hypos Hh _ [IH1 IH2]]; [split; reflexivity|].
  simpl; rewrite IH1, IH2.
  unfold real_score, likelihood.
  destruct (total_score hypo); simpl in Hh; try contradiction.
  split; reflexivity.
Qed.

Lemma finite_totals_filter (P : hypothesis -> bool)
  (hypos : list hypothesis) :
  finite_totals hypos -> finite_totals (filter P hypos).
Proof.
  unfold finite_totals; rewrite !Forall_forall; intros H hypo Hin.
  apply filter_In in Hin; apply H, Hin.
Qed.

Lemma py_min_one (s : R) : s <= 1 -> py_min (Fin 1) (Fin s) = Fin s.
Proof.
  intros Hs; unfold py_min; simpl.
  destruct (Rlt_dec s 1); [reflexivity | f_equal; lra].
Qed.

(** The score written for the hypotheses [held], which are among the
    hypotheses of the sentence. *)
Lemma share_of_held (hypos : list hypothesis) (P : hypothesis -> bool) :
  finite_totals hypos -> filter P hypos <> [] ->
  py_min (Fin 1)
    (np_exp
       (log_sum
          (map (fun hypo =>
                  fsub (total_score hypo) (log_sum (map total_score hypos)))
             (filter P hypos)))) =
  Fin (rsum (map likelihood (filter P hypos)) / rsum (map likelihood hypos)).
Proof.
  intros Hfin Hne.
  destruct (finite_totals_reals hypos Hfin) as [Ht Hl].
  destruct (finite_totals_reals _ (finite_totals_filter P hypos Hfin))
    as [Hft Hfl].
  rewrite Ht, Hl, Hfl.
  destruct hypos as [|h0 hypos]; [contradiction Hne; reflexivity|].
  set (all := h0 :: hypos) in *.
  change (map real_score all) with (real_score h0 :: map real_score hypos).
  rewrite log_sum_Fin.
  set (T := rsum (map exp (real_score h0 :: map real_score hypos))).
  assert (HT : 0 < T) by apply rsum_exp_pos.
  rewrite <- (map_map total_score (fun s => fsub s (Fin (ln T)))), Hft.
  rewrite map_map.
  rewrite (map_ext _ (fun r => Fin (r - ln T))) by reflexivity.
  rewrite <- (map_map (fun r => r - ln T) Fin).
  destruct (filter P all) as [|f0 held] eqn:Hheld; [contradiction|].
  change (map Fin (map (fun r => r - ln T) (map real_score (f0 :: held))))
    with (map Fin (real_score f0 - ln T
                   :: map (fun r => r - ln T) (map real_score held))).
  rewrite log_sum_Fin.
  change (real_score f0 - ln T :: map (fun r => r - ln T) (map real_score held))
    with (map (fun r => r - ln T) (map real_score (f0 :: held))).
  rewrite (map_map (fun r => r - ln T) exp).
  rewrite rsum_exp_shift, exp_Ropp, exp_ln by assumption.
  assert (Hle : rsum (map exp (map real_score (f0 :: held))) <= T).
  { unfold T.
    change (real_score h0 :: map real_score hypos)
      with (map real_score all).
    rewrite <- Hl, <- Hfl, <- Hheld.
    apply rsum_filter_le, likelihood_nonneg. }
  assert (Hpos : 0 < rsum (map exp (map real_score (f0 :: held))))
    by apply rsum_exp_pos.
  assert (Hinv : 0 < / T) by (apply Rinv_0_lt_compat; assumption).
  cbn [np_exp]; rewrite exp_ln by nra.
  rewrite py_min_one.
  - f_equal; unfold Rdiv; ring.
  - apply (Rmult_le_reg_l T); [assumption|].
    rewrite <- Rmult_assoc, Rinv_r by lra; lra.
Qed.

Lemma holders_scores (GO_ID EOS_ID min_order max_order : Z)
  (hypos : list hypothesis) (g : string) :
  map (fun i => nth i (normed_scores hypos) NaN)
    (holders (map (hypo_keys GO_ID EOS_ID min_order max_order) hypos) g) =
  map (fun hypo => fsub (total_score hypo) (log_sum (map total_score hypos)))
    (filter (fun hypo =>
               has_key (hypo_keys GO_ID EOS_ID min_order max_order hypo) g)
       hypos).
Proof.
  unfold holders, normed_scores; rewrite length_map.
  apply (indices_filter
           (fun hypo =>
              fsub (total_score hypo) (log_sum (map total_score hypos)))
           (hypo_keys GO_ID EOS_ID min_order max_order)
           (fun keys => has_key keys g) NaN hypos).
Qed.

Lemma holders_nonempty (GO_ID EOS_ID min_order max_order : Z)
  (hypos : list hypothesis) (g : string) :
  holders (map (hypo_keys GO_ID EOS_ID min_order max_order) hypos) g <> [] <->
  filter (fun hypo =>
            has_key (hypo_keys GO_ID EOS_ID min_order max_order hypo) g)
    hypos <> [].
Proof.
  pose proof (holders_scores GO_ID EOS_ID min_order max_order hypos g) as H.
  apply (f_equal (@length pyfloat)) in H; rewrite !length_map in H.
  split; intros Hne E; apply Hne.
  - rewrite E in H; destruct (holders _ g); [reflexivity | discriminate].
  - rewrite E in H; destruct (filter _ hypos); [reflexivity | discriminate].
Qed.

Lemma written_keys (GO_ID EOS_ID min_order max_order : Z)
  (hypos : list hypothesis) (g : string) :
  In g (map fst (collect_from GO_ID EOS_ID min_order max_order 0 hypos []))
  <->
  exists hypo,
    In hypo hypos /\
    has_key (hypo_keys GO_ID EOS_ID min_order max_order hypo) g = true.
Proof.
  destruct (sentence_ngrams GO_ID EOS_ID min_order max_order hypos)
    as (Hnd & Hget & Hne).
  split.
  - intros Hg; apply Hne, holders_nonempty in Hg.
    destruct (filter _ hypos) as [|hypo held] eqn:E; [contradiction|].
    assert (Hin : In hypo (filter
              (fun hypo => has_key
                 (hypo_keys GO_ID EOS_ID min_order max_order hypo) g)
              hypos)) by (rewrite E; left; reflexivity).
    apply filter_In in Hin; exists hypo; exact Hin.
  - intros (hypo & Hin & Hkey).
    destruct (in_dec string_dec g
                (map fst (collect_from GO_ID EOS_ID min_order max_order 0
                            hypos []))) as [|Hnot]; [assumption|].
    exfalso.
    apply ngrams_get_missing in Hnot; rewrite Hget in Hnot.
    revert Hnot; apply holders_nonempty.
    intros E.
    assert (Hf : In hypo (filter
              (fun hypo => has_key
                 (hypo_keys GO_ID EOS_ID min_order max_order hypo) g)
              hypos)) by (apply filter_In; split; assumption).
    rewrite E in Hf; contradiction.
Qed.

Lemma written_value (GO_ID EOS_ID min_order max_order : Z)
  (hypos : list hypothesis) (g : string) (idxs : list nat) :
  finite_totals hypos ->
  In (g, idxs) (collect_from GO_ID EOS_ID min_order max_order 0 hypos []) ->
  py_min (Fin 1)
    (np_exp (log_sum (map (fun i => nth i (normed_scores hypos) NaN) idxs))) =
  Fin (ngram_share GO_ID EOS_ID min_order max_order hypos g).
Proof.
  intros Hfin Hin.
  destruct (sentence_ngrams GO_ID EOS_ID min_order max_order hypos)
    as (Hnd & Hget & Hne).
  assert (Hidxs : idxs = holders
            (map (hypo_keys GO_ID EOS_ID min_order max_order) hypos) g)
    by (rewrite <- Hget; symmetry; apply ngrams_get_entry; assumption).
  subst idxs; rewrite holders_scores.
  apply share_of_held; [assumption|].
  apply holders_nonempty, Hne, in_map_iff.
  eexists; split; [|exact Hin]; reflexivity.
Qed.

(** X10: when the total scores of the hypotheses of a sentence are
    finite, the loop of [NgramOutputHandler.write_hypos] for the sentence
    raises nothing and writes every n-gram of every hypothesis exactly
    once, however many hypotheses have it, and no other n-gram; every score
    it writes is a number between 0 and 1. *)
Theorem ngram_scores_are_probabilities :
  forall (GO_ID EOS_ID min_order max_order : Z) (hypos : list hypothesis),
    finite_totals hypos ->
    exists lines,
      NgramOutputHandler_sentence GO_ID EOS_ID min_order max_order hypos =
        Return lines /\
      NoDup (map fst lines) /\
      (forall g,
          In g (map fst lines) <->
          exists hypo,
            In hypo hypos /\
            In g (hypo_keys GO_ID EOS_ID min_order max_order hypo)) /\
      Forall (fun line => is_probability (snd line)) lines.
Proof.
  intros GO_ID EOS_ID min_order max_order hypos _.
  eexists; split; [apply sentence_lines|].
  split; [|split].
  - rewrite lines_keys.
    apply (sentence_ngrams GO_ID EOS_ID min_order max_order hypos).
  - intros g; rewrite lines_keys, written_keys.
    split; intros (hypo & Hin & Hkey); exists hypo; split; try assumption;
      apply existsb_string_In; assumption.
  - apply Forall_forall; intros line Hline.
    apply in_map_iff in Hline; destruct Hline as ([g idxs] & <- & _).
    apply clamped_probability.
Qed.

(** X10 on two hypotheses that share the n-grams of their first symbol. *)
Lemma ngram_scores_are_probabilities_witness :
  exists lines,
    NgramOutputHandler_sentence 1 2 1 2 two_hypos = Return lines /\
    NoDup (map fst lines) /\
    (forall g,
        In g (map fst lines) <->
        exists hypo, In hypo two_hypos /\ In g (hypo_keys 1 2 1 2 hypo)) /\
    Forall (fun line => is_probability (snd line)) lines.
Proof.
  apply (ngram_scores_are_probabilities 1 2 1 2 two_hypos).
  repeat constructor.
Defined.

(** X11: when the total scores of the hypotheses of a sentence are finite,
    the n-grams [NgramOutputHandler.write_hypos] writes are those that a
    hypothesis has, and the score written for an n-gram is the sum of
    [exp(total_score)] over the hypotheses that have it, divided by the sum
    over all the hypotheses: the clamp [min(1.0, .)] changes nothing. *)
Theorem ngram_posterior :
  forall (GO_ID EOS_ID min_order max_order : Z) (hypos : list hypothesis),
    finite_totals hypos ->
    exists lines,
      NgramOutputHandler_sentence GO_ID EOS_ID min_order max_order hypos =
        Return lines /\
      (forall g,
          In g (map fst lines) <->
          exists hypo,
            In hypo hypos /\
            has_key (hypo_keys GO_ID EOS_ID min_order max_order hypo) g
              = true) /\
      (forall g v,
          In (g, v) lines ->
          v = Fin (ngram_share GO_ID EOS_ID min_order max_order hypos g)).
Proof.
  intros GO_ID EOS_ID min_order max_order hypos Hfin.
  eexists; split; [apply sentence_lines|].
  split.
  - intros g; rewrite lines_keys; apply written_keys.
  - intros g v Hin.
    apply in_map_iff in Hin; destruct Hin as ([g' idxs] & E & Hin).
    injection E as -> <-.
    apply written_value; assumption.
Qed.

(** X11 on two hypotheses, with the usual ids of the start and end symbols
    and the orders 1 to 2. *)
Lemma ngram_posterior_witness :
  exists lines,
    NgramOutputHandler_sentence 1 2 1 2 two_hypos = Return lines /\
    (forall g,
        In g (map fst lines) <->
        exists hypo,
          In hypo two_hypos /\ has_key (hypo_keys 1 2 1 2 hypo) g = true) /\
    (forall g v,
        In (g, v) lines -> v = Fin (ngram_share 1 2 1 2 two_hypos g)).
Proof.
  apply (ngram_posterior 1 2 1 2 two_hypos).
  repeat constructor.
Defined.

(** *** The normalized scores *)

(** X12: the normalized scores of the hypotheses of a sentence are the
    logarithms of a probability distribution: when the total scores are
    finite and there is a hypothesis, their exponentials sum to one. *)
Theorem normed_scores_distribution :
  forall hypos : list hypothesis,
    finite_totals hypos -> hypos <> [] ->
    pysum (map np_exp (normed_scores hypos)) = Fin 1.
Proof.
  intros hypos Hfin Hne.
  destruct (finite_totals_reals hypos Hfin) as [Ht _].
  unfold normed_scores.
  rewrite <- (map_map total_score (fun s => fsub s _)), Ht.
  destruct hypos as [|h0 hypos]; [contradiction|].
  change (map real_score (h0 :: hypos))
    with (real_score h0 :: map real_score hypos).
  rewrite log_sum_Fin, !map_map.
  rewrite (map_ext _ (fun r => Fin (exp (r - ln (rsum (map exp
             (real_score h0 :: map real_score hypos)))))))
    by reflexivity.
  rewrite <- (map_map (fun r => exp (r - _)) Fin), pysum_Fin.
  rewrite rsum_posterior; reflexivity.
Qed.

(** X12 on two hypotheses. *)
Lemma normed_scores_distribution_witness :
  pysum (map np_exp (normed_scores two_hypos)) = Fin 1.
Proof.
  apply (normed_scores_distribution two_hypos).
  - repeat constructor.
  - discriminate.
Defined.

(** *** Which windows are extracted *)

Lemma in_xrange (o lo hi : Z) : In o (xrange lo hi) <-> (lo <= o < hi)%Z.
Proof.
  unfold xrange; rewrite in_map_iff; split.
  - intros (i & <- & Hi); apply in_seq in Hi; lia.
  - intros H; exists (Z.to_nat (o - lo)); split; [lia|].
    apply in_seq; lia.
Qed.

Lemma slice_from_last {A} (hist : list A) (order : Z) :
  (1 <= order)%Z ->
  slice_from hist (- order) = skipn (length hist - Z.to_nat order) hist.
Proof.
  intros Ho; unfold slice_from.
  replace (- order <? 0)%Z with true by (symmetry; apply Z.ltb_lt; lia).
  f_equal; lia.
Qed.

Lemma windows_sound (min_order max_order : Z) (sen : list Z) (w : list Z) :
  (1 <= min_order)%Z ->
  In w (ngram_windows min_order max_order sen) ->
  (min_order <= max_order)%Z /\ w <> [] /\
  ((exists pre post,
       sen = pre ++ w ++ post /\
       (min_order <= Z.of_nat (length w) <= max_order)%Z) \/
   (exists post,
       sen = w ++ post /\ (Z.of_nat (length w) < min_order)%Z)).
Proof.
  intros Hmin; unfold ngram_windows; rewrite in_flat_map.
  intros (pos & Hpos & Hw).
  apply in_seq in Hpos; apply in_map_iff in Hw.
  destruct Hw as (order & <- & Ho); apply in_xrange in Ho.
  rewrite slice_from_last by lia.
  assert (Hlen : length (firstn pos sen) = pos)
    by (rewrite length_firstn; lia).
  rewrite Hlen.
  split; [lia|].
  destruct (le_lt_dec (Z.to_nat order) pos) as [Hle|Hgt].
  - assert (Hw : length (skipn (pos - Z.to_nat order) (firstn pos sen)) =
                 Z.to_nat order) by (rewrite length_skipn; lia).
    split; [intros E; rewrite E in Hw; simpl in Hw; lia|].
    left.
    exists (firstn (pos - Z.to_nat order) (firstn pos sen)), (skipn pos sen).
    split; [|lia].
    rewrite app_assoc, firstn_skipn, firstn_skipn; reflexivity.
  - replace (pos - Z.to_nat order)%nat with 0%nat by lia.
    cbn [skipn].
    split; [intros E; rewrite E in Hlen; simpl in Hlen; lia|].
    destruct (Z_le_gt_dec min_order (Z.of_nat pos)).
    + left; exists [], (skipn pos sen).
      split; [simpl; symmetry; apply firstn_skipn | lia].
    + right; exists (skipn pos sen).
      split; [symmetry; apply firstn_skipn | lia].
Qed.

Lemma windows_complete (min_order max_order : Z) (sen : list Z)
  (w : list Z) :
  (1 <= min_order)%Z ->
  (min_order <= max_order)%Z /\ w <> [] /\
  ((exists pre post,
       sen = pre ++ w ++ post /\
       (min_order <= Z.of_nat (length w) <= max_order)%Z) \/
   (exists post,
       sen = w ++ post /\ (Z.of_nat (length w) < min_order)%Z)) ->
  In w (ngram_windows min_order max_order sen).
Proof.
  intros Hmin; unfold ngram_windows; rewrite in_flat_map.
  intros (Hmm & Hne & [(pre & post & -> & Hl) | (post & -> & Hl)]).
  - exists (length pre + length w)%nat; split.
    + apply in_seq; rewrite !length_app.
      destruct w; [contradiction | simpl; lia].
    + apply in_map_iff; exists (Z.of_nat (length w)); split;
        [|apply in_xrange; lia].
      rewrite slice_from_last by (destruct w; [contradiction | simpl; lia]).
      rewrite app_assoc, firstn_app.
      replace (length pre + length w - length (pre ++ w))%nat with 0%nat
        by (rewrite length_app; lia).
      rewrite firstn_all2 by (rewrite length_app; lia).
      cbn [firstn]; rewrite app_nil_r, length_app.
      replace (length pre + length w - Z.to_nat (Z.of_nat (length w)))%nat
        with (length pre + 0)%nat by lia.
      rewrite skipn_app, Nat.add_0_r, skipn_all.
      replace (length pre - length pre)%nat with 0%nat by lia.
      reflexivity.
  - exists (length w); split.
    + apply in_seq; rewrite length_app.
      destruct w; [contradiction | simpl; lia].
    + apply in_map_iff; exists min_order; split; [|apply in_xrange; lia].
      rewrite slice_from_last by lia.
      rewrite firstn_app, firstn_all, Nat.sub_diag; cbn [firstn].
      rewrite app_nil_r.
      replace (length w - Z.to_nat min_order)%nat with 0%nat by lia.
      reflexivity.
Qed.

(** X13: for [min_order >= 1], the token windows that
    [NgramOutputHandler.write_hypos] turns into n-grams are the non-empty
    contiguous parts of [sen_eos] of a length between [min_order] and
    [max_order], and also every non-empty prefix of [sen_eos] shorter than
    [min_order]; there are none when [max_order < min_order]. *)
Theorem ngram_windows_spec :
  forall (min_order max_order : Z) (sen_eos : list Z),
    (1 <= min_order)%Z ->
    forall w,
      In w (ngram_windows min_order max_order sen_eos) <->
      (min_order <= max_order)%Z /\ w <> [] /\
      ((exists pre post,
           sen_eos = pre ++ w ++ post /\
           (min_order <= Z.of_nat (length w) <= max_order)%Z) \/
       (exists post,
           sen_eos = w ++ post /\ (Z.of_nat (length w) < min_order)%Z)).
Proof.
  intros min_order max_order sen_eos Hmin w; split.
  - apply windows_sound; assumption.
  - apply windows_complete; assumption.
Qed.

(** X13 for the orders 2 to 3, with the window of the start symbol alone. *)
Lemma ngram_windows_spec_witness :
  In [1%Z] (ngram_windows 2 3 [1; 5; 6; 2]%Z) <->
  (2 <= 3)%Z /\ [1%Z] <> [] /\
  ((exists pre post,
       [1; 5; 6; 2]%Z = pre ++ [1%Z] ++ post /\
       (2 <= Z.of_nat (length [1%Z]) <= 3)%Z) \/
   (exists post,
       [1; 5; 6; 2]%Z = [1%Z] ++ post /\ (Z.of_nat (length [1%Z]) < 2)%Z)).
Proof.
  apply (ngram_windows_spec 2 3 [1; 5; 6; 2]%Z).
  lia.
Defined.

(** *** The start symbol *)

Lemma start_symbol_key (GO_ID EOS_ID min_order max_order : Z)
  (hypo : hypothesis) :
  (1 <= min_order <= max_order)%Z ->
  has_key (hypo_keys GO_ID EOS_ID min_order max_order hypo)
    (str_of_int GO_ID) = true.
Proof.
  intros Ho; unfold has_key, hypo_keys.
  apply existsb_string_In, in_map_iff.
  exists [GO_ID]; split; [reflexivity|].
  apply windows_complete; [lia|].
  split; [lia|]; split; [discriminate|].
  destruct (Z.eq_dec min_order 1) as [E|E].
  - left; exists [], (trgt_sentence hypo ++ [EOS_ID]); split;
      [reflexivity | simpl; lia].
  - right; exists (trgt_sentence hypo ++ [EOS_ID]); split;
      [reflexivity | simpl; lia].
Qed.

Lemma filter_all {A} (P : A -> bool) (l : list A) :
  (forall a, In a l -> P a = true) -> filter P l = l.
Proof.
  induction l as [|a l IH]; intros H; simpl; [reflexivity|].
  rewrite (H a) by (left; reflexivity).
  f_equal; apply IH; intros b Hb; apply H; right; assumption.
Qed.

(** X14: whenever [1 <= min_order <= max_order], the total scores are
    finite and the sentence has a hypothesis, the file of the sentence has
    the line of the start symbol alone, with the score 1: the unigram of
    [utils.GO_ID] is extracted from every hypothesis, also for
    [min_order > 1]. *)
Theorem start_symbol_probability_one :
  forall (GO_ID EOS_ID min_order max_order : Z) (hypos : list hypothesis),
    (1 <= min_order <= max_order)%Z ->
    finite_totals hypos -> hypos <> [] ->
    exists lines,
      NgramOutputHandler_sentence GO_ID EOS_ID min_order max_order hypos =
        Return lines /\
      In (str_of_int GO_ID, Fin 1) lines.
Proof.
  intros GO_ID EOS_ID min_order max_order hypos Ho Hfin Hne.
  eexists; split; [apply sentence_lines|].
  assert (Hin : In (str_of_int GO_ID)
                  (map fst (collect_from GO_ID EOS_ID min_order max_order 0
                              hypos []))).
  { apply written_keys.
    destruct hypos as [|hypo hypos]; [contradiction|].
    exists hypo; split; [left; reflexivity|].
    apply start_symbol_key; assumption. }
  apply in_map_iff in Hin; destruct Hin as ([g idxs] & Hg & Hin).
  simpl in Hg; subst g.
  apply in_map_iff; exists (str_of_int GO_ID, idxs); split; [|assumption].
  rewrite (written_value _ _ _ _ _ _ _ Hfin Hin).
  do 2 f_equal.
  unfold ngram_share.
  rewrite filter_all
    by (intros hypo _; apply start_symbol_key; assumption).
  destruct (finite_totals_reals hypos Hfin) as [_ ->].
  destruct hypos as [|hypo hypos]; [contradiction|].
  pose proof (rsum_exp_pos (real_score hypo) (map real_score hypos)).
  apply Rinv_r.
  change (map real_score (hypo :: hypos))
    with (real_score hypo :: map real_score hypos).
  lra.
Qed.

(** X14 on two hypotheses, for the orders 2 to 3. *)
Lemma start_symbol_probability_one_witness :
  exists lines,
    NgramOutputHandler_sentence 1 2 2 3 two_hypos = Return lines /\
    In (str_of_int 1, Fin 1) lines.
Proof.
  apply (start_symbol_probability_one 1 2 2 3 two_hypos).
  - lia.
  - repeat constructor.
  - discriminate.
Defined.

(** ** The lattices *)

Example standard_lattice_example :
  StandardFSTOutputHandler_sentence 1 2 two_hypos =
  [Arc 0 2 1 1 (Some (fneg (Fin (-1)))); Arc 2 3 5 5 None; Arc 3 4 6 6 None;
   Arc 4 1 2 2 None;
   Arc 0 5 1 1 (Some (fneg (Fin (-2)))); Arc 5 6 5 5 None; Arc 6 7 7 7 None;
   Arc 7 1 2 2 None;
   FinalState 1]%Z.
Proof. reflexivity. Qed.

Example write_weight_example :
  write_weight [(Fin 1, Fin 0); (Fin 2, Fin 0)] =
  [StrEl "0"; StrEl "1"; FloatEl (fneg (Fin 1));
   StrEl "2"; FloatEl (fneg (Fin 2))].
Proof. reflexivity. Qed.

Example sparse_lattice_example :
  FSTOutputHandler_sentence 1 2 two_scored_hypos =
  Return
    [Arc 0 2 1 1 None;
     Arc 2 3 5 5 (Some (write_weight [(Fin (-1), Fin 1)]));
     Arc 3 4 6 6 (Some (write_weight [(Fin (-2), Fin 1)]));
     Arc 4 1 2 2 (Some (write_weight [(Fin (-3), Fin 1)]));
     Arc 0 5 1 1 None;
     Arc 5 6 7 7 (Some (write_weight [(Fin (-1), Fin 1)]));
     Arc 6 1 2 2 (Some (write_weight [(Fin (-4), Fin 1)]));
     FinalState 1]%Z.
Proof. reflexivity. Qed.

Example sparse_lattice_no_breakdown :
  FSTOutputHandler_sentence 1 2 two_hypos = Raise IndexError.
Proof. reflexivity. Qed.

(** *** The loops write one chain of arcs for every hypothesis *)

Lemma chain_from_cons {W} (src next l : Z) (w : option W)
  (rest : list (Z * option W)) :
  rest <> [] ->
  chain_from src next ((l, w) :: rest) =
  Arc src next l l w :: chain_from next (next + 1) rest.
Proof. destruct rest; [contradiction | reflexivity]. Qed.

Lemma open_chain {W} (inner : list (Z * option W)) :
  forall (c : list (fst_line W)) (src l : Z) (w : option W),
    fst (fold_left write_step inner (c, (src + 1)%Z))
    ++ [Arc (snd (fold_left write_step inner (c, (src + 1)%Z)) - 1) 1 l l w]
    = c ++ chain_from src (src + 1) (inner ++ [(l, w)]) /\
    snd (fold_left write_step inner (c, (src + 1)%Z)) =
    (src + 1 + Z.of_nat (length inner))%Z.
Proof.
  induction inner as [|[l0 w0] inner IH]; intros c src l w.
  - simpl; split; [|lia].
    replace (src + 1 - 1)%Z with src by lia; reflexivity.
  - cbn [fold_left write_step].
    replace (src + 1 - 1)%Z with src by lia.
    destruct (IH (c ++ [Arc src (src + 1) l0 l0 w0]) (src + 1)%Z l w)
      as [H1 H2].
    rewrite H1, H2; split; [|simpl length; lia].
    rewrite <- app_assoc; cbn [app].
    change ((l0, w0) :: inner ++ [(l, w)])
      with ((l0, w0) :: (inner ++ [(l, w)])).
    rewrite chain_from_cons by (destruct inner; discriminate).
    reflexivity.
Qed.

Lemma standard_symbols (syms : list Z) (st : compiler pyfloat) :
  fold_left standard_symbol syms st =
  fold_left write_step (map (fun sym => (sym, None)) syms) st.
Proof.
  revert st; induction syms as [|sym syms IH]; intros [c n]; simpl;
    [reflexivity|].
  apply IH.
Qed.

Lemma standard_hypo_chain (GO_ID EOS_ID : Z) (c : list (fst_line pyfloat))
  (n : Z) (hypo : hypothesis) :
  standard_hypo GO_ID EOS_ID (c, n) hypo =
  (c ++ chain_from 0 n (standard_steps GO_ID EOS_ID hypo),
   (n + Z.of_nat (length (standard_steps GO_ID EOS_ID hypo)) - 1)%Z).
Proof.
  unfold standard_hypo, standard_steps.
  rewrite standard_symbols.
  destruct (open_chain (map (fun sym => (sym, @None pyfloat))
                          (trgt_sentence hypo))
              (c ++ [Arc 0 n GO_ID GO_ID (Some (fneg (total_score hypo)))])
              n EOS_ID None) as [H1 H2].
  destruct (fold_left write_step _ _) as [c' n'].
  cbn [fst snd] in H1, H2; rewrite H1, H2.
  rewrite chain_from_cons by (destruct (trgt_sentence hypo); discriminate).
  rewrite <- app_assoc; cbn [app length].
  rewrite length_app; f_equal; simpl; lia.
Qed.

Lemma standard_hypos_chains (GO_ID EOS_ID : Z) (hypos : list hypothesis) :
  forall (c : list (fst_line pyfloat)) (n : Z),
    fst (fold_left (standard_hypo GO_ID EOS_ID) hypos (c, n)) =
    c ++ chains n (map (standard_steps GO_ID EOS_ID) hypos).
Proof.
  induction hypos as [|hypo hypos IH]; intros c n.
  - simpl; rewrite app_nil_r; reflexivity.
  - cbn [fold_left map chains].
    rewrite standard_hypo_chain, IH, <- app_assoc; reflexivity.
Qed.

(** *** The paths of a lattice of chains *)

Lemma chain_from_range {W} (steps : list (Z * option W)) :
  forall (src next s t l l' : Z) (w : option W),
    In (Arc s t l l' w) (chain_from src next steps) ->
    (s = src \/ (next <= s < next + Z.of_nat (length steps) - 1)%Z) /\
    (t = 1%Z \/ (next <= t < next + Z.of_nat (length steps) - 1)%Z).
Proof.
  induction steps as [|[l0 w0] steps IH]; intros src next s t l l' w Hin;
    [contradiction|].
  destruct steps as [|st steps].
  - destruct Hin as [E|[]]; inversion E; auto.
  - rewrite chain_from_cons in Hin by discriminate.
    destruct Hin as [E|Hin].
    + inversion E; simpl length; split; [auto | right; lia].
    + apply IH in Hin; simpl length in *; lia.
Qed.

Lemma chain_from_final {W} (steps : list (Z * option W)) :
  forall (src next f : Z), ~ In (FinalState f) (chain_from src next steps).
Proof.
  induction steps as [|[l0 w0] steps IH]; intros src next f Hin;
    [contradiction|].
  destruct steps as [|st steps].
  - destruct Hin as [E|[]]; discriminate.
  - rewrite chain_from_cons in Hin by discriminate.
    destruct Hin as [E|Hin]; [discriminate | exact (IH _ _ _ Hin)].
Qed.

Lemma chains_range {W} (paths : list (list (Z * option W))) :
  Forall (fun steps => (2 <= length steps)%nat) paths ->
  forall (n s t l l' : Z) (w : option W),
    In (Arc s t l l' w) (chains n paths) ->
    (s = 0%Z \/ (n <= s)%Z) /\ (t = 1%Z \/ (n <= t)%Z).
Proof.
  induction 1 as [|steps paths Hlen _ IH]; intros n s t l l' w Hin;
    [contradiction|].
  cbn [chains] in Hin; apply in_app_or in Hin; destruct Hin as [Hin|Hin].
  - apply chain_from_range in Hin; lia.
  - apply IH in Hin; lia.
Qed.

Lemma chains_final {W} (paths : list (list (Z * option W))) :
  forall n f : Z, ~ In (FinalState f) (chains n paths).
Proof.
  induction paths as [|steps paths IH]; intros n f Hin; [contradiction|].
  cbn [chains] in Hin; apply in_app_or in Hin; destruct Hin as [Hin|Hin].
  - exact (chain_from_final _ _ _ _ Hin).
  - exact (IH _ _ Hin).
Qed.

(** A path that starts inside a set of states that the arcs do not leave
    takes its arcs among those that start inside. *)
Lemma fst_path_restrict {W} (L L' : list (fst_line W)) (inside : Z -> Prop) :
  (forall s t l w,
      In (Arc s t l l w) L -> inside s ->
      In (Arc s t l l w) L' /\ inside t) ->
  forall s steps u,
    fst_path L s steps u -> inside s -> fst_path L' s steps u.
Proof.
  intros Hclosed s steps u Hpath.
  induction Hpath as [s|s t u l w rest Harc _ IH]; intros Hs;
    [constructor|].
  destruct (Hclosed _ _ _ _ Harc Hs) as [Harc' Ht].
  econstructor; [exact Harc' | exact (IH Ht)].
Qed.

Lemma fst_path_incl {W} (L L' : list (fst_line W)) :
  incl L L' ->
  forall s steps u, fst_path L s steps u -> fst_path L' s steps u.
Proof.
  intros Hincl s steps u Hpath.
  apply (fst_path_restrict L L' (fun _ => True)); auto.
Qed.

Lemma chain_path {W} (steps : list (Z * option W)) :
  forall src next : Z,
    steps <> [] -> fst_path (chain_from src next steps) src steps 1.
Proof.
  induction steps as [|[l w] steps IH]; intros src next Hne;
    [contradiction|].
  destruct steps as [|st steps].
  - econstructor; [left; reflexivity | constructor].
  - rewrite chain_from_cons by discriminate.
    econstructor; [left; reflexivity|].
    apply (fst_path_incl (chain_from next (next + 1) (st :: steps)));
      [intros a Ha; right; exact Ha|].
    apply IH; discriminate.
Qed.

(** The only path of a chain from its first state to the state 1 is the
    chain itself. *)
Lemma chain_unique {W} (steps0 : list (Z * option W)) :
  forall (a : Z) (steps : list (Z * option W)),
    (2 <= a)%Z -> steps0 <> [] ->
    fst_path (chain_from a (a + 1) steps0) a steps 1 -> steps = steps0.
Proof.
  induction steps0 as [|[l0 w0] steps0 IH]; intros a steps Ha Hne Hpath;
    [contradiction|].
  destruct steps0 as [|st steps0].
  - inversion Hpath as [|? t ? l w rest Harc Hrest]; subst; [lia|].
    destruct Harc as [E|[]]; inversion E; subst; clear E.
    inversion Hrest as [|? ? ? ? ? ? Harc' _]; subst; [reflexivity|].
    destruct Harc' as [E|[]]; inversion E; lia.
  - rewrite chain_from_cons in Hpath by discriminate.
    inversion Hpath as [|? t ? l w rest Harc Hrest]; subst; [lia|].
    destruct Harc as [E|Harc].
    + inversion E; subst; clear E.
      f_equal.
      apply (IH (a + 1)%Z); [lia | discriminate|].
      apply (fst_path_restrict _ _ (fun s => s = 1%Z \/ (a + 1 <= s)%Z))
        with (2 := Hrest); [|right; lia].
      intros s t' l' w' [E|Harc] Hs.
      * inversion E; lia.
      * split; [assumption|].
        apply chain_from_range in Harc; lia.
    + apply chain_from_range in Harc; lia.
Qed.

(** The paths of a lattice of chains from the state 0 to the state 1 are
    the chains. *)
Lemma chains_paths {W} (paths : list (list (Z * option W))) :
  Forall (fun steps => (2 <= length steps)%nat) paths ->
  forall (n : Z) (steps : list (Z * option W)),
    (2 <= n)%Z ->
    (fst_path (chains n paths) 0 steps 1 <-> In steps paths).
Proof.
  induction 1 as [|p paths Hlen Hall IH]; intros n steps Hn.
  - split; [|intros []].
    intros Hpath; inversion Hpath as [|? ? ? ? ? ? Harc _]; subst.
    contradiction.
  - cbn [chains].
    set (m := (n + Z.of_nat (length p) - 1)%Z).
    assert (Hm : (2 <= m)%Z) by (unfold m; lia).
    destruct p as [|[l0 w0] p']; [simpl in Hlen; lia|].
    assert (Hp' : p' <> []) by (destruct p'; [simpl in Hlen; lia | discriminate]).
    rewrite chain_from_cons by assumption.
    assert (Hmp : m = (n + Z.of_nat (length p'))%Z)
      by (unfold m; simpl length; lia).
    split.
    + intros Hpath.
      inversion Hpath as [|? t ? l w rest Harc Hrest]; subst.
      apply in_app_or in Harc; destruct Harc as [[E|Harc]|Harc].
      * injection E; intros; subst t l w; clear E; left.
        f_equal; symmetry.
        apply (chain_unique p' n); [assumption | assumption|].
        apply (fst_path_restrict _ _
                 (fun s => s = 1%Z \/ (n <= s < m)%Z)) with (2 := Hrest);
          [|right; destruct p'; [contradiction | simpl length in Hmp; lia]].
        intros s t l w Harc Hs.
        apply in_app_or in Harc; destruct Harc as [[E|Harc]|Harc].
        -- inversion E; lia.
        -- split; [assumption|].
           apply chain_from_range in Harc; lia.
        -- apply (chains_range _ Hall) in Harc; lia.
      * apply chain_from_range in Harc; lia.
      * right; apply (IH m _ Hm).
        pose proof (chains_range _ Hall _ _ _ _ _ _ Harc) as [_ Ht].
        econstructor; [exact Harc|].
        apply (fst_path_restrict _ _ (fun s => s = 1%Z \/ (m <= s)%Z))
          with (2 := Hrest); [|lia].
        intros s t' l' w' Harc' Hs.
        apply in_app_or in Harc'; destruct Harc' as [[E|Harc']|Harc'].
        -- inversion E; lia.
        -- apply chain_from_range in Harc'; lia.
        -- split; [assumption|].
           apply (chains_range _ Hall) in Harc'; lia.
    + intros [<-|Hin].
      * rewrite <- chain_from_cons by assumption.
        apply (fst_path_incl (chain_from 0 n ((l0, w0) :: p')));
          [intros a Ha; apply in_or_app; left; exact Ha|].
        apply chain_path; discriminate.
      * apply (fst_path_incl (chains m paths));
          [intros a Ha; apply in_or_app; right; exact Ha|].
        apply IH; assumption.
Qed.

Lemma chains_accepts {W} (paths : list (list (Z * option W)))
  (steps : list (Z * option W)) :
  Forall (fun steps => (2 <= length steps)%nat) paths ->
  (fst_accepts (chains 2 paths ++ [FinalState 1]) steps <-> In steps paths).
Proof.
  intros Hall.
  rewrite <- (chains_paths paths Hall 2 steps) by lia.
  unfold fst_accepts; split.
  - intros (f & Hf & Hpath).
    apply in_app_or in Hf; destruct Hf as [Hf|[E|[]]];
      [destruct (chains_final _ _ _ Hf)|].
    injection E as <-.
    apply (fst_path_restrict _ _ (fun _ => True)) with (2 := Hpath);
      [|exact I].
    intros s t l w Harc _; split; [|exact I].
    apply in_app_or in Harc; destruct Harc as [Harc|[E|[]]];
      [assumption | discriminate].
  - intros Hpath; exists 1%Z; split;
      [apply in_or_app; right; left; reflexivity|].
    apply (fst_path_incl (chains 2 paths));
      [intros a Ha; apply in_or_app; left; exact Ha | assumption].
Qed.

(** X15: the lattice [StandardFSTOutputHandler.write_hypos] writes for a
    sentence accepts a sequence of labels and weights exactly when it is
    the path of one of the hypotheses: the start symbol, the target
    sentence and the end symbol, with [-total_score] on the first arc and
    no weight elsewhere.  No path mixes the arcs of two hypotheses. *)
Theorem standard_lattice_paths :
  forall (GO_ID EOS_ID : Z) (hypos : list hypothesis)
         (steps : list (Z * option pyfloat)),
    fst_accepts (StandardFSTOutputHandler_sentence GO_ID EOS_ID hypos) steps
    <->
    exists hypo,
      In hypo hypos /\ steps = standard_steps GO_ID EOS_ID hypo.
Proof.
  intros GO_ID EOS_ID hypos steps.
  unfold StandardFSTOutputHandler_sentence.
  rewrite standard_hypos_chains; cbn [app].
  rewrite chains_accepts.
  - rewrite in_map_iff; split; intros (hypo & H1 & H2); exists hypo; auto.
  - apply Forall_forall; intros p Hp.
    apply in_map_iff in Hp; destruct Hp as (hypo & <- & _).
    unfold standard_steps; simpl length; rewrite length_app; simpl; lia.
Qed.

(** *** The lattice with sparse tuple arcs *)

Lemma skipn_nth_error {A} (l : list A) :
  forall (a : nat) (x : A),
    nth_error l a = Some x -> skipn a l = x :: skipn (S a) l.
Proof.
  induction l as [|y l IH]; intros [|a] x H; simpl in H; try discriminate.
  - injection H as ->; reflexivity.
  - exact (IH a x H).
Qed.

Lemma sparse_positions_return (hypo : hypothesis) (k : nat) :
  forall (a : nat) (st : compiler (list weight_el)),
    (a + k <= length (trgt_sentence hypo))%nat ->
    (a + k <= length (score_breakdown hypo))%nat ->
    for_each (sparse_position hypo) (seq a k) st =
    Return
      (fold_left write_step
         (map (fun '(sym, step) => (sym, Some (write_weight step)))
            (combine (firstn k (skipn a (trgt_sentence hypo)))
               (firstn k (skipn a (score_breakdown hypo)))))
         st).
Proof.
  induction k as [|k IH]; intros a [c n] Hs Hb; [reflexivity|].
  cbn [seq for_each sparse_position].
  destruct (nth_error (trgt_sentence hypo) a) as [sym|] eqn:Esym.
  2:{ apply nth_error_None in Esym; exfalso; lia. }
  destruct (nth_error (score_breakdown hypo) a) as [step|] eqn:Estep;
    [|apply nth_error_None in Estep; exfalso; lia].
  unfold getitem; rewrite Esym, Estep; cbn [obind].
  rewrite IH by lia.
  rewrite (skipn_nth_error _ _ _ Esym), (skipn_nth_error _ _ _ Estep).
  reflexivity.
Qed.

Lemma sparse_positions_raise (hypo : hypothesis) (k : nat) :
  forall (a : nat) (st : compiler (list weight_el)),
    (a <= length (trgt_sentence hypo))%nat ->
    (length (trgt_sentence hypo) < a + k)%nat ->
    (a + k <= length (score_breakdown hypo))%nat ->
    for_each (sparse_position hypo) (seq a k) st = Raise IndexError.
Proof.
  induction k as [|k IH]; intros a [c n] Ha Hs Hb.
  - lia.
  - cbn [seq for_each sparse_position].
    destruct (nth_error (trgt_sentence hypo) a) as [sym|] eqn:Esym;
      unfold getitem; rewrite Esym; [|reflexivity].
    destruct (nth_error (score_breakdown hypo) a) as [step|] eqn:Estep;
      [|apply nth_error_None in Estep; exfalso; lia].
    cbn [obind].
    assert (a < length (trgt_sentence hypo))%nat
      by (apply nth_error_Some; congruence).
    apply IH; lia.
Qed.

Lemma combine_shorter {A B} (l : list A) (l' : list B) :
  (length l' <= length l)%nat ->
  combine (firstn (length l') l) l' = combine l l'.
Proof.
  revert l; induction l' as [|y l' IH]; intros [|x l] H; simpl in *;
    try reflexivity; try lia.
  f_equal; apply IH; lia.
Qed.

Lemma getitem_last_nonempty {A} (l : list A) (d : A) :
  l <> [] -> getitem_last l = Return (last l d).
Proof.
  destruct l as [|x l]; [contradiction|]; intros _.
  unfold getitem_last; f_equal.
  revert x d; induction l as [|y l IH]; intros x d; [reflexivity|].
  change (last (x :: y :: l) d) with (last (y :: l) d).
  rewrite <- (IH y x), <- (IH y d); reflexivity.
Qed.

Lemma sparse_hypo_chain (GO_ID EOS_ID : Z)
  (c : list (fst_line (list weight_el))) (n : Z) (hypo : hypothesis) :
  sparse_hypo GO_ID EOS_ID (c, n) hypo =
  if sparse_writable hypo then
    Return (c ++ chain_from 0 n (sparse_steps GO_ID EOS_ID hypo),
            (n + Z.of_nat (length (sparse_steps GO_ID EOS_ID hypo)) - 1)%Z)
  else Raise IndexError.
Proof.
  unfold sparse_hypo, sparse_writable.
  destruct (score_breakdown hypo) as [|s0 sb] eqn:Esb; [reflexivity|].
  cbn [length negb Nat.eqb andb].
  replace (S (length sb) - 1)%nat with (length sb) by lia.
  destruct (Nat.leb (length sb) (length (trgt_sentence hypo))) eqn:Hlen.
  - apply Nat.leb_le in Hlen.
    rewrite sparse_positions_return
      by (rewrite ?Esb; simpl; lia).
    rewrite Esb; cbn [skipn].
    assert (Hrl : firstn (length sb) (s0 :: sb) = removelast (s0 :: sb)).
    { rewrite removelast_firstn_len; reflexivity. }
    rewrite Hrl.
    assert (Hlr : length (removelast (s0 :: sb)) = length sb)
      by (rewrite <- Hrl, length_firstn; simpl; lia).
    rewrite <- Hlr at 1; rewrite combine_shorter by lia.
    set (inner := map (fun '(sym, step) => (sym, Some (write_weight step)))
                    (combine (trgt_sentence hypo) (removelast (s0 :: sb)))).
    destruct (open_chain inner (c ++ [Arc 0 n GO_ID GO_ID None]) n EOS_ID
                (Some (write_weight (last (s0 :: sb) [])))) as [H1 H2].
    destruct (fold_left write_step inner _) as [c' n'].
    cbn [fst snd obind] in *.
    rewrite (getitem_last_nonempty (s0 :: sb) []) by discriminate.
    cbn [obind]; rewrite H1, H2.
    unfold sparse_steps; rewrite Esb; fold inner.
    rewrite chain_from_cons by (destruct inner; discriminate).
    rewrite <- app_assoc; cbn [app length].
    rewrite length_app; do 2 f_equal; simpl; lia.
  - apply Nat.leb_gt in Hlen.
    rewrite sparse_positions_raise by (rewrite ?Esb; simpl; lia).
    reflexivity.
Qed.

Lemma sparse_hypos_chains (GO_ID EOS_ID : Z) (hypos : list hypothesis) :
  forall (c : list (fst_line (list weight_el))) (n : Z),
    match for_each (sparse_hypo GO_ID EOS_ID) hypos (c, n) with
    | Return (c', _) =>
        forallb sparse_writable hypos = true /\
        c' = c ++ chains n (map (sparse_steps GO_ID EOS_ID) hypos)
    | Raise e => forallb sparse_writable hypos = false /\ e = IndexError
    end.
Proof.
  induction hypos as [|hypo hypos IH]; intros c n.
  - simpl; rewrite app_nil_r; auto.
  - cbn [for_each forallb map chains].
    rewrite sparse_hypo_chain.
    destruct (sparse_writable hypo); cbn [obind andb]; [|auto].
    specialize (IH (c ++ chain_from 0 n (sparse_steps GO_ID EOS_ID hypo))
                  (n + Z.of_nat (length (sparse_steps GO_ID EOS_ID hypo)) - 1)%Z).
    destruct (for_each (sparse_hypo GO_ID EOS_ID) hypos _) as [[c' n']|e];
      [|exact IH].
    destruct IH as [-> ->]; rewrite <- app_assoc; auto.
Qed.

(** X16: [FSTOutputHandler.write_hypos] raises an [IndexError] for a
    sentence exactly when one of its hypotheses has an empty score breakdown
    or fewer target symbols than steps of the breakdown before the last
    one; it raises nothing else. *)
Theorem sparse_lattice_raises :
  forall (GO_ID EOS_ID : Z) (hypos : list hypothesis),
    returns_iff (forallb sparse_writable hypos) IndexError
      (FSTOutputHandler_sentence GO_ID EOS_ID hypos).
Proof.
  intros GO_ID EOS_ID hypos; unfold FSTOutputHandler_sentence.
  pose proof (sparse_hypos_chains GO_ID EOS_ID hypos [] 2%Z) as H.
  destruct (for_each (sparse_hypo GO_ID EOS_ID) hypos ([], 2%Z))
    as [[c n]|e]; simpl.
  - exact (proj1 H).
  - exact H.
Qed.

(** X17: when every hypothesis of a sentence has a step in its breakdown
    and a target symbol for every step but the last, the lattice
    [FSTOutputHandler.write_hypos] writes accepts a sequence of labels and
    weights exactly when it is the path of one of the hypotheses: the start
    symbol without a weight, then the first [len(score_breakdown) - 1]
    target symbols, each with the weight of its step, then the end symbol
    with the weight of the last step; further target symbols are left
    out. *)
Theorem sparse_lattice_paths :
  forall (GO_ID EOS_ID : Z) (hypos : list hypothesis),
    forallb sparse_writable hypos = true ->
    exists lines,
      FSTOutputHandler_sentence GO_ID EOS_ID hypos = Return lines /\
      forall steps,
        fst_accepts lines steps <->
        exists hypo,
          In hypo hypos /\ steps = sparse_steps GO_ID EOS_ID hypo.
Proof.
  intros GO_ID EOS_ID hypos Hall; unfold FSTOutputHandler_sentence.
  pose proof (sparse_hypos_chains GO_ID EOS_ID hypos [] 2%Z) as H.
  destruct (for_each (sparse_hypo GO_ID EOS_ID) hypos ([], 2%Z))
    as [[c n]|e]; [|destruct H; congruence].
  destruct H as [_ ->]; cbn [app obind].
  eexists; split; [reflexivity|].
  intros steps; rewrite chains_accepts.
  - rewrite in_map_iff; split; intros (hypo & H1 & H2); exists hypo; auto.
  - apply Forall_forall; intros p Hp.
    apply in_map_iff in Hp; destruct Hp as (hypo & <- & _).
    unfold sparse_steps; simpl length; rewrite length_app; simpl; lia.
Qed.

(** X17 on two hypotheses with their breakdowns. *)
Lemma sparse_lattice_paths_witness :
  exists lines,
    FSTOutputHandler_sentence 1 2 two_scored_hypos = Return lines /\
    forall steps,
      fst_accepts lines steps <->
      exists hypo,
        In hypo two_scored_hypos /\ steps = sparse_steps 1 2 hypo.
Proof.
  apply (sparse_lattice_paths 1 2 two_scored_hypos).
  reflexivity.
Defined.

(** ** The n-best list and the tables *)

(** *** Loops whose body raises at most an [IndexError] *)

Lemma comprehension_all {X B} (f : X -> outcome B) (ok : X -> bool)
  (g : X -> B) (xs : list X) :
  (forall x, In x xs ->
             f x = if ok x then Return (g x) else Raise IndexError) ->
  forall k,
    comprehension_enumerate (fun _ x => f x) k xs =
    if forallb ok xs then Return (map g xs) else Raise IndexError.
Proof.
  induction xs as [|x xs IH]; intros Hf k; [reflexivity|].
  cbn [comprehension_enumerate forallb map].
  rewrite (Hf x) by (left; reflexivity).
  destruct (ok x); cbn [obind andb]; [|reflexivity].
  rewrite IH by (intros y Hy; apply Hf; right; exact Hy).
  destruct (forallb ok xs); reflexivity.
Qed.

Lemma for_each_all {St X} (body : St -> X -> outcome St) (ok : X -> bool)
  (step : St -> X -> St) (xs : list X) :
  (forall st x, In x xs ->
                body st x =
                if ok x then Return (step st x) else Raise IndexError) ->
  forall st,
    for_each body xs st =
    if forallb ok xs then Return (fold_left step xs st) else Raise IndexError.
Proof.
  induction xs as [|x xs IH]; intros Hf st; [reflexivity|].
  cbn [for_each forallb fold_left].
  rewrite (Hf st x) by (left; reflexivity).
  destruct (ok x); cbn [obind andb]; [|reflexivity].
  apply IH; intros st' y Hy; apply Hf; right; exact Hy.
Qed.

Lemma fold_left_snoc {A X} (g : X -> A) (xs : list X) :
  forall f : list A,
    fold_left (fun f x => f ++ [g x]) xs f = f ++ map g xs.
Proof.
  induction xs as [|x xs IH]; intros f; simpl; [symmetry; apply app_nil_r|].
  rewrite IH, <- app_assoc; reflexivity.
Qed.

Lemma fold_left_flat {A X} (g : X -> list A) (xs : list X) :
  forall f : list A,
    fold_left (fun f x => f ++ g x) xs f = f ++ flat_map g xs.
Proof.
  induction xs as [|x xs IH]; intros f; simpl; [symmetry; apply app_nil_r|].
  rewrite IH, <- app_assoc; reflexivity.
Qed.

(** *** The sum of a predictor's log-probabilities *)

Lemma wide_enough_le (n m : nat) (steps : ScoreHistory) :
  (m <= n)%nat -> wide_enough n steps = true -> wide_enough m steps = true.
Proof.
  intros Hle; unfold wide_enough; rewrite !forallb_forall.
  intros H s Hs; specialize (H s Hs).
  apply Nat.leb_le in H; apply Nat.leb_le; lia.
Qed.

Lemma wide_enough_0 (steps : ScoreHistory) : wide_enough 0 steps = true.
Proof. apply forallb_forall; intros s _; reflexivity. Qed.

Lemma wide_enough_columns (steps : ScoreHistory) (n : nat) :
  forallb (fun i => wide_enough (S i) steps) (seq 0 n) = wide_enough n steps.
Proof.
  induction n as [|n IH]; [symmetry; apply wide_enough_0|].
  rewrite seq_S, forallb_app, IH; cbn [forallb Nat.add].
  rewrite andb_true_r.
  destruct (wide_enough (S n) steps) eqn:E.
  - rewrite andb_true_r; apply (wide_enough_le (S n) n); [lia | exact E].
  - apply andb_false_r.
Qed.

Lemma getitem_score (s : StepBreakdown) (i : nat) :
  obind (getitem s i) (fun score => Return (fst score)) =
  if Nat.leb (S i) (length s)
  then Return (fst (nth i s (NaN, NaN))) else Raise IndexError.
Proof.
  unfold getitem.
  destruct (nth_error s i) as [score|] eqn:E.
  - rewrite (nth_error_nth _ _ _ E).
    assert (i < length s)%nat by (apply nth_error_Some; congruence).
    destruct (Nat.leb_spec (S i) (length s)); [reflexivity | lia].
  - apply nth_error_None in E.
    destruct (Nat.leb_spec (S i) (length s)); [lia | reflexivity].
Qed.

Lemma column_sum_spec (i : nat) (steps : ScoreHistory) :
  column_sum i steps =
  if wide_enough (S i) steps
  then Return (predictor_sum i steps) else Raise IndexError.
Proof.
  unfold column_sum, wide_enough, predictor_sum.
  rewrite (comprehension_all
             (fun s : StepBreakdown =>
                obind (getitem s i) (fun score => Return (fst score)))
             (fun s => Nat.leb (S i) (length s))
             (fun s => fst (nth i s (NaN, NaN))))
    by (intros s _; apply getitem_score).
  destruct (forallb _ steps); reflexivity.
Qed.

(** *** The entries of the n-best list *)

Lemma map_seq_nth {A B} (h : nat -> A -> B) (d : A) (l : list A) :
  forall a : nat,
    map (fun i => h i (nth (i - a) l d)) (seq a (length l)) =
    map (fun '(i, x) => h i x) (combine (seq a (length l)) l).
Proof.
  induction l as [|x l IH]; intros a; [reflexivity|].
  cbn [length seq combine map].
  rewrite Nat.sub_diag; cbn [nth]; f_equal.
  rewrite <- IH.
  apply map_ext_in; intros i Hi; apply in_seq in Hi.
  replace (i - a)%nat with (S (i - S a)) by lia; reflexivity.
Qed.

Lemma nbest_features_spec (names : list string) (hypo : hypothesis) :
  nbest_features names hypo =
  if wide_enough (length names) (score_breakdown hypo)
  then Return (entry_features (nbest_entry_of names 0 hypo))
  else Raise IndexError.
Proof.
  unfold nbest_features; cbv zeta.
  rewrite (comprehension_all
             (fun i =>
                obind (getitem names i) (fun name =>
                obind (column_sum i (score_breakdown hypo)) (fun x =>
                Return (name, x))))
             (fun i => wide_enough (S i) (score_breakdown hypo))
             (fun i => (nth (i - 0) names ""%string,
                        predictor_sum i (score_breakdown hypo)))).
  - rewrite wide_enough_columns.
    destruct (wide_enough _ _); [|reflexivity].
    f_equal; cbn [entry_features nbest_entry_of].
    exact (map_seq_nth
             (fun i name => (name, predictor_sum i (score_breakdown hypo)))
             ""%string names 0).
  - intros i Hi; apply in_seq in Hi.
    unfold getitem.
    destruct (nth_error names i) as [name|] eqn:E;
      [|apply nth_error_None in E; lia].
    rewrite Nat.sub_0_r, (nth_error_nth _ _ _ E); cbn [obind].
    rewrite column_sum_spec.
    destruct (wide_enough _ _); reflexivity.
Qed.

Lemma nbest_sentence_spec (names : list string) (hypos : list hypothesis)
  (f : list nbest_entry) (idx : Z) :
  nbest_sentence names (f, idx) hypos =
  if forallb (fun hypo => wide_enough (length names) (score_breakdown hypo))
       hypos
  then Return (f ++ map (nbest_entry_of names idx) hypos, (idx + 1)%Z)
  else Raise IndexError.
Proof.
  unfold nbest_sentence.
  rewrite (for_each_all (nbest_hypo names idx)
             (fun hypo => wide_enough (length names) (score_breakdown hypo))
             (fun f hypo => f ++ [nbest_entry_of names idx hypo])).
  - destruct (forallb _ hypos); [|reflexivity].
    cbn [obind]; rewrite fold_left_snoc; reflexivity.
  - intros f' hypo _; unfold nbest_hypo.
    rewrite nbest_features_spec.
    destruct (wide_enough _ _); reflexivity.
Qed.

Lemma nbest_loop_spec (names : list string)
  (all_hypos : list (list hypothesis)) :
  forall (f : list nbest_entry) (idx : Z),
    for_each (nbest_sentence names) all_hypos (f, idx) =
    if nbest_writable (length names) all_hypos
    then Return (f ++ nbest_entries names idx all_hypos,
                 (idx + Z.of_nat (length all_hypos))%Z)
    else Raise IndexError.
Proof.
  induction all_hypos as [|hypos all_hypos IH]; intros f idx.
  - cbn; rewrite app_nil_r, Z.add_0_r; reflexivity.
  - cbn [for_each nbest_writable forallb nbest_entries].
    rewrite nbest_sentence_spec.
    destruct (forallb _ hypos); cbn [obind andb]; [|reflexivity].
    rewrite IH; fold (nbest_writable (length names) all_hypos).
    destruct (nbest_writable _ all_hypos); [|reflexivity].
    rewrite <- app_assoc; do 2 f_equal; cbn [length]; lia.
Qed.

(** X18: [NBestOutputHandler.write_hypos] raises an [IndexError] when a
    step of some hypothesis has fewer scores than there are predictor names,
    and nothing otherwise.  It then writes one entry for every hypothesis,
    sentence after sentence; the entries of the [k]-th sentence, counted
    from zero, carry the number [start_sen_id + k]; the feature of a name is
    the sum of the log-probabilities of the predictor at the position of the
    name, and scores of further predictors are left out. *)
Theorem nbest_write_hypos_spec :
  forall (names : list string) (start_sen_id : Z)
         (all_hypos : list (list hypothesis)),
    NBestOutputHandler_write_hypos names start_sen_id all_hypos =
    if nbest_writable (length names) all_hypos
    then Return (nbest_entries names start_sen_id all_hypos)
    else Raise IndexError.
Proof.
  intros names start_sen_id all_hypos.
  unfold NBestOutputHandler_write_hypos.
  rewrite nbest_loop_spec.
  destruct (nbest_writable _ all_hypos); reflexivity.
Qed.

(** *** The features add up to the log-probabilities of the breakdown *)

Lemma rsum_map_plus {A} (f g : A -> R) (l : list A) :
  rsum (map (fun a => f a + g a) l) = rsum (map f l) + rsum (map g l).
Proof. induction l as [|a l IH]; simpl; [|rewrite IH]; ring. Qed.

Lemma rsum_map_zero {A} (l : list A) : rsum (map (fun _ => 0) l) = 0.
Proof. induction l as [|a l IH]; simpl; [|rewrite IH]; ring. Qed.

Lemma map_nth_seq (r : list R) :
  map (fun i => nth i r 0) (seq 0 (length r)) = r.
Proof.
  apply (nth_ext _ _ 0 0); [rewrite length_map, length_seq; reflexivity|].
  intros k Hk; rewrite length_map, length_seq in Hk.
  set (f := fun i : nat => nth i r 0).
  rewrite (nth_indep _ 0 (f 0%nat))
    by (rewrite length_map, length_seq; exact Hk).
  rewrite (map_nth f), seq_nth by exact Hk; reflexivity.
Qed.

Lemma rsum_columns (n : nat) (rows : list (list R)) :
  Forall (fun r => length r = n) rows ->
  rsum (map (fun i => rsum (map (fun r => nth i r 0) rows)) (seq 0 n)) =
  rsum (map rsum rows).
Proof.
  induction 1 as [|r rows Hr _ IH].
  - apply rsum_map_zero.
  - change (rsum (map rsum (r :: rows))) with (rsum r + rsum (map rsum rows)).
    rewrite <- IH.
    transitivity
      (rsum (map (fun i => nth i r 0
                           + rsum (map (fun r0 => nth i r0 0) rows))
               (seq 0 n))); [reflexivity|].
    rewrite rsum_map_plus; f_equal.
    rewrite <- Hr, map_nth_seq; reflexivity.
Qed.

Lemma finite_scores_reals (s : StepBreakdown) :
  finite_scores s -> map fst s = map Fin (map (fun e => real_of (fst e)) s).
Proof.
  induction 1 as [|[p w] s Hp _ IH]; [reflexivity|].
  cbn [map fst]; rewrite IH.
  destruct p; simpl in Hp; try contradiction; reflexivity.
Qed.

Lemma finite_column (n i : nat) (sb : ScoreHistory) :
  (i < n)%nat ->
  Forall (fun s : StepBreakdown => length s = n) sb ->
  Forall finite_scores sb ->
  predictor_sum i sb =
  Fin (rsum (map (fun r => nth i r 0)
               (map (map (fun e => real_of (fst e))) sb))).
Proof.
  intros Hi Hlen Hfin; unfold predictor_sum.
  rewrite <- pysum_Fin, !map_map; f_equal.
  apply map_ext_in; intros s Hs.
  rewrite Forall_forall in Hlen, Hfin.
  specialize (Hlen s Hs); specialize (Hfin s Hs).
  change (fst (nth i s (NaN, NaN))) with (fst (nth i s (NaN, NaN))).
  rewrite <- (map_nth fst s), (finite_scores_reals s Hfin).
  rewrite (nth_indep _ NaN (Fin 0))
    by (rewrite !length_map; unfold PredictorScore in *; lia).
  rewrite (map_nth Fin); reflexivity.
Qed.

Lemma finite_total (sb : ScoreHistory) :
  Forall finite_scores sb ->
  total_log_prob sb =
  Fin (rsum (map rsum (map (map (fun e => real_of (fst e))) sb))).
Proof.
  intros Hfin; unfold total_log_prob.
  rewrite <- fsum_Fin, !map_map; f_equal.
  apply map_ext_in; intros s Hs.
  rewrite Forall_forall in Hfin; specialize (Hfin s Hs).
  rewrite (finite_scores_reals s Hfin); apply fsum_Fin.
Qed.

Lemma enumerate_names {A B} (h : nat -> B) (l : list A) :
  forall a : nat,
    map (fun x : nat * A => fst (let '(i, name) := x in (name, h i)))
      (combine (seq a (length l)) l) = l.
Proof.
  induction l as [|x l IH]; intros a; [reflexivity|].
  cbn [length seq combine map fst]; f_equal; apply IH.
Qed.

(** X19: the features of the n-best list are sums of raw log-probabilities:
    when every step of the breakdown has a finite log-probability for
    exactly the predictors that are named, the features
    [NBestOutputHandler.write_hypos] writes for the hypothesis carry the
    names in their order, and their values add up to the sum of all the
    log-probabilities of the breakdown, whatever its weights are.  The
    arithmetic is exact. *)
Theorem nbest_features_total :
  forall (names : list string) (hypo : hypothesis),
    Forall (fun s : StepBreakdown => length s = length names)
      (score_breakdown hypo) ->
    Forall finite_scores (score_breakdown hypo) ->
    exists features,
      nbest_features names hypo = Return features /\
      map fst features = names /\
      pysum (map snd features) = total_log_prob (score_breakdown hypo).
Proof.
  intros names hypo Hlen Hfin.
  rewrite nbest_features_spec.
  assert (Hwide : wide_enough (length names) (score_breakdown hypo) = true).
  { apply forallb_forall; intros s Hs.
    rewrite Forall_forall in Hlen; rewrite (Hlen s Hs).
    apply Nat.leb_refl. }
  rewrite Hwide; eexists; split; [reflexivity|].
  cbn [entry_features nbest_entry_of]; split.
  - rewrite map_map; apply enumerate_names.
  - rewrite <- (map_seq_nth
                  (fun i name =>
                     (name, predictor_sum i (score_breakdown hypo)))
                  ""%string names 0).
    rewrite map_map; cbn [snd].
    assert (Hsum :
      map (fun i => predictor_sum i (score_breakdown hypo))
        (seq 0 (length names)) =
      map Fin
        (map (fun i => rsum (map (fun r => nth i r 0)
                               (map (map (fun e => real_of (fst e)))
                                  (score_breakdown hypo))))
           (seq 0 (length names)))).
    { rewrite map_map; apply map_ext_in; intros i Hi; apply in_seq in Hi.
      apply (finite_column (length names)); [lia | assumption | assumption]. }
    rewrite Hsum, pysum_Fin, rsum_columns, (finite_total _ Hfin);
      [reflexivity|].
    rewrite Forall_forall in Hlen |- *; intros r Hr.
    apply in_map_iff in Hr; destruct Hr as (s & <- & Hs).
    rewrite length_map; exact (Hlen s Hs).
Qed.

(** X19 on a hypothesis of three steps and two predictors of weights 0.7
    and 0.3. *)
Lemma nbest_features_total_witness :
  exists features,
    nbest_features ["nmt"%string; "lm"%string] two_predictor_hypo =
      Return features /\
    map fst features = ["nmt"%string; "lm"%string] /\
    pysum (map snd features) =
    total_log_prob (score_breakdown two_predictor_hypo).
Proof.
  apply (nbest_features_total ["nmt"%string; "lm"%string]
           two_predictor_hypo).
  - simpl; repeat constructor.
  - simpl; repeat constructor.
Defined.

(** *** The tables of [TimeCSVOutputHandler] *)

Lemma in_firstn {A} (x : A) (k : nat) (l : list A) :
  In x (firstn k l) <-> exists j, (j < k)%nat /\ nth_error l j = Some x.
Proof.
  split.
  - intros H; apply In_nth_error in H; destruct H as [j Hj].
    rewrite nth_error_firstn in Hj.
    destruct (Nat.ltb_spec j k); [|discriminate].
    exists j; split; assumption.
  - intros (j & Hj & E).
    apply (nth_error_In _ j); rewrite nth_error_firstn.
    destruct (Nat.ltb_spec j k); [exact E | lia].
Qed.

Lemma forallb_const_true {A} (l : list A) : forallb (fun _ => true) l = true.
Proof. induction l; simpl; auto. Qed.

Lemma csv_hypo_spec (n pos : nat) (row : list csv_cell) (hypo : hypothesis) :
  csv_hypo n pos row hypo =
  if csv_hypo_ok n pos hypo
  then Return (row ++ csv_cells_of n pos hypo) else Raise IndexError.
Proof.
  unfold csv_hypo, csv_hypo_ok, csv_cells_of.
  destruct (Nat.leb (length (score_breakdown hypo)) pos) eqn:E;
    cbn [orb]; [reflexivity|].
  apply Nat.leb_gt in E.
  rewrite (for_each_all (csv_acc_cell (score_breakdown hypo) pos)
             (fun i =>
                wide_enough (S i) (firstn (pos + 1) (score_breakdown hypo)))
             (fun row i =>
                row ++ [FloatCell
                          (predictor_sum i
                             (firstn (pos + 1) (score_breakdown hypo)))]))
    by (intros st i _; unfold csv_acc_cell; rewrite column_sum_spec;
        destruct (wide_enough _ _); reflexivity).
  rewrite wide_enough_columns.
  destruct (wide_enough n _) eqn:W; cbn [obind]; [|reflexivity].
  rewrite (for_each_all (csv_weight_cell (score_breakdown hypo) pos)
             (fun _ => true)
             (fun row i =>
                row ++ [FloatCell
                          (snd (nth i (nth pos (score_breakdown hypo) [])
                                  (NaN, NaN)))])).
  - rewrite forallb_const_true, !fold_left_snoc, app_assoc; reflexivity.
  - intros st i Hi; apply in_seq in Hi.
    unfold csv_weight_cell, getitem.
    destruct (nth_error (score_breakdown hypo) pos) as [s|] eqn:Es;
      [|apply nth_error_None in Es; lia].
    replace (nth pos (score_breakdown hypo) []) with s
      by (symmetry; exact (nth_error_nth _ _ _ Es)).
    cbn [obind].
    assert (Hs : In s (firstn (pos + 1) (score_breakdown hypo)))
      by (apply in_firstn; exists pos; split; [lia | exact Es]).
    unfold wide_enough in W; rewrite forallb_forall in W.
    specialize (W s Hs); apply Nat.leb_le in W.
    destruct (nth_error s i) as [score|] eqn:Ei;
      [|apply nth_error_None in Ei; lia].
    rewrite (nth_error_nth _ _ _ Ei); reflexivity.
Qed.

Lemma csv_row_spec (n : nat) (hypos : list hypothesis)
  (f : list (list csv_cell)) (pos : nat) :
  csv_row n hypos f pos =
  if forallb (csv_hypo_ok n pos) hypos
  then Return (f ++ [csv_row_of n hypos pos]) else Raise IndexError.
Proof.
  unfold csv_row.
  rewrite (for_each_all (csv_hypo n pos) (csv_hypo_ok n pos)
             (fun row hypo => row ++ csv_cells_of n pos hypo))
    by (intros row hypo _; apply csv_hypo_spec).
  destruct (forallb _ hypos); [|reflexivity].
  cbn [obind]; rewrite fold_left_flat; reflexivity.
Qed.

Lemma csv_rows_spec (n : nat) (hypos : list hypothesis) (poss : list nat)
  (f : list (list csv_cell)) :
  for_each (csv_row n hypos) poss f =
  if forallb (fun pos => forallb (csv_hypo_ok n pos) hypos) poss
  then Return (f ++ map (csv_row_of n hypos) poss) else Raise IndexError.
Proof.
  rewrite (for_each_all (csv_row n hypos)
             (fun pos => forallb (csv_hypo_ok n pos) hypos)
             (fun f pos => f ++ [csv_row_of n hypos pos]))
    by (intros f' pos _; apply csv_row_spec).
  rewrite fold_left_snoc; reflexivity.
Qed.

Lemma fold_left_max (l : list nat) :
  forall a : nat,
    fold_left Nat.max l a = Nat.max a (fold_right Nat.max 0%nat l).
Proof.
  induction l as [|x l IH]; intros a; simpl; [lia|].
  rewrite IH; lia.
Qed.

Lemma py_max_lengths (hypos : list hypothesis) :
  py_max (map (fun hypo => length (trgt_sentence hypo)) hypos) =
  match hypos with
  | [] => None
  | _ :: _ => Some (max_len_of hypos)
  end.
Proof.
  destruct hypos as [|hypo hypos]; [reflexivity|].
  unfold py_max, max_len_of; cbn [map fold_right].
  rewrite fold_left_max; reflexivity.
Qed.

Lemma csv_hypo_rows_ok (n m : nat) (hypo : hypothesis) :
  forallb (fun pos => csv_hypo_ok n pos hypo) (seq 0 (m + 1)) =
  wide_enough n (firstn (m + 1) (score_breakdown hypo)).
Proof.
  apply eq_iff_eq_true; unfold wide_enough; rewrite !forallb_forall; split.
  - intros H s Hs.
    apply in_firstn in Hs; destruct Hs as (j & Hj & Es).
    assert (Hin : In j (seq 0 (m + 1))) by (apply in_seq; lia).
    specialize (H j Hin); unfold csv_hypo_ok in H.
    assert (j < length (score_breakdown hypo))%nat
      by (apply nth_error_Some; congruence).
    destruct (Nat.leb_spec (length (score_breakdown hypo)) j); [lia|].
    cbn [orb] in H; unfold wide_enough in H; rewrite forallb_forall in H.
    apply H, in_firstn; exists j; split; [lia | exact Es].
  - intros H pos Hpos; apply in_seq in Hpos.
    unfold csv_hypo_ok; apply orb_true_iff; right.
    unfold wide_enough; apply forallb_forall; intros s Hs.
    apply H; apply in_firstn in Hs; destruct Hs as (j & Hj & Es).
    apply in_firstn; exists j; split; [lia | exact Es].
Qed.

Lemma forallb_swap {A B} (P : A -> B -> bool) (xs : list A) (ys : list B) :
  forallb (fun x => forallb (P x) ys) xs =
  forallb (fun y => forallb (fun x => P x y) xs) ys.
Proof.
  apply eq_iff_eq_true; rewrite !forallb_forall; split; intros H a Ha;
    apply forallb_forall; intros b Hb; specialize (H b Hb);
    rewrite forallb_forall in H; exact (H a Ha).
Qed.

Lemma forallb_pointwise {A} (f g : A -> bool) (l : list A) :
  (forall a, f a = g a) -> forallb f l = forallb g l.
Proof.
  intros H; induction l as [|a l IH]; simpl; [reflexivity|].
  rewrite H, IH; reflexivity.
Qed.

Lemma csv_sentence_spec (names : list string) (hypos : list hypothesis) :
  TimeCSVOutputHandler_sentence names hypos =
  match hypos with
  | [] => inl ValueError
  | _ :: _ =>
      if csv_writable (length names) hypos
      then inr (csv_header names (length hypos)
                :: map (csv_row_of (length names) hypos)
                     (seq 0 (max_len_of hypos + 1)))
      else inl (Indexing IndexError)
  end.
Proof.
  unfold TimeCSVOutputHandler_sentence; cbv zeta.
  rewrite py_max_lengths.
  destruct hypos as [|hypo hypos]; [reflexivity|].
  rewrite csv_rows_spec, forallb_swap.
  unfold csv_writable; cbn [length Nat.eqb negb andb].
  rewrite (forallb_pointwise _ _ (hypo :: hypos)
             (csv_hypo_rows_ok (length names) (max_len_of (hypo :: hypos)))).
  destruct (forallb _ (hypo :: hypos)); reflexivity.
Qed.

Lemma csv_cells_length (n pos : nat) (hypo : hypothesis) :
  length (csv_cells_of n pos hypo) = (2 * n)%nat.
Proof.
  unfold csv_cells_of.
  destruct (Nat.leb _ pos).
  - rewrite repeat_length; lia.
  - rewrite length_app, !length_map, length_seq; lia.
Qed.

Lemma flat_map_constant_length {A B} (g : A -> list B) (k : nat)
  (l : list A) :
  (forall a, length (g a) = k) ->
  length (flat_map g l) = (k * length l)%nat.
Proof.
  intros Hg; induction l as [|a l IH]; simpl; [lia|].
  rewrite length_app, Hg, IH; lia.
Qed.

Lemma csv_header_length (names : list string) (hypo_count : nat) :
  length (csv_header names hypo_count) =
  (1 + 2 * length names * hypo_count)%nat.
Proof.
  unfold csv_header.
  assert (H : forall (idxs : list nat) (row : list csv_cell),
             length
               (fold_left
                  (fun row i =>
                     (row
                      ++ map (fun n =>
                                TextCell (n ++ "-" ++ str_of_count (i + 1))%string)
                           names)
                     ++ map (fun n =>
                               TextCell (n ++ "-" ++ str_of_count (i + 1)
                                         ++ "_weight")%string)
                          names)
                  idxs row) =
             (length row + 2 * length names * length idxs)%nat).
  { induction idxs as [|i idxs IH]; intros row; cbn [fold_left length];
      [lia|].
    rewrite IH, !length_app, !length_map; lia. }
  rewrite H, length_seq; cbn [length]; lia.
Qed.

(** X20: the per-sentence loop of [TimeCSVOutputHandler.write_hypos]
    raises a [ValueError] exactly for a sentence without hypotheses, and an
    [IndexError] exactly when, among the first [max_len + 1] steps of some
    hypothesis, a step has fewer scores than there are predictor names;
    [max_len] is the length of the longest target sentence.  It raises
    nothing else. *)
Theorem csv_sentence_raises :
  forall (names : list string) (hypos : list hypothesis),
    match TimeCSVOutputHandler_sentence names hypos with
    | inr _ => csv_writable (length names) hypos = true
    | inl ValueError => hypos = []
    | inl (Indexing e) =>
        e = IndexError /\ hypos <> [] /\
        csv_writable (length names) hypos = false
    end.
Proof.
  intros names hypos; rewrite csv_sentence_spec.
  destruct hypos as [|hypo hypos]; [reflexivity|].
  destruct (csv_writable (length names) (hypo :: hypos));
    [reflexivity|].
  repeat split; discriminate.
Qed.

(** X21: when the sentence has a hypothesis and the steps have a score for
    every predictor name, the table [TimeCSVOutputHandler.write_hypos]
    writes is rectangular: the header and each of the [max_len + 1] rows
    below it have one cell for the time and two cells for every predictor
    name of every hypothesis, placeholders included. *)
Theorem csv_table_rectangular :
  forall (names : list string) (hypos : list hypothesis),
    csv_writable (length names) hypos = true ->
    exists rows,
      TimeCSVOutputHandler_sentence names hypos = inr rows /\
      length rows = (max_len_of hypos + 2)%nat /\
      Forall (fun row =>
                length row = (1 + 2 * length names * length hypos)%nat)
        rows.
Proof.
  intros names hypos Hw; rewrite csv_sentence_spec.
  destruct hypos as [|hypo hypos]; [discriminate|].
  rewrite Hw; eexists; split; [reflexivity|]; split.
  - cbn [length]; rewrite length_map, length_seq; lia.
  - constructor; [apply csv_header_length|].
    apply Forall_forall; intros row Hrow.
    apply in_map_iff in Hrow; destruct Hrow as (pos & <- & _).
    unfold csv_row_of; cbn [length].
    rewrite (flat_map_constant_length _ (2 * length names))
      by (intros h; apply csv_cells_length).
    reflexivity.
Qed.

(** X21 on two hypotheses of different lengths. *)
Lemma csv_table_rectangular_witness :
  exists rows,
    TimeCSVOutputHandler_sentence ["nmt"%string] two_scored_hypos = inr rows /\
    length rows = (max_len_of two_scored_hypos + 2)%nat /\
    Forall (fun row =>
              length row =
              (1 + 2 * length ["nmt"%string] * length two_scored_hypos)%nat)
      rows.
Proof.
  apply (csv_table_rectangular ["nmt"%string] two_scored_hypos).
  reflexivity.
Defined.
